(** * Delve Dungeon: the rules engine, embedded and verified

    A shallow embedding of the engine modules of the dungeon crawler
    (dice.js, floor-generator.js, loot.js, combat.js and the action
    processor) together with the properties stated about them.

    Conventions of the embedding:
    - JavaScript numbers that the engine keeps integral (rolls, stats,
      levels, hit points, room numbers, DCs) are [Z]; numbers that may be
      fractional (variance, multipliers, weights) are exact rationals [Q].
    - [Math.random()] is an oracle [rnd : nat -> Q]; the [n]-th call of a
      run returns [rnd n].  Code that draws random numbers is written in
      the state monad [Rand] that threads the number of calls made so far.
    - objects mutated in place and reached through an array (rooms of a
      floor map, enemies of a room state) are addressed by their index in
      that array, so that a write through one reference is seen through
      the other. *)

From Stdlib Require Import ZArith QArith Qround Qminmax Lia Lqa.
From stdpp Require Import base option list gmap strings.

Local Open Scope Z_scope.

(** ** JavaScript arithmetic helpers *)

Module Js.

(** [Math.floor] on a rational. *)
Definition Math_floor (x : Q) : Z := Qfloor x.

(** [Math.round]: the nearest integer, halves going up. *)
Definition Math_round (x : Q) : Z := Qfloor (x + (1 # 2)).

(** [v || d] on an integer: [0] is falsy. *)
Definition or_num (v d : Z) : Z := if v =? 0 then d else v.

(** [v || d] on a possibly missing integer: [undefined], [null] and [0]
    are falsy. *)
Definition or_opt (v : option Z) (d : Z) : Z :=
  match v with
  | Some x => or_num x d
  | None => d
  end.

(** [v || d] on a rational. *)
Definition or_numQ (v d : Q) : Q := if Qeq_bool v 0 then d else v.

(** [a < b], [a <= b] on rationals, as booleans. *)
Definition Qltb (a b : Q) : bool := negb (Qle_bool b a).
Definition Qleb (a b : Q) : bool := Qle_bool a b.

End Js.

(** ** The random source *)

Definition Rand (A : Type) : Type := nat -> A * nat.

Definition ret {A : Type} (a : A) : Rand A := fun c => (a, c).

Definition bind {A B : Type} (m : Rand A) (k : A -> Rand B) : Rand B :=
  fun c => let p := m c in k (fst p) (snd p).

Notation "'let*' x ':=' m 'in' k" := (bind m (fun x => k))
  (at level 10, x name, m at level 100, k at level 200).

(** A well-formed oracle returns values in [0, 1), as [Math.random] does. *)
Definition unit_interval (rnd : nat -> Q) : Prop :=
  forall n : nat, (0 <= rnd n)%Q /\ (rnd n < 1)%Q.

Definition Math_random (rnd : nat -> Q) : Rand Q := fun c => (rnd c, S c).

(** [Rand]-monadic left fold, for the [for] loops that draw random
    numbers while they update an array. *)
Fixpoint foldM {A B : Type} (f : B -> A -> Rand B) (l : list A) (b : B)
  : Rand B :=
  match l with
  | [] => ret b
  | x :: rest => let* b' := f b x in foldM f rest b'
  end.

(** ** dice.js *)

Module Dice.

Inductive Stat : Type :=
| strength_stat | dexterity_stat | constitution_stat
| intelligence_stat | wisdom_stat | charisma_stat.

Record BaseStats : Type := mkBaseStats {
  strength : Z;
  dexterity : Z;
  constitution : Z;
  intelligence : Z;
  wisdom : Z;
  charisma : Z
}.

(** [baseStats[stat]] *)
Definition stat_of (b : BaseStats) (s : Stat) : Z :=
  match s with
  | strength_stat => strength b
  | dexterity_stat => dexterity b
  | constitution_stat => constitution b
  | intelligence_stat => intelligence b
  | wisdom_stat => wisdom b
  | charisma_stat => charisma b
  end.

Definition statModifier (statValue : Z) : Z := (statValue - 10) / 2.

Definition SKILL_STAT_MAP (skillName : string) : option Stat :=
  if String.eqb skillName "melee" then Some strength_stat
  else if String.eqb skillName "ranged" then Some dexterity_stat
  else if String.eqb skillName "magic" then Some intelligence_stat
  else if String.eqb skillName "stealth" then Some dexterity_stat
  else if String.eqb skillName "perception" then Some wisdom_stat
  else if String.eqb skillName "persuasion" then Some charisma_stat
  else if String.eqb skillName "lockpicking" then Some dexterity_stat
  else if String.eqb skillName "survival" then Some wisdom_stat
  else if String.eqb skillName "crafting" then Some intelligence_stat
  else if String.eqb skillName "alchemy" then Some intelligence_stat
  else None.

Definition getGoverningStatForSkill (skillName : string) : option Stat :=
  SKILL_STAT_MAP skillName.

Inductive Outcome : Type :=
| critical_success | critical_failure | success | partial | failure.

Inductive RollType : Type := advantage_roll | disadvantage_roll | normal_roll.

Record RollDetails : Type := mkRollDetails {
  roll_type : RollType;
  rolls : list Z;
  used : Z
}.

(** One entry of [perkBonuses]; [effect] may be missing. *)
Record PerkBonus : Type := mkPerkBonus {
  perk : string;
  effect : option Z
}.

Record SkillCheckParams : Type := mkSkillCheckParams {
  skillName : string;
  p_dc : Z;
  baseStats : option BaseStats;
  skills : gmap string Z;          (* skill name -> level *)
  critRange : Z;
  perkBonuses : list PerkBonus;
  advantage : bool;
  disadvantage : bool;
  dcSource : string;
  dcOriginId : option Z
}.

Record DiceResult : Type := mkDiceResult {
  base_roll : Z;
  roll_details : RollDetails;
  stat_modifier : Z;
  governing_stat : option Stat;
  stat_value : Z;
  skill_level : Z;
  skill_bonus : Z;
  perk_bonuses : list PerkBonus;
  perk_total : Z;
  final_total : Z;
  dc : Z;
  dc_source : string;
  dc_origin_id : option Z;
  passed : bool;
  outcome : Outcome;
  is_critical : bool;
  is_fumble : bool
}.

(** [perkBonuses.reduce((sum, p) => sum + (p.effect || 0), 0)] *)
Definition sum_perks (l : list PerkBonus) : Z :=
  fold_left (fun sum p => sum + Js.or_opt (effect p) 0) l 0.

(** [skills?.[skillName]?.level || 1] *)
Definition level_or_1 (skills : gmap string Z) (name : string) : Z :=
  Js.or_opt (skills !! name) 1.

Definition is_pass (o : Outcome) : bool :=
  match o with
  | success | critical_success | partial => true
  | critical_failure | failure => false
  end.

Record DamageParams : Type := mkDamageParams {
  baseDamage : Q;
  weaponBonus : Q;
  isCritical : bool;
  targetArmor : Q;
  resistanceMultiplier : Q
}.

Record DamageResult : Type := mkDamageResult {
  rawDamage : Z;
  mitigatedDamage : Q;
  armorReduced : Q;
  dr_resistanceMultiplier : Q;
  resistanceApplied : bool;
  dr_isCritical : bool
}.

Record DcRange : Type := mkDcRange { dc_min : Z; dc_max : Z }.

Record PoolEntry (A : Type) : Type := mkPoolEntry { weight : Q; item : A }.
Arguments mkPoolEntry {A} _ _.
Arguments weight {A} _.
Arguments item {A} _.

(** The [for (const entry of pool)] loop of [weightedRandom]: [None]
    when the loop ends without returning. *)
Fixpoint weighted_scan {A : Type} (roll : Q) (pool : list (PoolEntry A))
  : option A :=
  match pool with
  | [] => None
  | entry :: rest =>
      let roll' := (roll - weight entry)%Q in
      if Js.Qleb roll' 0 then Some (item entry) else weighted_scan roll' rest
  end.

Section WithRandom.

Variable rnd : nat -> Q.

Definition roll (sides : Z) : Rand Z :=
  let* u := Math_random rnd in
  ret (Js.Math_floor (u * inject_Z sides) + 1).

Fixpoint rollMultiple_loop (count : nat) (sides : Z) : Rand (list Z) :=
  match count with
  | O => ret []
  | S n => let* r := roll sides in let* rs := rollMultiple_loop n sides in ret (r :: rs)
  end.

Definition rollMultiple (count : nat) (sides : Z) : Rand (list Z * Z) :=
  let* rs := rollMultiple_loop count sides in
  ret (rs, fold_left Z.add rs 0).

Definition rollStat : Rand Z :=
  let* r := rollMultiple 3 6 in ret (snd r).

Definition roll_d20 (advantage disadvantage : bool) : Rand (Z * RollDetails) :=
  if advantage && negb disadvantage then
    let* r1 := roll 20 in
    let* r2 := roll 20 in
    let baseRoll := Z.max r1 r2 in
    ret (baseRoll, mkRollDetails advantage_roll [r1; r2] baseRoll)
  else if disadvantage && negb advantage then
    let* r1 := roll 20 in
    let* r2 := roll 20 in
    let baseRoll := Z.min r1 r2 in
    ret (baseRoll, mkRollDetails disadvantage_roll [r1; r2] baseRoll)
  else
    let* baseRoll := roll 20 in
    ret (baseRoll, mkRollDetails normal_roll [baseRoll] baseRoll).

Definition skillCheck (p : SkillCheckParams) : Rand DiceResult :=
  let* rd := roll_d20 (advantage p) (disadvantage p) in
  let baseRoll := fst rd in
  let rollDetails := snd rd in
  let governingStat := SKILL_STAT_MAP (skillName p) in
  let statValue :=
    match governingStat, baseStats p with
    | Some g, Some b => Js.or_num (stat_of b g) 10
    | _, _ => 10
    end in
  let statMod := statModifier statValue in
  let skillLevel := level_or_1 (skills p) (skillName p) in
  let skillBonus := skillLevel / 10 in
  let perkTotal := sum_perks (perkBonuses p) in
  let finalTotal := baseRoll + statMod + skillBonus + perkTotal in
  let isCriticalSuccess := critRange p <=? baseRoll in
  let isCriticalFailure := baseRoll =? 1 in
  let outcome :=
    if isCriticalSuccess then critical_success
    else if isCriticalFailure then critical_failure
    else if p_dc p <=? finalTotal then success
    else if p_dc p - 2 <=? finalTotal then partial
    else failure in
  let passed := is_pass outcome in
  ret {| base_roll := baseRoll;
         roll_details := rollDetails;
         stat_modifier := statMod;
         governing_stat := governingStat;
         stat_value := statValue;
         skill_level := skillLevel;
         skill_bonus := skillBonus;
         perk_bonuses := perkBonuses p;
         perk_total := perkTotal;
         final_total := finalTotal;
         dc := p_dc p;
         dc_source := dcSource p;
         dc_origin_id := dcOriginId p;
         passed := passed;
         outcome := outcome;
         is_critical := isCriticalSuccess;
         is_fumble := isCriticalFailure |}.

Definition rollDamage (p : DamageParams) : Rand DamageResult :=
  let* u := Math_random rnd in
  let variance := ((8 # 10) + u * (4 # 10))%Q in
  let rawDamage0 := Js.Math_round ((baseDamage p + weaponBonus p) * variance) in
  let rawDamage := if isCritical p then rawDamage0 * 2 else rawDamage0 in
  let afterResistance :=
    Js.Math_round (inject_Z rawDamage * resistanceMultiplier p) in
  let armorReduced := Qmin (targetArmor p) (inject_Z (afterResistance - 1)) in
  let mitigatedDamage :=
    Qmax 1 (inject_Z afterResistance - targetArmor p) in
  ret {| rawDamage := rawDamage;
         mitigatedDamage := mitigatedDamage;
         armorReduced := Qmax 0 armorReduced;
         dr_resistanceMultiplier := resistanceMultiplier p;
         resistanceApplied := negb (rawDamage =? afterResistance);
         dr_isCritical := isCritical p |}.

Definition randomDC (dcRange : DcRange) : Rand Z :=
  let* u := Math_random rnd in
  ret (dc_min dcRange
       + Js.Math_floor (u * inject_Z (dc_max dcRange - dc_min dcRange + 1))).

(** Every pool the engine builds holds non-empty strings or rule
    objects, which are truthy, so the final [|| null] only fires on an
    empty pool. *)
Definition weightedRandom {A : Type} (pool : list (PoolEntry A))
  : Rand (option A) :=
  let totalWeight := fold_left (fun sum entry => (sum + weight entry)%Q) pool 0%Q in
  if Js.Qleb totalWeight 0 then ret None
  else
    let* u := Math_random rnd in
    let roll := (u * totalWeight)%Q in
    match weighted_scan roll pool with
    | Some it => ret (Some it)
    | None => ret (item <$> last pool)
    end.

End WithRandom.

End Dice.

(** ** floor-generator.js *)

Module FloorGenerator.

Inductive RoomType : Type :=
| ty_standard | ty_treasure | ty_trap | ty_rest | ty_locked | ty_boss.

Global Instance RoomType_eq_dec : EqDecision RoomType.
Proof. solve_decision. Defined.

(** [type === k]; a room type is a string, or [null] when the weighted
    draw returned nothing. *)
Definition type_is (t : option RoomType) (k : RoomType) : bool :=
  bool_decide (t = Some k).

Record Scaling : Type := mkScaling {
  hp_per_tier : Q;
  damage_per_tier : Q;
  armor_per_tier : Q
}.

(** A row of [enemy_rules] joined with [enemies].  [stat_scaling] is
    [None] when the stored JSON text does not parse. *)
Record EnemyRule : Type := mkEnemyRule {
  enemy_id : Z;
  enemy_name : string;
  rule_is_boss : Z;
  spawn_weight : Z;
  base_hp : Z;
  base_damage : Z;
  base_armor : Z;
  stat_scaling : option Scaling;
  rule_resistances : gmap string Q;
  rule_xp_reward : Z;
  rule_gold_reward_min : Z;
  rule_gold_reward_max : Z
}.

(** The runtime copy of an enemy.  The ability tables, which only
    [processEnemyTurn] reads, are left out; [instance_tag] is the
    [roll(10000)] part of [instance_id]. *)
Record Enemy : Type := mkEnemy {
  e_enemy_id : Z;
  instance_tag : Z;
  name : string;
  hp_current : Z;
  hp_max : Z;
  damage : Z;
  armor : Z;
  resistances : gmap string Q;
  is_boss : bool;
  is_dead : bool;
  xp_reward : Z;
  gold_reward_min : Z;
  gold_reward_max : Z;
  awareness : string;
  skip_next_action : bool
}.

Record Trap : Type := mkTrap {
  trap_name : string;
  trap_damage_type : string;
  trap_damage : Z;
  trap_effect : option string;
  trap_check : string;
  trap_dc : Z;
  is_triggered : bool;
  is_disarmed : bool
}.

Record Chest : Type := mkChest {
  is_opened : bool;
  is_locked : bool;
  chest_lock_dc : option Z;
  is_looted : bool
}.

Record Lock : Type := mkLock {
  lock_dc : Z;
  requires_key : bool;
  is_picked : bool
}.

Record Rest : Type := mkRest { heal_percent : Q }.

Record Room : Type := mkRoom {
  room_number : Z;
  type : option RoomType;
  is_cleared : bool;
  is_accessible : bool;
  connections : list Z;
  actions_in_room_count : Z;
  enemies : list Enemy;
  trap : option Trap;
  chest : option Chest;
  lock : option Lock;
  rest : option Rest;
  is_exit : bool;
  is_boss_room : bool
}.

Record FloorMap : Type := mkFloorMap { rooms : list Room }.

Record Dungeon : Type := mkDungeon {
  dungeon_id : Z;
  dc_range : Dice.DcRange;
  difficulty_tier : Z;
  floor_count : Z
}.

(** In-place writes to a room. *)
Definition set_is_cleared (b : bool) (r : Room) : Room :=
  mkRoom (room_number r) (type r) b (is_accessible r) (connections r)
    (actions_in_room_count r) (enemies r) (trap r) (chest r) (lock r)
    (rest r) (is_exit r) (is_boss_room r).

Definition set_is_accessible (b : bool) (r : Room) : Room :=
  mkRoom (room_number r) (type r) (is_cleared r) b (connections r)
    (actions_in_room_count r) (enemies r) (trap r) (chest r) (lock r)
    (rest r) (is_exit r) (is_boss_room r).

Definition set_connections (l : list Z) (r : Room) : Room :=
  mkRoom (room_number r) (type r) (is_cleared r) (is_accessible r) l
    (actions_in_room_count r) (enemies r) (trap r) (chest r) (lock r)
    (rest r) (is_exit r) (is_boss_room r).

Definition set_lock (l : option Lock) (r : Room) : Room :=
  mkRoom (room_number r) (type r) (is_cleared r) (is_accessible r)
    (connections r) (actions_in_room_count r) (enemies r) (trap r) (chest r)
    l (rest r) (is_exit r) (is_boss_room r).

Definition set_chest (c : option Chest) (r : Room) : Room :=
  mkRoom (room_number r) (type r) (is_cleared r) (is_accessible r)
    (connections r) (actions_in_room_count r) (enemies r) (trap r) c
    (lock r) (rest r) (is_exit r) (is_boss_room r).

Definition set_trap (t : option Trap) (r : Room) : Room :=
  mkRoom (room_number r) (type r) (is_cleared r) (is_accessible r)
    (connections r) (actions_in_room_count r) (enemies r) t (chest r)
    (lock r) (rest r) (is_exit r) (is_boss_room r).

(** [connections.push(n)] *)
Definition push_connection (n : Z) (r : Room) : Room :=
  set_connections (connections r ++ [n]) r.

(** [lock.is_picked = true] *)
Definition pick_lock (l : Lock) : Lock :=
  mkLock (lock_dc l) (requires_key l) true.

(** [rooms[i]] for a JavaScript index. *)
Definition room_at (rs : list Room) (i : Z) : option Room :=
  if i <? 0 then None else rs !! Z.to_nat i.

(** [pool.find(p => p.item === t).weight += d] *)
Fixpoint bump_weight (t : RoomType) (d : Q)
  (pool : list (Dice.PoolEntry RoomType)) : list (Dice.PoolEntry RoomType) :=
  match pool with
  | [] => []
  | p :: rest =>
      if bool_decide (Dice.item p = t)
      then Dice.mkPoolEntry (Dice.weight p + d)%Q (Dice.item p) :: rest
      else p :: bump_weight t d rest
  end.

Definition room_type_pool (floorNumber : Z) : list (Dice.PoolEntry RoomType) :=
  let pool :=
    [ Dice.mkPoolEntry 45%Q ty_standard;
      Dice.mkPoolEntry 15%Q ty_treasure;
      Dice.mkPoolEntry 15%Q ty_trap;
      Dice.mkPoolEntry 10%Q ty_rest;
      Dice.mkPoolEntry 10%Q ty_locked ] in
  if 2 <=? floorNumber then
    bump_weight ty_standard (-10)%Q
      (bump_weight ty_locked 5%Q (bump_weight ty_trap 5%Q pool))
  else pool.

Record TrapTemplate : Type := mkTrapTemplate {
  tt_name : string;
  tt_damage_type : string;
  tt_damage : Z;
  tt_effect : option string;
  tt_check : string
}.

(** The table of [generateTrap] (the descriptive text is left out). *)
Definition traps : list TrapTemplate :=
  [ mkTrapTemplate "Poison Dart Trap" "piercing" 8 (Some "poison") "perception";
    mkTrapTemplate "Flame Jet" "fire" 12 None "dexterity";
    mkTrapTemplate "Collapsing Floor" "blunt" 10 (Some "stun") "perception";
    mkTrapTemplate "Necrotic Rune" "necrotic" 15 None "magic";
    mkTrapTemplate "Spider Web Ambush" "piercing" 6 (Some "stun") "perception" ].

(** What [{...undefined}] leaves of a trap: no template field at all. *)
Definition blank_trap : TrapTemplate := mkTrapTemplate "" "" 0 None "".

Definition default_scaling : Scaling :=
  mkScaling (13 # 10) (115 # 100) (11 # 10).

Record RoomArgs : Type := mkRoomArgs {
  a_room_number : Z;
  a_type : option RoomType;
  a_dcRange : Dice.DcRange;
  a_floorNumber : Z;
  a_enemyRules : list EnemyRule;
  a_isEntrance : bool;
  a_dungeon : Dungeon;
  a_isBossRoom : bool;
  a_isExit : bool
}.

Section WithRandom.

Variable rnd : nat -> Q.

Definition createEnemyInstance (rule : EnemyRule) (difficultyTier : Z)
  (isBoss : bool) : Rand Enemy :=
  let scaling :=
    match stat_scaling rule with
    | Some s => s
    | None => default_scaling
    end in
  let tierMultiplier := Z.max 0 (difficultyTier - 1) in
  let scaledHp :=
    Js.Math_round (inject_Z (base_hp rule)
      * Qpower (Js.or_numQ (hp_per_tier scaling) (13 # 10)) tierMultiplier) in
  let scaledDamage :=
    Js.Math_round (inject_Z (base_damage rule)
      * Qpower (Js.or_numQ (damage_per_tier scaling) (115 # 100)) tierMultiplier) in
  let scaledArmor :=
    Js.Math_round (inject_Z (base_armor rule)
      * Qpower (Js.or_numQ (armor_per_tier scaling) (11 # 10)) tierMultiplier) in
  let* tag := Dice.roll rnd 10000 in
  ret {| e_enemy_id := enemy_id rule;
         instance_tag := tag;
         name := enemy_name rule;
         hp_current := scaledHp;
         hp_max := scaledHp;
         damage := scaledDamage;
         armor := scaledArmor;
         resistances := rule_resistances rule;
         is_boss := isBoss;
         is_dead := false;
         xp_reward := rule_xp_reward rule;
         gold_reward_min := rule_gold_reward_min rule;
         gold_reward_max := rule_gold_reward_max rule;
         awareness := "idle";
         skip_next_action := false |}.

(** [regularRules.map(r => ({ weight: r.spawn_weight, item: r }))] *)
Definition spawn_pool (rules : list EnemyRule) : list (Dice.PoolEntry EnemyRule) :=
  map (fun r => Dice.mkPoolEntry (inject_Z (spawn_weight r)) r) rules.

(** The loop [for (i = 0; i < count; i++)] that draws a rule and pushes
    an instance of it. *)
Fixpoint spawn_loop (count : nat) (regularRules : list EnemyRule)
  (difficultyTier : Z) : Rand (list Enemy) :=
  match count with
  | O => ret []
  | S n =>
      let* rule := Dice.weightedRandom rnd (spawn_pool regularRules) in
      let* here :=
        match rule with
        | Some r =>
            let* e := createEnemyInstance r difficultyTier false in ret [e]
        | None => ret []
        end in
      let* more := spawn_loop n regularRules difficultyTier in
      ret (here ++ more)
  end.

Definition spawnEnemies (enemyRules : list EnemyRule)
  (floorNumber difficultyTier : Z) (isBossRoom : bool) : Rand (list Enemy) :=
  if isBossRoom then
    let bossRules := filter (fun r => rule_is_boss r = 1) enemyRules in
    let* bossL :=
      match bossRules with
      | bossRule :: _ =>
          let* b := createEnemyInstance bossRule difficultyTier true in ret [b]
      | [] => ret []
      end in
    let* u := Math_random rnd in
    if Js.Qltb u (1 # 2) then
      let regularRules :=
        filter (fun r => rule_is_boss r = 0 /\ 0 < spawn_weight r) enemyRules in
      let* addCount := Dice.roll rnd 2 in
      let* adds := spawn_loop (Z.to_nat addCount) regularRules difficultyTier in
      ret (bossL ++ adds)
    else ret bossL
  else
    let regularRules :=
      filter (fun r => rule_is_boss r = 0 /\ 0 < spawn_weight r) enemyRules in
    match regularRules with
    | [] => ret []
    | _ :: _ =>
        let* u := Math_random rnd in
        let enemyCount :=
          1 + Js.Math_floor (u * inject_Z (Z.min 2 floorNumber)) in
        spawn_loop (Z.to_nat enemyCount) regularRules difficultyTier
    end.

Definition generateTrap (dcRange : Dice.DcRange) : Rand Trap :=
  let* u := Math_random rnd in
  let idx := Js.Math_floor (u * inject_Z (Z.of_nat (length traps))) in
  let t :=
    match (if idx <? 0 then None else traps !! Z.to_nat idx) with
    | Some t => t
    | None => blank_trap
    end in
  let* dc := Dice.randomDC rnd dcRange in
  ret {| trap_name := tt_name t;
         trap_damage_type := tt_damage_type t;
         trap_damage := tt_damage t;
         trap_effect := tt_effect t;
         trap_check := tt_check t;
         trap_dc := dc;
         is_triggered := false;
         is_disarmed := false |}.

Definition pickRoomType (floorNumber roomIndex totalRooms : Z)
  : Rand (option RoomType) :=
  Dice.weightedRandom rnd (room_type_pool floorNumber).

Definition createRoom (a : RoomArgs) : Rand Room :=
  let ty := a_type a in
  let tier := difficulty_tier (a_dungeon a) in
  (* Enemy placement, and the trap of a trap room *)
  let* placed :=
    if type_is ty ty_standard && negb (a_isEntrance a) then
      let* u := Math_random rnd in
      if Js.Qltb u (6 # 10) then
        let* es := spawnEnemies (a_enemyRules a) (a_floorNumber a) tier false in
        ret (es, None)
      else ret ([], None)
    else if type_is ty ty_trap then
      let* u := Math_random rnd in
      let* es :=
        if Js.Qltb u (3 # 10)
        then spawnEnemies (a_enemyRules a) (a_floorNumber a) tier false
        else ret [] in
      let* t := generateTrap (a_dcRange a) in
      ret (es, Some t)
    else if type_is ty ty_boss then
      let* es := spawnEnemies (a_enemyRules a) (a_floorNumber a) tier true in
      ret (es, None)
    else ret ([], None) in
  (* Chest placement *)
  let* chest :=
    if type_is ty ty_treasure then
      let* u := Math_random rnd in
      if Js.Qltb u (4 # 10) then
        let* d := Dice.randomDC rnd (a_dcRange a) in
        ret (Some (mkChest false true (Some d) false))
      else ret (Some (mkChest false false None false))
    else if type_is ty ty_standard && negb (a_isEntrance a) then
      let* u := Math_random rnd in
      if Js.Qltb u (15 # 100)
      then ret (Some (mkChest false false None false))
      else ret None
    else ret None in
  (* Locked room lock *)
  let* lock :=
    if type_is ty ty_locked then
      let* d := Dice.randomDC rnd
                  (Dice.mkDcRange (Dice.dc_min (a_dcRange a) + 2)
                                  (Dice.dc_max (a_dcRange a) + 2)) in
      ret (Some (mkLock d false false))
    else ret None in
  (* Rest rooms *)
  let* rest :=
    if type_is ty ty_rest then
      let* u := Math_random rnd in
      ret (Some (mkRest ((2 # 10) + u * (15 # 100))%Q))
    else ret None in
  ret {| room_number := a_room_number a;
         type := ty;
         is_cleared := false;
         is_accessible :=
           if type_is ty ty_locked then false else a_room_number a =? 1;
         connections := [];
         actions_in_room_count := 0;
         enemies := fst placed;
         trap := snd placed;
         chest := chest;
         lock := lock;
         rest := rest;
         is_exit := a_isExit a;
         is_boss_room := a_isBossRoom a |}.

(** One turn of the primary-path loop of [generateConnections], at
    index [i]. *)
Definition link_step (rs : list Room) (i : nat) : list Room :=
  match rs !! i, rs !! S i with
  | Some from, Some to =>
      let rs1 :=
        if bool_decide (room_number to ∈ connections from) then rs
        else alter (push_connection (room_number to)) i rs in
      let rs2 :=
        if bool_decide (room_number from ∈ connections to) then rs1
        else alter (push_connection (room_number from)) (S i) rs1 in
      if type_is (type to) ty_locked then rs2
      else alter (set_is_accessible false) (S i) rs2
  | _, _ => rs
  end.

(** One turn of the branch loop, at index [i]. *)
Definition branch_step (rs : list Room) (i : nat) : Rand (list Room) :=
  let* u := Math_random rnd in
  if Js.Qltb u (2 # 10) then
    let* v := Math_random rnd in
    let len := Z.of_nat (length rs) in
    let target :=
      Z.of_nat i + 2
      + Js.Math_floor (v * inject_Z (Z.min 2 (len - Z.of_nat i - 2))) in
    if target <? len then
      match rs !! i, room_at rs target with
      | Some ri, Some rt =>
          let rs1 := alter (push_connection (room_number rt)) i rs in
          ret (alter (push_connection (room_number ri)) (Z.to_nat target) rs1)
      | _, _ => ret rs
      end
    else ret rs
  else ret rs.

Definition generateConnections (rs : list Room) : Rand (list Room) :=
  (* Primary linear path *)
  let rs1 := foldl link_step rs (seq 0 (length rs - 1)) in
  (* First room always accessible *)
  let rs2 := alter (set_is_accessible true) 0%nat rs1 in
  (* Optional branches: i = 1 .. length - 3 *)
  foldM branch_step (seq 1 (length rs2 - 3)) rs2.

(** The loop over the middle rooms, [i = 2 .. roomCount - 1]. *)
Fixpoint middleRooms (count : nat) (i roomCount : Z) (dungeon : Dungeon)
  (floorNumber : Z) (enemyRules : list EnemyRule) : Rand (list Room) :=
  match count with
  | O => ret []
  | S n =>
      let* picked := pickRoomType floorNumber i roomCount in
      let ty :=
        if (i =? 2) && type_is picked ty_locked then Some ty_standard
        else picked in
      let* room :=
        createRoom (mkRoomArgs i ty (dc_range dungeon) floorNumber enemyRules
                      false dungeon false false) in
      let* more := middleRooms n (i + 1) roomCount dungeon floorNumber enemyRules in
      ret (room :: more)
  end.

Definition generateFloor (dungeon : Dungeon) (floorNumber : Z)
  (isFinalFloor : bool) (enemyRules : list EnemyRule) : Rand FloorMap :=
  let dcRange := dc_range dungeon in
  let baseRoomCount := 4 + floorNumber / 2 in
  let* r := Dice.roll rnd 3 in
  let roomCount := baseRoomCount + r - 1 in
  let* first :=
    createRoom (mkRoomArgs 1 (Some ty_standard) dcRange floorNumber enemyRules
                  true dungeon false false) in
  let* middle :=
    middleRooms (Z.to_nat (roomCount - 2)) 2 roomCount dungeon floorNumber
      enemyRules in
  let* final :=
    if isFinalFloor then
      createRoom (mkRoomArgs roomCount (Some ty_boss) dcRange floorNumber
                    enemyRules false dungeon true false)
    else
      createRoom (mkRoomArgs roomCount (Some ty_standard) dcRange floorNumber
                    enemyRules false dungeon false true) in
  let* connected := generateConnections (first :: middle ++ [final]) in
  ret (mkFloorMap connected).

End WithRandom.

(** [floorMap.rooms.find(r => r.room_number === roomNumber)], with the
    index of the room found. *)
Definition find_room (rs : list Room) (roomNumber : Z) : option (nat * Room) :=
  list_find (fun r => room_number r = roomNumber) rs.

Definition getCurrentRoom (floorMap : FloorMap) (roomNumber : Z) : option Room :=
  snd <$> find_room (rooms floorMap) roomNumber.

(** One turn of the loop of [clearRoom] over [room.connections]; the
    state is the room array and the list [newlyAccessible]. *)
Definition clear_step (st : list Room * list Z) (connectedNum : Z)
  : list Room * list Z :=
  match find_room (fst st) connectedNum with
  | Some (j, connected) =>
      if negb (is_accessible connected) && negb (type_is (type connected) ty_locked)
      then (alter (set_is_accessible true) j (fst st), snd st ++ [connectedNum])
      else st
  | None => st
  end.

Definition clearRoom (floorMap : FloorMap) (roomNumber : Z)
  : FloorMap * list Z :=
  match find_room (rooms floorMap) roomNumber with
  | None => (floorMap, [])
  | Some (i, room) =>
      let rs1 := alter (set_is_cleared true) i (rooms floorMap) in
      let st := foldl clear_step (rs1, []) (connections room) in
      (mkFloorMap (fst st), snd st)
  end.

Definition unlockRoom (floorMap : FloorMap) (roomNumber : Z) : FloorMap :=
  match find_room (rooms floorMap) roomNumber with
  | Some (i, room) =>
      mkFloorMap
        (alter (fun r => set_lock (pick_lock <$> lock r) (set_is_accessible true r))
           i (rooms floorMap))
  | None => floorMap
  end.

End FloorGenerator.

(** ** loot.js *)

Module Loot.

Inductive SourceType : Type :=
| src_enemy_kill | src_chest | src_room_drop | src_boss | src_dungeon_completion.

Inductive DropType : Type :=
| guaranteed | weighted | conditional | never.

(** The five condition types the schema admits; [cond_other] stands for
    any other text, which reaches the [default:] branch. *)
Inductive ConditionType : Type :=
| cond_none | cond_min_skill | cond_min_completions
| cond_has_item | cond_has_not_item | cond_other.

Global Instance SourceType_eq_dec : EqDecision SourceType.
Proof. solve_decision. Defined.

Global Instance DropType_eq_dec : EqDecision DropType.
Proof. solve_decision. Defined.

(** A row of [loot_rules] joined with [items]. *)
Record LootRule : Type := mkLootRule {
  source_type : SourceType;
  source_id : Z;
  item_id : Z;
  item_name : string;
  item_type : string;
  rarity : option string;
  base_value : option Z;
  drop_type : DropType;
  base_weight : Z;
  condition_type : ConditionType;
  condition_skill_name : option string;
  condition_skill_min : option Z;
  condition_min_completions : option Z;
  condition_requires_item_id : option Z;
  requires_perception : Z;
  perception_dc : option Z
}.

Record Context : Type := mkContext {
  playerSkills : option (gmap string Z);     (* skill name -> level *)
  dungeonCompletions : option Z;
  playerItemIds : option (list Z);
  perceptionLevel : option Z
}.

(** [context = {}] *)
Definition empty_context : Context := mkContext None None None None.

Record Drop : Type := mkDrop {
  d_item_id : Z;
  d_item_name : string;
  d_item_type : string;
  d_rarity : string;
  d_base_value : Z;
  quantity : Z;
  was_hidden : bool
}.

(** Truthiness of an integer column. *)
Definition truthy (z : Z) : bool := negb (z =? 0).

(** [queries.getLootRulesForSource]: the rows of the table for a source. *)
Definition getLootRulesForSource (table : list LootRule)
  (sourceType : SourceType) (sourceId : Z) : list LootRule :=
  filter (fun r => source_type r = sourceType /\ source_id r = sourceId) table.

Definition checkCondition (rule : LootRule) (context : Context) : bool :=
  match condition_type rule with
  | cond_none => true
  | cond_min_skill =>
      match playerSkills context, condition_skill_name rule with
      | Some sk, Some nm =>
          if String.eqb nm "" then false
          else
            match sk !! nm with
            | Some level => Js.or_opt (condition_skill_min rule) 0 <=? level
            | None => false
            end
      | _, _ => false
      end
  | cond_min_completions =>
      Js.or_opt (condition_min_completions rule) 0
        <=? Js.or_opt (dungeonCompletions context) 0
  | cond_has_item =>
      match playerItemIds context, condition_requires_item_id rule with
      | Some ids, Some i => bool_decide (i ∈ ids)
      | _, _ => false
      end
  | cond_has_not_item =>
      match playerItemIds context, condition_requires_item_id rule with
      | Some ids, Some i => negb (bool_decide (i ∈ ids))
      | _, _ => true
      end
  | cond_other => true
  end.

(** [context.perceptionLevel || 1] *)
Definition perception_level_of (context : Context) : Z :=
  Js.or_opt (perceptionLevel context) 1.

(** [rule.perception_dc || 10] *)
Definition perception_dc_of (rule : LootRule) : Z :=
  Js.or_opt (perception_dc rule) 10.

Definition checkPerception (rule : LootRule) (context : Context) : bool :=
  if negb (truthy (requires_perception rule)) then true
  else perception_dc_of rule - 5 <=? perception_level_of context.

Definition makeDrop (rule : LootRule) (wasHidden : Z) : Drop :=
  {| d_item_id := item_id rule;
     d_item_name := item_name rule;
     d_item_type := item_type rule;
     d_rarity :=
       match rarity rule with
       | Some r => if String.eqb r "" then "common" else r
       | None => "common"
       end;
     d_base_value := Js.or_opt (base_value rule) 0;
     quantity := 1;
     was_hidden := truthy wasHidden |}.

(** One turn of the loop over the guaranteed rules. *)
Definition guaranteed_step (context : Context) (drops : list Drop)
  (rule : LootRule) : list Drop :=
  if checkCondition rule context then
    if truthy (requires_perception rule) && negb (checkPerception rule context)
    then drops
    else drops ++ [makeDrop rule (requires_perception rule)]
  else drops.

(** The predicate that selects [eligibleWeighted]. *)
Definition eligible (context : Context) (r : LootRule) : bool :=
  if negb (checkCondition r context) then false
  else if truthy (requires_perception r) && negb (checkPerception r context)
  then false
  else true.

(** [drops.some(d => d.item_id === id)] *)
Definition has_item_id (drops : list Drop) (id : Z) : bool :=
  existsb (fun d => d_item_id d =? id) drops.

Definition loot_pool (rules : list LootRule) : list (Dice.PoolEntry LootRule) :=
  map (fun r => Dice.mkPoolEntry (inject_Z (base_weight r)) r) rules.

Definition rollCount_of (sourceType : SourceType) : nat :=
  match sourceType with
  | src_chest | src_boss => 2%nat
  | _ => 1%nat
  end.

Section WithRandom.

Variable rnd : nat -> Q.

(** One turn of the loop over the weighted draws. *)
Definition weighted_step (eligibleWeighted : list LootRule)
  (drops : list Drop) (i : nat) : Rand (list Drop) :=
  let* selected := Dice.weightedRandom rnd (loot_pool eligibleWeighted) in
  match selected with
  | Some sel =>
      if has_item_id drops (item_id sel) then ret drops
      else ret (drops ++ [makeDrop sel (requires_perception sel)])
  | None => ret drops
  end.

Definition resolveLoot (table : list LootRule) (sourceType : SourceType)
  (sourceId : Z) (context : Context) : Rand (list Drop) :=
  let rules := getLootRulesForSource table sourceType sourceId in
  match rules with
  | [] => ret []
  | _ :: _ =>
      let guaranteedRules := filter (fun r => drop_type r = guaranteed) rules in
      let weightedRules := filter (fun r => drop_type r = weighted) rules in
      let drops := foldl (guaranteed_step context) [] guaranteedRules in
      let eligibleWeighted :=
        filter (fun r => eligible context r = true) weightedRules in
      match eligibleWeighted with
      | [] => ret drops
      | _ :: _ =>
          foldM (weighted_step eligibleWeighted)
            (seq 0 (rollCount_of sourceType)) drops
      end
  end.

Definition rollGoldDrop (min max : Z) : Rand Z :=
  if max <=? min then ret min
  else
    let* u := Math_random rnd in
    ret (min + Js.Math_floor (u * inject_Z (max - min + 1))).

End WithRandom.

End Loot.

(** ** combat.js *)

Module Combat.

Import FloorGenerator.

(** The room state of a run.  The enemies are the objects that
    [damageEnemy] receives: a target is given by its index here. *)
Record RoomState : Type := mkRoomState {
  is_combat_active : bool;
  round_number : Z;
  rs_enemies : list Enemy
}.

Record DamageEnemyResult : Type := mkDamageEnemyResult {
  damageDealt : Z;
  rawDamage : Q;
  resistanceApplied : bool;
  resistanceMultiplier : Q;
  armorReduced : Z;
  enemyDied : bool;
  loot : list Loot.Drop;
  goldDrop : Z;
  xpReward : Z
}.

Definition set_hp_current (hp : Z) (e : Enemy) : Enemy :=
  mkEnemy (e_enemy_id e) (instance_tag e) (name e) hp (hp_max e) (damage e)
    (armor e) (resistances e) (is_boss e) (is_dead e) (xp_reward e)
    (gold_reward_min e) (gold_reward_max e) (awareness e) (skip_next_action e).

Definition set_is_dead (b : bool) (e : Enemy) : Enemy :=
  mkEnemy (e_enemy_id e) (instance_tag e) (name e) (hp_current e) (hp_max e)
    (damage e) (armor e) (resistances e) (is_boss e) b (xp_reward e)
    (gold_reward_min e) (gold_reward_max e) (awareness e) (skip_next_action e).

Definition set_awareness (a : string) (e : Enemy) : Enemy :=
  mkEnemy (e_enemy_id e) (instance_tag e) (name e) (hp_current e) (hp_max e)
    (damage e) (armor e) (resistances e) (is_boss e) (is_dead e) (xp_reward e)
    (gold_reward_min e) (gold_reward_max e) a (skip_next_action e).

Definition set_enemies (es : list Enemy) (s : RoomState) : RoomState :=
  mkRoomState (is_combat_active s) (round_number s) es.

Definition set_is_combat_active (b : bool) (s : RoomState) : RoomState :=
  mkRoomState b (round_number s) (rs_enemies s).

(** [roomState.enemies.every(e => e.is_dead)] *)
Definition all_dead (s : RoomState) : bool := forallb is_dead (rs_enemies s).

Section WithRandom.

Variable rnd : nat -> Q.

(** [damageEnemy(enemy, damage, damageType, player, roomState)], where
    [enemy] is [roomState.enemies[target]].  The result is [None] when
    there is no such enemy (the JavaScript would fail on [undefined]).
    [table] is the content of [loot_rules]. *)
Definition damageEnemy (table : list Loot.LootRule) (target : nat)
  (damage : Q) (damageType : string) (roomState : RoomState)
  : Rand (option (RoomState * DamageEnemyResult)) :=
  match rs_enemies roomState !! target with
  | None => ret None
  | Some enemy =>
      (* Apply resistance *)
      let resistance := default 1%Q (resistances enemy !! damageType) in
      let afterResistance := Js.Math_round (damage * resistance) in
      (* Apply armor *)
      let afterArmor := Z.max 1 (afterResistance - armor enemy) in
      let hp := hp_current enemy - afterArmor in
      let st1 :=
        set_enemies (alter (set_hp_current hp) target (rs_enemies roomState))
          roomState in
      let result :=
        mkDamageEnemyResult afterArmor damage
          (negb (Qeq_bool resistance 1)) resistance
          (Z.max 0 (afterResistance - afterArmor)) false [] 0 0 in
      if hp <=? 0 then
        let st2 :=
          set_enemies
            (alter (fun e => set_is_dead true (set_hp_current 0 e)) target
               (rs_enemies st1)) st1 in
        (* Resolve loot *)
        let sourceType := if is_boss enemy then Loot.src_boss else Loot.src_enemy_kill in
        let* loot :=
          Loot.resolveLoot rnd table sourceType (e_enemy_id enemy)
            Loot.empty_context in
        (* Gold drop *)
        let* gold :=
          Loot.rollGoldDrop rnd (gold_reward_min enemy) (gold_reward_max enemy) in
        (* Check if all enemies dead -> combat ends *)
        let allDead := all_dead st2 in
        let st3 := if allDead then set_is_combat_active false st2 else st2 in
        ret (Some (st3,
                   mkDamageEnemyResult afterArmor damage
                     (negb (Qeq_bool resistance 1)) resistance
                     (Z.max 0 (afterResistance - afterArmor)) true loot gold
                     (xp_reward enemy)))
      else ret (Some (st1, result))
  end.

End WithRandom.

End Combat.

(** ** action-processor.js and the queries it uses *)

Module ActionProcessor.

Import FloorGenerator Combat.

(** A row of [player_inventory] joined with [items] (the columns the
    handlers read). *)
Record InvRow : Type := mkInvRow {
  row_id : Z;
  inv_player_id : Z;
  inv_item_id : Z;
  inv_quantity : Z;
  inv_item_name : string
}.

(** A row of [player_skills]. *)
Record SkillRow : Type := mkSkillRow {
  sk_player_id : Z;
  sk_skill_name : string;
  sk_level : Z;
  sk_xp : Z;
  sk_true_level : Z
}.

Record RunStats : Type := mkRunStats {
  torch_lit : bool;
  fungus_lit : bool
}.

Record Player : Type := mkPlayer { player_id : Z }.

(** An entry returned by [distributeXp]: [xe_levels] holds [old_level]
    and [new_level] of a level-up entry, and is [None] for the entry
    with [leveled_up: false]. *)
Record XpEntry : Type := mkXpEntry {
  xe_skill : string;
  xe_xp_gained : Z;
  xe_levels : option (Z * Z)
}.

(** The result object of a turn: the fields that [processSkillCheck] and
    [processChestLoot] write. *)
Record ActionResult : Type := mkActionResult {
  checks : list (string * Dice.DiceResult);
  diceResults : list Dice.DiceResult;
  lootDrops : list Loot.Drop;
  goldGained : Z;
  xpGained : gmap string Z;
  levelUps : list XpEntry;
  hpChange : Z;
  updatedPlayerHp : Z;
  noLockpick : bool;
  lockpickConsumed : bool;
  noChest : bool;
  chestLocked : bool;
  chestAlreadyLooted : bool;
  chestLooted : bool
}.

Definition with_checks (v : list (string * Dice.DiceResult)) (r : ActionResult)
  : ActionResult :=
  mkActionResult v (diceResults r) (lootDrops r) (goldGained r) (xpGained r)
    (levelUps r) (hpChange r) (updatedPlayerHp r) (noLockpick r)
    (lockpickConsumed r) (noChest r) (chestLocked r) (chestAlreadyLooted r)
    (chestLooted r).

Definition with_diceResults (v : list Dice.DiceResult) (r : ActionResult)
  : ActionResult :=
  mkActionResult (checks r) v (lootDrops r) (goldGained r) (xpGained r)
    (levelUps r) (hpChange r) (updatedPlayerHp r) (noLockpick r)
    (lockpickConsumed r) (noChest r) (chestLocked r) (chestAlreadyLooted r)
    (chestLooted r).

Definition with_lootDrops (v : list Loot.Drop) (r : ActionResult)
  : ActionResult :=
  mkActionResult (checks r) (diceResults r) v (goldGained r) (xpGained r)
    (levelUps r) (hpChange r) (updatedPlayerHp r) (noLockpick r)
    (lockpickConsumed r) (noChest r) (chestLocked r) (chestAlreadyLooted r)
    (chestLooted r).

Definition with_goldGained (v : Z) (r : ActionResult) : ActionResult :=
  mkActionResult (checks r) (diceResults r) (lootDrops r) v (xpGained r)
    (levelUps r) (hpChange r) (updatedPlayerHp r) (noLockpick r)
    (lockpickConsumed r) (noChest r) (chestLocked r) (chestAlreadyLooted r)
    (chestLooted r).

Definition with_xpGained (v : gmap string Z) (r : ActionResult)
  : ActionResult :=
  mkActionResult (checks r) (diceResults r) (lootDrops r) (goldGained r) v
    (levelUps r) (hpChange r) (updatedPlayerHp r) (noLockpick r)
    (lockpickConsumed r) (noChest r) (chestLocked r) (chestAlreadyLooted r)
    (chestLooted r).

Definition with_levelUps (v : list XpEntry) (r : ActionResult) : ActionResult :=
  mkActionResult (checks r) (diceResults r) (lootDrops r) (goldGained r)
    (xpGained r) v (hpChange r) (updatedPlayerHp r) (noLockpick r)
    (lockpickConsumed r) (noChest r) (chestLocked r) (chestAlreadyLooted r)
    (chestLooted r).

Definition with_hpChange (v : Z) (r : ActionResult) : ActionResult :=
  mkActionResult (checks r) (diceResults r) (lootDrops r) (goldGained r)
    (xpGained r) (levelUps r) v (updatedPlayerHp r) (noLockpick r)
    (lockpickConsumed r) (noChest r) (chestLocked r) (chestAlreadyLooted r)
    (chestLooted r).

Definition with_updatedPlayerHp (v : Z) (r : ActionResult) : ActionResult :=
  mkActionResult (checks r) (diceResults r) (lootDrops r) (goldGained r)
    (xpGained r) (levelUps r) (hpChange r) v (noLockpick r) (lockpickConsumed
    r) (noChest r) (chestLocked r) (chestAlreadyLooted r) (chestLooted r).

Definition with_noLockpick (v : bool) (r : ActionResult) : ActionResult :=
  mkActionResult (checks r) (diceResults r) (lootDrops r) (goldGained r)
    (xpGained r) (levelUps r) (hpChange r) (updatedPlayerHp r) v
    (lockpickConsumed r) (noChest r) (chestLocked r) (chestAlreadyLooted r)
    (chestLooted r).

Definition with_lockpickConsumed (v : bool) (r : ActionResult) : ActionResult :=
  mkActionResult (checks r) (diceResults r) (lootDrops r) (goldGained r)
    (xpGained r) (levelUps r) (hpChange r) (updatedPlayerHp r) (noLockpick r)
    v (noChest r) (chestLocked r) (chestAlreadyLooted r) (chestLooted r).

Definition with_noChest (v : bool) (r : ActionResult) : ActionResult :=
  mkActionResult (checks r) (diceResults r) (lootDrops r) (goldGained r)
    (xpGained r) (levelUps r) (hpChange r) (updatedPlayerHp r) (noLockpick r)
    (lockpickConsumed r) v (chestLocked r) (chestAlreadyLooted r) (chestLooted
    r).

Definition with_chestLocked (v : bool) (r : ActionResult) : ActionResult :=
  mkActionResult (checks r) (diceResults r) (lootDrops r) (goldGained r)
    (xpGained r) (levelUps r) (hpChange r) (updatedPlayerHp r) (noLockpick r)
    (lockpickConsumed r) (noChest r) v (chestAlreadyLooted r) (chestLooted r).

Definition with_chestAlreadyLooted (v : bool) (r : ActionResult)
  : ActionResult :=
  mkActionResult (checks r) (diceResults r) (lootDrops r) (goldGained r)
    (xpGained r) (levelUps r) (hpChange r) (updatedPlayerHp r) (noLockpick r)
    (lockpickConsumed r) (noChest r) (chestLocked r) v (chestLooted r).

Definition with_chestLooted (v : bool) (r : ActionResult) : ActionResult :=
  mkActionResult (checks r) (diceResults r) (lootDrops r) (goldGained r)
    (xpGained r) (levelUps r) (hpChange r) (updatedPlayerHp r) (noLockpick r)
    (lockpickConsumed r) (noChest r) (chestLocked r) (chestAlreadyLooted r) v.

(** What a handler reads and writes: the floor map and room state of the
    run (objects mutated in place), the two tables it updates, and the
    result object under construction. *)
Record World : Type := mkWorld {
  floorMap : FloorMap;
  room_state : RoomState;
  player_inventory : list InvRow;
  player_skills : list SkillRow;
  result : ActionResult
}.

Definition with_floorMap (v : FloorMap) (w : World) : World :=
  mkWorld v (room_state w) (player_inventory w) (player_skills w) (result w).

Definition with_room_state (v : RoomState) (w : World) : World :=
  mkWorld (floorMap w) v (player_inventory w) (player_skills w) (result w).

Definition with_player_inventory (v : list InvRow) (w : World) : World :=
  mkWorld (floorMap w) (room_state w) v (player_skills w) (result w).

Definition with_player_skills (v : list SkillRow) (w : World) : World :=
  mkWorld (floorMap w) (room_state w) (player_inventory w) v (result w).

Definition with_result (v : ActionResult) (w : World) : World :=
  mkWorld (floorMap w) (room_state w) (player_inventory w) (player_skills w) v.

Inductive LockpickTarget : Type :=
| target_current_room
| target_chest
| target_adjacent_room (roomNumber : Z).

(** [queries.getInventory(playerId)]; the rows come in the order of the
    table. *)
Definition getInventory (table : list InvRow) (playerId : Z) : list InvRow :=
  filter (fun r => inv_player_id r = playerId) table.

Definition set_quantity (q : Z) (r : InvRow) : InvRow :=
  mkInvRow (row_id r) (inv_player_id r) (inv_item_id r) q (inv_item_name r).

(** [queries.removeItem(inventoryRowId, quantity)] *)
Definition removeItem (table : list InvRow) (inventoryRowId quantity : Z)
  : list InvRow :=
  match list_find (fun r => row_id r = inventoryRowId) table with
  | None => table
  | Some (_, row) =>
      if inv_quantity row <=? quantity then
        filter (fun r => row_id r <> inventoryRowId) table
      else
        map (fun r =>
               if bool_decide (row_id r = inventoryRowId)
               then set_quantity (inv_quantity r - quantity) r else r)
            table
  end.

(** [inventory.find(i => i.item_name === "Thieves' Pick" && i.quantity > 0)] *)
Definition find_pick (inventory : list InvRow) : option InvRow :=
  snd <$> list_find
    (fun i => inv_item_name i = "Thieves' Pick" /\ 0 < inv_quantity i) inventory.

Definition getPerceptionPerkBonuses (runStats : RunStats) : list Dice.PerkBonus :=
  (if torch_lit runStats then [Dice.mkPerkBonus "Torch" (Some 3)] else [])
  ++ (if fungus_lit runStats then [Dice.mkPerkBonus "Glowing Fungus" (Some 1)] else []).

(** The loop of [processSkillCheck] over [currentRoom.connections] that
    looks for an adjacent locked room: its lock DC and its number. *)
Fixpoint find_adjacent_lock (floorMap : FloorMap) (conns : list Z)
  : option (Z * Z) :=
  match conns with
  | [] => None
  | connNum :: rest =>
      match getCurrentRoom floorMap connNum with
      | Some connRoom =>
          if type_is (type connRoom) ty_locked && negb (is_accessible connRoom)
          then
            match lock connRoom with
            | Some l => Some (lock_dc l, connNum)
            | None => find_adjacent_lock floorMap rest
            end
          else find_adjacent_lock floorMap rest
      | None => find_adjacent_lock floorMap rest
      end
  end.

(** The experience multiplier of [distributeXp] and the amount granted,
    [Math.max(1, Math.round(baseXp * xpMultiplier))]. *)
Definition xp_amount (baseXp : Z) (outcome : Dice.Outcome) : Z :=
  let xpMultiplier :=
    match outcome with
    | Dice.critical_success => 2%Q
    | Dice.failure => (1 # 2)%Q
    | Dice.critical_failure => (1 # 4)%Q
    | _ => 1%Q
    end in
  Z.max 1 (Js.Math_round (inject_Z baseXp * xpMultiplier)).

Definition is_skill_row (playerId : Z) (skillName : string) (r : SkillRow) : bool :=
  bool_decide (sk_player_id r = playerId /\ sk_skill_name r = skillName).

(** [distributeXp(playerId, skillName, baseXp, outcome)] on the table
    [player_skills].  [Math.floor(Math.sqrt(newXp / 10))] is the integer
    square root of the integer quotient. *)
Definition distributeXp (table : list SkillRow) (playerId : Z)
  (skillName : string) (baseXp : Z) (outcome : Dice.Outcome)
  : list SkillRow * list XpEntry :=
  let xp := xp_amount baseXp outcome in
  match List.find (is_skill_row playerId skillName) table with
  | None => (table, [])
  | Some skill =>
      let oldLevel := sk_level skill in
      let table1 :=
        map (fun r =>
               if is_skill_row playerId skillName r
               then mkSkillRow (sk_player_id r) (sk_skill_name r) (sk_level r)
                      (sk_xp r + xp) (sk_true_level r)
               else r) table in
      let newXp := sk_xp skill + xp in
      let newLevel := Z.min 100 (Z.sqrt (newXp / 10) + 1) in
      if oldLevel <? newLevel then
        (map (fun r =>
                if is_skill_row playerId skillName r
                then mkSkillRow (sk_player_id r) (sk_skill_name r) newLevel
                       (sk_xp r) (sk_true_level r + (newLevel - oldLevel))
                else r) table1,
         [mkXpEntry skillName xp (Some (oldLevel, newLevel))])
      else (table1, [mkXpEntry skillName xp None])
  end.

(** The loop that copies the entries of [distributeXp] into the result. *)
Definition record_xp (r : ActionResult) (xr : XpEntry) : ActionResult :=
  let r1 :=
    with_xpGained
      (<[xe_skill xr :=
           Js.or_opt (xpGained r !! xe_skill xr) 0 + Js.or_num (xe_xp_gained xr) 0]>
         (xpGained r)) r in
  match xe_levels xr with
  | Some (_, newLevel) =>
      if newLevel =? 0 then r1 else with_levelUps (levelUps r1 ++ [xr]) r1
  | None => r1
  end.

Definition award_xp (playerId : Z) (skillName : string) (baseXp : Z)
  (outcome : Dice.Outcome) (w : World) : World :=
  let res := distributeXp (player_skills w) playerId skillName baseXp outcome in
  with_result (foldl record_xp (result w) (snd res))
    (with_player_skills (fst res) w).

(** Writes to [currentRoom], the room object at index [cur] of the map. *)
Definition update_room (cur : nat) (f : Room -> Room) (w : World) : World :=
  with_floorMap (mkFloorMap (alter f cur (rooms (floorMap w)))) w.

Section WithRandom.

Variable rnd : nat -> Q.

(** The content of [loot_rules]. *)
Variable loot_table : list Loot.LootRule.

(** [processChestLoot(result, currentRoom, dungeon, player)] *)
Definition processChestLoot (cur : nat) (dungeon : Dungeon) (w : World)
  : Rand World :=
  match rooms (floorMap w) !! cur ≫= chest with
  | None => ret (with_result (with_noChest true (result w)) w)
  | Some ch =>
      if is_locked ch then
        ret (with_result (with_chestLocked true (result w)) w)
      else if is_looted ch then
        ret (with_result (with_chestAlreadyLooted true (result w)) w)
      else
        (* Open and loot the chest *)
        let w1 :=
          update_room cur
            (set_chest (Some (mkChest true (is_locked ch) (chest_lock_dc ch) true)))
            w in
        let w2 := with_result (with_chestLooted true (result w1)) w1 in
        let* loot :=
          Loot.resolveLoot rnd loot_table Loot.src_chest (dungeon_id dungeon)
            (Loot.mkContext None None None (Some 1)) in
        let* chestGold := Loot.rollGoldDrop rnd 15 40 in
        let r3 := with_lootDrops (lootDrops (result w2) ++ loot) (result w2) in
        ret (with_result (with_goldGained (goldGained r3 + chestGold) r3) w2)
  end.

(** The first part of [processSkillCheck]: the DC and what is being
    picked. *)
Definition determine_dc (skillName : string) (currentRoom : Room)
  (floorMap : FloorMap) (dungeon : Dungeon)
  : Rand (Z * option LockpickTarget) :=
  let lockpicking := String.eqb skillName "lockpicking" in
  let chestLocked :=
    match chest currentRoom with
    | Some ch => is_locked ch
    | None => false
    end in
  let trapLive :=
    match trap currentRoom with
    | Some t => negb (is_disarmed t)
    | None => false
    end in
  if lockpicking && type_is (type currentRoom) ty_locked
     && bool_decide (is_Some (lock currentRoom)) then
    ret (default 0 (lock_dc <$> lock currentRoom), Some target_current_room)
  else if lockpicking && chestLocked then
    ret (default 0 (chest currentRoom ≫= chest_lock_dc), Some target_chest)
  else if lockpicking then
    match find_adjacent_lock floorMap (connections currentRoom) with
    | Some (d, connNum) =>
        if d =? 0 then
          let* dc := Dice.randomDC rnd (dc_range dungeon) in
          ret (dc, Some (target_adjacent_room connNum))
        else ret (d, Some (target_adjacent_room connNum))
    | None =>
        let* dc := Dice.randomDC rnd (dc_range dungeon) in
        ret (dc, None)
    end
  else if trapLive && String.eqb skillName "perception" then
    ret (default 0 (trap_dc <$> trap currentRoom), None)
  else
    let* dc := Dice.randomDC rnd (dc_range dungeon) in
    ret (dc, None).

(** The effects of a passed check. *)
Definition apply_passed (skillName : string)
  (lockpickTarget : option LockpickTarget) (cur : nat) (dungeon : Dungeon)
  (w : World) : Rand World :=
  let currentRoom := rooms (floorMap w) !! cur in
  let* w1 :=
    if String.eqb skillName "lockpicking" then
      match lockpickTarget, currentRoom with
      | Some target_current_room, Some room =>
          if bool_decide (is_Some (lock room))
          then ret (with_floorMap (unlockRoom (floorMap w) (room_number room)) w)
          else ret w
      | Some target_chest, Some room =>
          match chest room with
          | Some ch =>
              if is_locked ch then
                processChestLoot cur dungeon
                  (update_room cur
                     (set_chest
                        (Some (mkChest (is_opened ch) false (chest_lock_dc ch)
                                 (is_looted ch)))) w)
              else ret w
          | None => ret w
          end
      | Some (target_adjacent_room n), _ =>
          ret (with_floorMap (unlockRoom (floorMap w) n) w)
      | _, _ => ret w
      end
    else ret w in
  if String.eqb skillName "stealth" then
    ret (with_room_state
           (set_enemies
              (map (fun e => if is_dead e then e else set_awareness "idle" e)
                 (rs_enemies (room_state w1)))
              (room_state w1)) w1)
  else ret w1.

(** The trap of the current room, after the check. *)
Definition trap_handling (skillName : string) (check : Dice.DiceResult)
  (cur : nat) (w : World) : World :=
  match rooms (floorMap w) !! cur ≫= trap with
  | Some t =>
      if negb (is_disarmed t) then
        if String.eqb skillName "perception" && Dice.passed check then
          update_room cur
            (set_trap
               (Some (mkTrap (trap_name t) (trap_damage_type t) (trap_damage t)
                        (trap_effect t) (trap_check t) (trap_dc t)
                        (is_triggered t) true))) w
        else if negb (Dice.passed check) then
          let w1 :=
            update_room cur
              (set_trap
                 (Some (mkTrap (trap_name t) (trap_damage_type t) (trap_damage t)
                          (trap_effect t) (trap_check t) (trap_dc t)
                          true (is_disarmed t)))) w in
          let r := result w1 in
          with_result
            (with_updatedPlayerHp (updatedPlayerHp r - trap_damage t)
               (with_hpChange (hpChange r - trap_damage t) r)) w1
        else w
      else w
  | None => w
  end.

(** [processSkillCheck]; [cur] is the index in [floorMap.rooms] of the
    object [currentRoom] that [processAction] looked up.  The handler is
    only reached with a current room: [None] stands for the error that
    [processAction] throws otherwise. *)
Definition processSkillCheck (intent_skill : option string)
  (run_stats : RunStats) (player : Player) (baseStats : option Dice.BaseStats)
  (skills : gmap string Z) (cur : nat) (dungeon : Dungeon) (w : World)
  : Rand (option World) :=
  match rooms (floorMap w) !! cur with
  | None => ret None
  | Some currentRoom =>
      let skillName :=
        match intent_skill with
        | Some s => if String.eqb s "" then "perception" else s
        | None => "perception"
        end in
      (* Determine DC from context *)
      let* dt := determine_dc skillName currentRoom (floorMap w) dungeon in
      let dc := fst dt in
      let lockpickTarget := snd dt in
      (* Lockpick requires a Thieves' Pick *)
      let gate :=
        if String.eqb skillName "lockpicking"
           && bool_decide (is_Some lockpickTarget) then
          let inventory := getInventory (player_inventory w) (player_id player) in
          match find_pick inventory with
          | None => inl (with_result (with_noLockpick true (result w)) w)
          | Some pick =>
              (* Consume the pick *)
              let w1 :=
                with_player_inventory
                  (removeItem (player_inventory w) (row_id pick) 1) w in
              inr (with_result (with_lockpickConsumed true (result w1)) w1)
          end
        else inr w in
      match gate with
      | inl stopped => ret (Some stopped)
      | inr w1 =>
          let* check :=
            Dice.skillCheck rnd
              (Dice.mkSkillCheckParams skillName dc baseStats skills 20
                 (if String.eqb skillName "perception"
                  then getPerceptionPerkBonuses run_stats else [])
                 false false "room_feature" None) in
          let r1 := result w1 in
          let w2 :=
            with_result
              (with_diceResults (diceResults r1 ++ [check])
                 (with_checks (checks r1 ++ [(skillName, check)]) r1)) w1 in
          (* Apply effects based on skill *)
          let* w3 :=
            if Dice.passed check
            then apply_passed skillName lockpickTarget cur dungeon w2
            else ret w2 in
          (* Trap handling *)
          let w4 := trap_handling skillName check cur w3 in
          (* XP *)
          ret (Some (award_xp (player_id player) skillName 10
                       (Dice.outcome check) w4))
      end
  end.

End WithRandom.

(** *** The per-turn lock of [processAction] *)

Inductive RunStatus : Type :=
| active | processing | completed | dead | abandoned.

Global Instance RunStatus_eq_dec : EqDecision RunStatus.
Proof. solve_decision. Defined.

(** An exception: the message of the [Error] thrown. *)
Definition Error : Type := string.

Section ProcessAction.

(** The columns of [active_runs] other than the ones below (room state,
    narration context, statistics, position), the other tables of the
    database, and the [ActionResult] that a turn returns. *)
Variables (RunData Store Result : Type).

Record RunRow : Type := mkRunRow {
  run_id : Z;
  run_player_id : Z;
  status : RunStatus;
  pending_action_text : option string;
  run_data : RunData
}.

Record Db : Type := mkDb {
  active_runs : list RunRow;
  store : Store
}.

(** [queries.getActiveRun(playerId)]: the first run of the player whose
    status is [active] or [processing]. *)
Definition getActiveRun (db : Db) (playerId : Z) : option RunRow :=
  List.find
    (fun r => bool_decide (run_player_id r = playerId
                           /\ (status r = active \/ status r = processing)))
    (active_runs db).

(** [queries.updateRunState(runId, { status, pending_action_text })]:
    [UPDATE active_runs SET ... WHERE id = runId]. *)
Definition updateRunState (db : Db) (runId : Z) (st : RunStatus)
  (pending : option string) : Db :=
  mkDb
    (map (fun r =>
            if bool_decide (run_id r = runId)
            then mkRunRow (run_id r) (run_player_id r) st pending (run_data r)
            else r)
       (active_runs db))
    (store db).

(** The body of the [try] block of [processAction]: everything from the
    loading of the dungeon to the logging of the action.  It reads and
    writes the database, and either returns the result of the turn or
    throws. *)
Variable turn : RunRow -> string -> Db -> (Error + Result) * Db.

Definition processAction (playerId : Z) (actionText : string) (db : Db)
  : (Error + Result) * Db :=
  match getActiveRun db playerId with
  | None => (inl "No active run.", db)
  | Some run =>
      if bool_decide (status run <> active) then (inl "Run is not active.", db)
      else
        (* Mark as processing to prevent double-actions *)
        let db1 := updateRunState db (run_id run) processing (Some actionText) in
        match turn run actionText db1 with
        | (inr res, db2) => (inr res, db2)
        | (inl err, db2) =>
            (* Restore active status on error *)
            (inl err, updateRunState db2 (run_id run) active None)
        end
  end.

End ProcessAction.

End ActionProcessor.

(** ** combat.js: the equipment helpers *)

Module Equipment.

(** The parsed [stat_modifiers] of an item. *)
Record Mods : Type := mkMods {
  mod_armor : option Z;
  mod_damage_bonus : option Z;
  mod_resistance : gmap string Q
}.

(** An equipped item (the columns the helpers read).
    [eq_stat_modifiers] is [None] for [null] and for a text that does not
    parse: each helper treats the two alike. *)
Record EquippedItem : Type := mkEquippedItem {
  eq_item_type : string;
  eq_stat_modifiers : option Mods;
  eq_base_crit_range : option Z;
  eq_damage_type : option string
}.

(** [mods?.armor || 0] *)
Definition armor_of (item : EquippedItem) : Z :=
  match eq_stat_modifiers item with
  | Some mods => Js.or_opt (mod_armor mods) 0
  | None => 0
  end.

Definition calculatePlayerArmor (equippedItems : list EquippedItem) : Z :=
  fold_left (fun total item => total + armor_of item) equippedItems 0.

(** [mods?.resistance?.[damageType]], when truthy. *)
Definition resistance_of (damageType : string) (item : EquippedItem)
  : option Q :=
  match eq_stat_modifiers item with
  | Some mods =>
      match mod_resistance mods !! damageType with
      | Some v => if Qeq_bool v 0 then None else Some v
      | None => None
      end
  | None => None
  end.

Definition calculatePlayerResistance (equippedItems : list EquippedItem)
  (damageType : option string) : Q :=
  match damageType with
  | None => 1%Q
  | Some t =>
      if String.eqb t "" then 1%Q
      else
        fold_left
          (fun multiplier item =>
             match resistance_of t item with
             | Some v => (multiplier * v)%Q
             | None => multiplier
             end)
          equippedItems 1%Q
  end.

Definition is_weapon (item : EquippedItem) : bool :=
  String.eqb (eq_item_type item) "weapon".

(** The three weapon helpers return from inside their loop at the first
    item whose type is [weapon]. *)
Definition getWeaponDamageBonus (equippedItems : list EquippedItem) : Z :=
  match List.find is_weapon equippedItems with
  | Some item =>
      match eq_stat_modifiers item with
      | Some mods => Js.or_opt (mod_damage_bonus mods) 0
      | None => 0
      end
  | None => 0
  end.

Definition getWeaponCritRange (equippedItems : list EquippedItem) : Z :=
  match List.find is_weapon equippedItems with
  | Some item => Js.or_opt (eq_base_crit_range item) 20
  | None => 20
  end.

Definition getWeaponDamageType (equippedItems : list EquippedItem) : string :=
  match List.find is_weapon equippedItems with
  | Some item =>
      match eq_damage_type item with
      | Some t => if String.eqb t "" then "blunt" else t
      | None => "blunt"
      end
  | None => "blunt"
  end.

End Equipment.

(** ** action-processor.js: status effects, rest, flight and the context
    window *)

Module Turn.

Import FloorGenerator Combat ActionProcessor.

(** An entry of [run.run_stats.status_effects]. *)
Record StatusEffect : Type := mkStatusEffect {
  se_type : string;
  se_duration : Z;
  se_damage_per_tick : option Z;
  se_source : string
}.

Record PoisonTick : Type := mkPoisonTick {
  pt_damage : Z;
  pt_remaining : bool;
  pt_turnsLeft : Z
}.

(** What [tickStatusEffects] reads and writes: the effects of the run and
    four fields of the result object. *)
Record Ticking : Type := mkTicking {
  status_effects : list StatusEffect;
  tk_hpChange : Z;
  tk_updatedPlayerHp : Z;
  poisonTick : option PoisonTick;
  statusEffectsRemoved : list StatusEffect
}.

Definition is_poison (e : StatusEffect) : bool := String.eqb (se_type e) "poison".

(** [effect.duration--] *)
Definition decrement (e : StatusEffect) : StatusEffect :=
  mkStatusEffect (se_type e) (se_duration e - 1) (se_damage_per_tick e)
    (se_source e).

(** The sum [poisonDmg] of the loop over the effects. *)
Definition poison_damage (effects : list StatusEffect) : Z :=
  fold_left
    (fun poisonDmg effect =>
       if is_poison effect
       then poisonDmg + Js.or_opt (se_damage_per_tick effect) 2
       else poisonDmg)
    effects 0.

(** [tickStatusEffects(result, run, player)].  The loop decrements each
    effect in place and collects the expired ones; an effect object is in
    [expired] exactly when its duration has reached 0. *)
Definition tickStatusEffects (s : Ticking) : Ticking :=
  match status_effects s with
  | [] => s
  | _ :: _ =>
      let effects := status_effects s in
      let poisonDmg := poison_damage effects in
      let ticked := map decrement effects in
      let expired := filter (fun e => se_duration e <= 0) ticked in
      let remaining := filter (fun e => ~ se_duration e <= 0) ticked in
      let poisons := filter (fun e => is_poison e = true) remaining in
      let hit := 0 <? poisonDmg in
      mkTicking remaining
        (if hit then tk_hpChange s - poisonDmg else tk_hpChange s)
        (if hit then tk_updatedPlayerHp s - poisonDmg else tk_updatedPlayerHp s)
        (if hit
         then Some (mkPoisonTick poisonDmg
                      (existsb is_poison remaining)
                      (fold_left Z.max (map se_duration poisons) 0))
         else poisonTick s)
        (statusEffectsRemoved s ++ expired)
  end.

(** The poison of an enemy attack, as [processAction] records it: the
    poison of a source is not stacked, its duration is refreshed.
    [duration] is [effect.duration], when given. *)
Definition applyPoison (effects : list StatusEffect) (source : string)
  (duration : option Z) : list StatusEffect :=
  let fresh := Js.or_opt duration 5 in
  match list_find (fun e => is_poison e = true /\ se_source e = source) effects with
  | Some (i, _) =>
      alter (fun existing =>
               mkStatusEffect (se_type existing)
                 (Z.max (se_duration existing) fresh)
                 (se_damage_per_tick existing) (se_source existing))
        i effects
  | None => effects ++ [mkStatusEffect "poison" fresh (Some 2) source]
  end.

(** The columns of the player row that the handlers below read. *)
Record Vitals : Type := mkVitals {
  pl_hp_max : Z;
  pl_hp_current : Z
}.

(** [processRest(result, player, currentRoom)]; the second component is
    [result.restHealAmount] when [result.rested] is set. *)
Definition processRest (player : Vitals) (currentRoom : Room)
  (r : ActionResult) : ActionResult * option Z :=
  if negb (type_is (type currentRoom) ty_rest) then (r, None)
  else
    match rest currentRoom with
    | None => (r, None)
    | Some rs =>
        let healAmount :=
          Js.Math_round (inject_Z (pl_hp_max player) * heal_percent rs) in
        let r1 := with_hpChange (hpChange r + healAmount) r in
        (with_updatedPlayerHp
           (Z.min (pl_hp_max player) (pl_hp_current player + healAmount)) r1,
         Some healAmount)
    end.

(** The first block of [applyResults]: the value of [hp_current] of the
    player row after it, and the result object. *)
Definition apply_hp_change (player : Vitals) (r : ActionResult)
  : Z * ActionResult :=
  if hpChange r =? 0 then (pl_hp_current player, r)
  else
    let newHp :=
      Z.max 0 (Z.min (pl_hp_max player) (pl_hp_current player + hpChange r)) in
    (newHp, with_updatedPlayerHp newHp r).

(** One turn of the loop of [processFlee] over the enemies of the room. *)
Definition opportunity_step (oppMultiplier : Q) (r : ActionResult) (enemy : Enemy)
  : ActionResult :=
  if is_dead enemy then r
  else
    let oppAttack := Js.Math_round (inject_Z (damage enemy) * oppMultiplier) in
    with_updatedPlayerHp (updatedPlayerHp r - oppAttack)
      (with_hpChange (hpChange r - oppAttack) r).

Section WithRandom.

Variable rnd : nat -> Q.

(** [processFlee(result, run, player, baseStats, skills, currentRoom)];
    the second component is [result.fleeOutcome] when [result.fleeSuccess]
    is set. *)
Definition processFlee (baseStats : option Dice.BaseStats)
  (skills : gmap string Z) (w : World) : Rand (World * option Dice.Outcome) :=
  let* check :=
    Dice.skillCheck rnd
      (Dice.mkSkillCheckParams "stealth" 12 baseStats skills 20 [] false false
         "flee" None) in
  let r0 := result w in
  let w1 :=
    with_result
      (with_diceResults (diceResults r0 ++ [check])
         (with_checks (checks r0 ++ [("stealth", check)]) r0)) w in
  if Dice.passed check then
    (* End combat, player can move *)
    let w2 := with_room_state (set_is_combat_active false (room_state w1)) w1 in
    let oppMultiplier :=
      match Dice.outcome check with
      | Dice.critical_success => 0%Q
      | Dice.success => (1 # 4)%Q
      | _ => (1 # 2)%Q
      end in
    let w3 :=
      if Js.Qltb 0 oppMultiplier then
        with_result
          (foldl (opportunity_step oppMultiplier) (result w2)
             (rs_enemies (room_state w2))) w2
      else w2 in
    ret (w3, Some (Dice.outcome check))
  else ret (w1, None).

End WithRandom.

(** [config.game.aiContextWindow] *)
Definition aiContextWindow : nat := 12.

(** [while (aiContext.length > window) aiContext.shift()] *)
Fixpoint shift_to {A : Type} (window : nat) (aiContext : list A) : list A :=
  match aiContext with
  | [] => []
  | _ :: rest =>
      if (window <? length aiContext)%nat then shift_to window rest
      else aiContext
  end.

(** The update of the context window in [processAction]: push the entry
    of the turn, then keep the rolling window. *)
Definition push_context {A : Type} (aiContext : list A) (entry : A) : list A :=
  shift_to aiContextWindow (aiContext ++ [entry]).

End Turn.

(** * Specification vocabulary *)

Module DiceSpec.

(** The sum of the perk effects, a missing effect counting for nothing. *)
Fixpoint perk_sum (l : list Dice.PerkBonus) : Z :=
  match l with
  | [] => 0
  | p :: rest => default 0 (Dice.effect p) + perk_sum rest
  end.

End DiceSpec.

Module FloorSpec.

Import FloorGenerator.

(** An operation applied to a floor map after its generation. *)
Inductive Op : Type :=
| op_clearRoom (roomNumber : Z)
| op_unlockRoom (roomNumber : Z).

Definition apply_op (fm : FloorMap) (op : Op) : FloorMap :=
  match op with
  | op_clearRoom n => fst (clearRoom fm n)
  | op_unlockRoom n => unlockRoom fm n
  end.

Definition run_ops (fm : FloorMap) (ops : list Op) : FloorMap :=
  foldl apply_op fm ops.

(** [b] is listed in the connections of a room numbered [a]. *)
Definition edge (fm : FloorMap) (a b : Z) : Prop :=
  exists r, r ∈ rooms fm /\ room_number r = a /\ b ∈ connections r.

(** A path of connections. *)
Inductive path (fm : FloorMap) : Z -> Z -> Prop :=
| path_here (a : Z) : path fm a a
| path_step (a b c : Z) : path fm a b -> edge fm b c -> path fm a c.

Definition connected (fm : FloorMap) : Prop :=
  forall r, r ∈ rooms fm -> path fm 1 (room_number r).

(** The number of rooms of a floor map. *)
Definition room_count (fm : FloorMap) : Z := Z.of_nat (length (rooms fm)).

(** No two rooms of the map carry the same number. *)
Definition distinct_numbers (rs : list Room) : Prop :=
  forall i j r s,
    rs !! i = Some r -> rs !! j = Some s ->
    room_number r = room_number s -> i = j.

(** A room that clearing opens: listed in the connections [conns] of the
    cleared room, not of type [locked], and not accessible yet. *)
Definition opens (conns : list Z) (r : Room) : bool :=
  bool_decide (room_number r ∈ conns)
  && negb (is_accessible r)
  && negb (type_is (type r) ty_locked).

(** The room [r] as clearing room [n], whose connections are [conns],
    leaves it. *)
Definition after_clear (n : Z) (conns : list Z) (r : Room) : Room :=
  let r1 := if bool_decide (room_number r = n) then set_is_cleared true r else r in
  if opens conns r then set_is_accessible true r1 else r1.

(** The room [r] as unlocking room [n] leaves it. *)
Definition after_unlock (n : Z) (r : Room) : Room :=
  if bool_decide (room_number r = n)
  then set_lock (pick_lock <$> lock r) (set_is_accessible true r)
  else r.

(** What the generation of connections keeps of a room: its number and
    type; connections are only added; accessibility changes as [A]
    allows. *)
Definition keeps (A : bool -> bool -> Prop) (r r' : Room) : Prop :=
  room_number r' = room_number r
  /\ type r' = type r
  /\ A (is_accessible r) (is_accessible r')
  /\ (forall x, x ∈ connections r -> x ∈ connections r').

(** Accessibility is not granted. *)
Definition not_opened (a a' : bool) : Prop := a' = true -> a = true.

Definition grows : Room -> Room -> Prop := keeps not_opened.
Definition extends : Room -> Room -> Prop := keeps eq.

(** The number of rooms decided by [generateFloor]. *)
Definition roomCount_of (rnd : nat -> Q) (floorNumber : Z) (c : nat) : Z :=
  4 + floorNumber / 2 + fst (Dice.roll rnd 3 c) - 1.

Definition opened (conns : list Z) (r : Room) : Room :=
  if opens conns r then set_is_accessible true r else r.

(** How a room [r] of a map relates to the room [r0] it was before the
    operations [ops]: same number, type and connections; still
    accessible if it was; and accessible only if it was, or is not of
    type [locked], or was the target of an [unlockRoom]. *)
Definition tracked (ops : list Op) (r0 r : Room) : Prop :=
  room_number r = room_number r0
  /\ type r = type r0
  /\ connections r = connections r0
  /\ (is_accessible r0 = true -> is_accessible r = true)
  /\ (is_accessible r = true ->
      is_accessible r0 = true \/ type r0 <> Some ty_locked
      \/ op_unlockRoom (room_number r0) ∈ ops).

(** A two-floor dungeon with no enemy rules, used in the examples. *)
Definition sample_dungeon : Dungeon :=
  mkDungeon 1 (Dice.mkDcRange 10 14) 1 2.

(** A hand-made map: room 1 leads to room 2 and to the locked room 3. *)
Definition sample_room (n : Z) (ty : RoomType) (acc : bool) (conns : list Z)
  : Room :=
  mkRoom n (Some ty) false acc conns 0 [] None None
    (if bool_decide (ty = ty_locked) then Some (mkLock 12 false false) else None)
    None false false.

Definition sample_map : FloorMap :=
  mkFloorMap
    [ sample_room 1 ty_standard true [2; 3];
      sample_room 2 ty_standard false [1];
      sample_room 3 ty_locked false [1] ].

End FloorSpec.

Module LootSpec.

Import Loot.

(** The identifiers of the items of a list of drops. *)
Definition item_ids (drops : list Drop) : list Z := d_item_id <$> drops.

(** A guaranteed rule fires when its condition holds and its perception
    gate, if it has one, is met. *)
Definition fires (context : Context) (rule : LootRule) : Prop :=
  checkCondition rule context = true
  /\ (truthy (requires_perception rule) = false
      \/ perception_dc_of rule - 5 <= perception_level_of context).

(** The drops made by the guaranteed rules of a source. *)
Definition guaranteed_drops (table : list LootRule) (sourceType : SourceType)
  (sourceId : Z) (context : Context) : list Drop :=
  foldl (guaranteed_step context) []
    (filter (fun r => drop_type r = guaranteed)
       (getLootRulesForSource table sourceType sourceId)).

(** A rule with no condition and no perception gate. *)
Definition plain_rule (src : SourceType) (sid item : Z) (dt : DropType)
  (weight : Z) : LootRule :=
  mkLootRule src sid item "item" "misc" None None dt weight cond_none
    None None None None 0 None.

(** The chest of dungeon 1 holds a guaranteed key and two weighted
    items. *)
Definition sample_table : list LootRule :=
  [ plain_rule src_chest 1 7 guaranteed 0;
    plain_rule src_chest 1 8 weighted 40;
    plain_rule src_chest 1 9 weighted 20 ].

End LootSpec.

Module CombatSpec.

Import FloorGenerator Combat.

(** The damage an enemy takes from a hit: the raw damage times its
    resistance to the damage type, rounded, less its armor, and at
    least 1. *)
Definition net_damage (enemy : Enemy) (damage : Q) (damageType : string) : Z :=
  Z.max 1
    (Js.Math_round (damage * default 1%Q (resistances enemy !! damageType))
     - armor enemy).

(** Two rats; the first has 3 hit points left, the second is alive. *)
Definition sample_enemy (hp : Z) (dead : bool) : Enemy :=
  mkEnemy 4 1 "Crypt Rat" hp 10 3 1 ∅ false dead 5 1 3 "hostile" false.

Definition sample_room_state : RoomState :=
  mkRoomState true 1 [sample_enemy 3 false; sample_enemy 10 false].

End CombatSpec.

Module ActionSpec.

Import FloorGenerator Combat ActionProcessor.

(** The number of Thieves' Picks that a player holds. *)
Definition picks_held (table : list InvRow) (playerId : Z) : Z :=
  foldr Z.add 0
    (inv_quantity <$>
       filter (fun r => inv_player_id r = playerId
                        /\ inv_item_name r = "Thieves' Pick") table).

(** Inventory rows have distinct identifiers (the primary key). *)
Definition distinct_rows (table : list InvRow) : Prop :=
  NoDup (row_id <$> table).

(** The action targets a lock: the lock of the current room, a locked
    chest in it, or an adjacent locked room that is still inaccessible. *)
Definition targets_lock (currentRoom : Room) (floorMap : FloorMap) : Prop :=
  (type currentRoom = Some ty_locked /\ is_Some (lock currentRoom))
  \/ (exists ch, chest currentRoom = Some ch /\ is_locked ch = true)
  \/ (exists n r l, n ∈ connections currentRoom
                     /\ getCurrentRoom floorMap n = Some r
                     /\ type r = Some ty_locked /\ is_accessible r = false
                     /\ lock r = Some l).

(** What the later steps of a handler leave untouched: the inventory,
    the checks rolled so far and the two lockpick flags. *)
Definition same_gate (w w' : World) : Prop :=
  player_inventory w' = player_inventory w
  /\ diceResults (result w') = diceResults (result w)
  /\ checks (result w') = checks (result w)
  /\ lockpickConsumed (result w') = lockpickConsumed (result w)
  /\ noLockpick (result w') = noLockpick (result w).

(** The parameters of the check that a lockpicking action rolls. *)
Definition lockpick_check_params (dc : Z) (baseStats : option Dice.BaseStats)
  (skills : gmap string Z) : Dice.SkillCheckParams :=
  Dice.mkSkillCheckParams "lockpicking" dc baseStats skills 20 [] false false
    "room_feature" None.

(** A player with two picks in front of a locked chest. *)
Definition empty_result (hp : Z) : ActionResult :=
  mkActionResult [] [] [] 0 ∅ [] 0 hp false false false false false false.

Definition chest_room : Room :=
  mkRoom 1 (Some ty_treasure) false true [] 0 [] None
    (Some (mkChest false true (Some 12) false)) None None false false.

Definition sample_world : World :=
  mkWorld (mkFloorMap [chest_room]) (mkRoomState false 0 [])
    [mkInvRow 1 7 30 2 "Thieves' Pick"] [] (empty_result 20).

End ActionSpec.

Module DiceMoreSpec.

Import Dice.

(** The sum of the weights of a pool, as [weightedRandom] computes it. *)
Definition pool_total {A : Type} (pool : list (PoolEntry A)) : Q :=
  fold_left (fun sum entry => (sum + weight entry)%Q) pool 0%Q.

(** The damage of a damage roll after resistance, before armor. *)
Definition after_resistance (p : DamageParams) (r : DamageResult) : Z :=
  Js.Math_round (inject_Z (rawDamage r) * resistanceMultiplier p).

End DiceMoreSpec.

Module LayoutSpec.

Import FloorGenerator.

(** A room without its connections and its accessibility: what the
    generation of connections leaves alone. *)
Definition content (r : Room) : Room :=
  set_connections [] (set_is_accessible false r).

(** The rooms are numbered from 1 in the order of the array. *)
Definition numbered (rs : list Room) : Prop :=
  forall i r, rs !! i = Some r -> room_number r = Z.of_nat i + 1.

(** Every entry of a list of connections is the number of another room of
    the array, which lists the room back. *)
Definition linked (rs : list Room) : Prop :=
  forall i ri x, rs !! i = Some ri -> x ∈ connections ri ->
    exists j rj, rs !! j = Some rj /\ room_number rj = x /\ j <> i
      /\ room_number ri ∈ connections rj.

(** The five types that [pickRoomType] draws from. *)
Definition interior_types : list RoomType :=
  [ty_standard; ty_treasure; ty_trap; ty_rest; ty_locked].

(** The arguments with which [generateFloor] creates the room at index
    [i] of a floor of [roomCount] rooms whose interior type, if any, is
    [ty]. *)
Definition entrance_args (d : Dungeon) (f : Z) (rules : list EnemyRule)
  : RoomArgs :=
  mkRoomArgs 1 (Some ty_standard) (dc_range d) f rules true d false false.

Definition interior_args (d : Dungeon) (f : Z) (rules : list EnemyRule)
  (n : Z) (ty : RoomType) : RoomArgs :=
  mkRoomArgs n (Some ty) (dc_range d) f rules false d false false.

Definition final_args (d : Dungeon) (f : Z) (rules : list EnemyRule)
  (roomCount : Z) (isFinalFloor : bool) : RoomArgs :=
  if isFinalFloor
  then mkRoomArgs roomCount (Some ty_boss) (dc_range d) f rules false d true false
  else mkRoomArgs roomCount (Some ty_standard) (dc_range d) f rules false d false true.

(** An enemy as [createEnemyInstance] returns it for one of [rules]:
    alive, at full health, idle. *)
Definition spawned (rules : list EnemyRule) (e : Enemy) : Prop :=
  is_dead e = false /\ hp_current e = hp_max e /\ awareness e = "idle"
  /\ exists rule, rule ∈ rules /\ e_enemy_id e = enemy_id rule.

(** A rule that [spawnEnemies] may draw for a regular enemy. *)
Definition regular_rule (r : EnemyRule) : Prop :=
  rule_is_boss r = 0 /\ 0 < spawn_weight r.

End LayoutSpec.

Module LootMoreSpec.

Import Loot.

(** A drop that a rule of the source explains: the rule is guaranteed or
    weighted, its condition holds, and the player can see it. *)
Definition explained (table : list LootRule) (sourceType : SourceType)
  (sourceId : Z) (context : Context) (d : Drop) : Prop :=
  exists rule,
    rule ∈ table
    /\ source_type rule = sourceType /\ source_id rule = sourceId
    /\ (drop_type rule = guaranteed \/ drop_type rule = weighted)
    /\ checkCondition rule context = true
    /\ checkPerception rule context = true
    /\ d = makeDrop rule (requires_perception rule).

(** The guaranteed rules of a source. *)
Definition guaranteed_rules (table : list LootRule) (sourceType : SourceType)
  (sourceId : Z) : list LootRule :=
  filter (fun r => drop_type r = guaranteed)
    (getLootRulesForSource table sourceType sourceId).

End LootMoreSpec.

Module TurnSpec.

Import FloorGenerator Combat ActionProcessor Turn.

(** The damage of one tick of an effect: [damage_per_tick || 2] for a
    poison, nothing for any other effect. *)
Definition tick_damage (e : StatusEffect) : Z :=
  if is_poison e then Js.or_opt (se_damage_per_tick e) 2 else 0.

(** The number of ticks that an effect takes part in during the first
    [n] ticks: it is ticked at least once, then until its duration is
    used up. *)
Definition ticks_within (n : nat) (e : StatusEffect) : Z :=
  Z.min (Z.of_nat n) (Z.max 1 (se_duration e)).

(** The poison damage of the first [n] ticks. *)
Definition poison_total (n : nat) (effects : list StatusEffect) : Z :=
  foldr (fun e acc => tick_damage e * ticks_within n e + acc) 0 effects.

(** An effect after [n] ticks. *)
Definition after_ticks (n : nat) (e : StatusEffect) : StatusEffect :=
  mkStatusEffect (se_type e) (se_duration e - Z.of_nat n) (se_damage_per_tick e)
    (se_source e).

(** [n] calls of [tickStatusEffects], one per action. *)
Definition ticks (n : nat) (s : Ticking) : Ticking :=
  Nat.iter n tickStatusEffects s.

(** The poison effects of a source. *)
Definition poison_from (source : string) (effects : list StatusEffect)
  : list StatusEffect :=
  filter (fun e => is_poison e = true /\ se_source e = source) effects.

(** The multiplier of the opportunity attacks of a flight. *)
Definition flee_multiplier (outcome : Dice.Outcome) : Q :=
  match outcome with
  | Dice.critical_success => 0%Q
  | Dice.success => (1 # 4)%Q
  | _ => (1 # 2)%Q
  end.

(** The opportunity attacks of the living enemies, added up. *)
Definition opportunity_total (oppMultiplier : Q) (enemies : list Enemy) : Z :=
  foldr
    (fun e acc =>
       (if is_dead e then 0
        else Js.Math_round (inject_Z (damage e) * oppMultiplier)) + acc)
    0 enemies.

(** The stealth check of a flight. *)
Definition flee_check_params (baseStats : option Dice.BaseStats)
  (skills : gmap string Z) : Dice.SkillCheckParams :=
  Dice.mkSkillCheckParams "stealth" 12 baseStats skills 20 [] false false
    "flee" None.

(** A state of effects used in the examples: a poison of three turns and
    a one-turn stun. *)
Definition sample_ticking : Ticking :=
  mkTicking
    [mkStatusEffect "poison" 3 (Some 2) "Crypt Rat";
     mkStatusEffect "stun" 1 None "Collapsing Floor"]
    0 20 None [].

(** A player in front of an unlocked chest. *)
Definition open_chest : Chest := mkChest false false None false.

Definition open_chest_world : World :=
  mkWorld
    (mkFloorMap
       [mkRoom 1 (Some ty_treasure) false true [] 0 [] None (Some open_chest)
          None None false false])
    (mkRoomState false 0 []) [] [] (ActionSpec.empty_result 20).

(** A player with a pick in room 1, next to the locked room 2. *)
Definition lock_world : World :=
  mkWorld FloorSpec.sample_map (mkRoomState false 0 [])
    [mkInvRow 1 7 30 2 "Thieves' Pick"] [] (ActionSpec.empty_result 20).

End TurnSpec.

(** * Properties of dice.js *)

Module DiceProps.

Import Dice.

Lemma or_opt_0 (v : option Z) : Js.or_opt v 0 = default 0 v.
Proof.
  destruct v as [x|]; simpl; [|reflexivity].
  unfold Js.or_num. destruct (Z.eqb_spec x 0); congruence.
Qed.

Lemma sum_perks_from (l : list PerkBonus) (acc : Z) :
  fold_left (fun sum p => sum + Js.or_opt (effect p) 0) l acc
  = acc + DiceSpec.perk_sum l.
Proof.
  revert acc. induction l as [|p l IH]; intros acc; simpl.
  - lia.
  - rewrite IH, or_opt_0. lia.
Qed.

Lemma sum_perks_spec (l : list PerkBonus) : sum_perks l = DiceSpec.perk_sum l.
Proof. unfold sum_perks. rewrite sum_perks_from. lia. Qed.

Lemma is_pass_iff (o : Outcome) :
  is_pass o = true <-> o = success \/ o = critical_success \/ o = partial.
Proof.
  destruct o; simpl; split; intros H; try reflexivity; try discriminate; auto;
    destruct H as [H|[H|H]]; discriminate.
Qed.

(** C1. Every skill check returns [final_total = base_roll + stat_modifier
    + floor(skill_level / 10) + sum of the perk effects], classifies the
    outcome in the fixed priority order (critical success on a base roll of
    at least the crit range, else critical failure on a base roll of 1,
    else success on a total of at least the DC, else partial on a total of
    at least the DC minus 2, else failure), and sets [passed] exactly for
    success, critical success and partial. *)
Theorem skillCheck_total_and_outcome
  (rnd : nat -> Q) (p : SkillCheckParams) (c : nat) :
  let r := fst (skillCheck rnd p c) in
  final_total r
    = base_roll r + stat_modifier r + skill_level r / 10
      + DiceSpec.perk_sum (perkBonuses p)
  /\ skill_level r = level_or_1 (skills p) (skillName p)
  /\ dc r = p_dc p
  /\ (critRange p <= base_roll r -> outcome r = critical_success)
  /\ (base_roll r < critRange p -> base_roll r = 1 ->
      outcome r = critical_failure)
  /\ (base_roll r < critRange p -> base_roll r <> 1 ->
      dc r <= final_total r -> outcome r = success)
  /\ (base_roll r < critRange p -> base_roll r <> 1 ->
      final_total r < dc r -> dc r - 2 <= final_total r ->
      outcome r = partial)
  /\ (base_roll r < critRange p -> base_roll r <> 1 ->
      final_total r < dc r - 2 -> outcome r = failure)
  /\ (passed r = true <->
      outcome r = success \/ outcome r = critical_success
      \/ outcome r = partial).
Proof.
  intros r. subst r. unfold skillCheck, bind, ret. simpl.
  set (b := fst (fst (roll_d20 rnd (advantage p) (disadvantage p) c))).
  rewrite sum_perks_spec.
  set (t := b + _ + _ + _).
  repeat split.
  - intros H. apply Z.leb_le in H. rewrite H. reflexivity.
  - intros H1 H2. apply Z.leb_gt in H1. rewrite H1.
    apply Z.eqb_eq in H2. rewrite H2. reflexivity.
  - intros H1 H2 H3. apply Z.leb_gt in H1. rewrite H1.
    apply Z.eqb_neq in H2. rewrite H2.
    apply Z.leb_le in H3. rewrite H3. reflexivity.
  - intros H1 H2 H3 H4. apply Z.leb_gt in H1. rewrite H1.
    apply Z.eqb_neq in H2. rewrite H2.
    apply Z.leb_gt in H3. rewrite H3.
    apply Z.leb_le in H4. rewrite H4. reflexivity.
  - intros H1 H2 H3. apply Z.leb_gt in H1. rewrite H1.
    apply Z.eqb_neq in H2. rewrite H2.
    assert (H4 : (p_dc p <=? t) = false) by (apply Z.leb_gt; lia).
    rewrite H4. apply Z.leb_gt in H3. rewrite H3. reflexivity.
  - apply is_pass_iff.
  - apply is_pass_iff.
Qed.

(** The scenario of a melee attack: Strength 14 (modifier +2), melee
    level 23 (bonus +2), DC 12, and a roll of 15 give a total of 19 and a
    success. *)
Example skillCheck_melee_scenario :
  let r := fst (skillCheck (fun _ => 29 # 40)
                  (mkSkillCheckParams "melee" 12
                     (Some (mkBaseStats 14 10 10 10 10 10))
                     {[ "melee"%string := 23 ]} 20 [] false false
                     "enemy_armor" None) 0%nat) in
  base_roll r = 15 /\ stat_modifier r = 2 /\ skill_bonus r = 2
  /\ final_total r = 19 /\ outcome r = success /\ passed r = true.
Proof. vm_compute. repeat split. Qed.

(** A natural 20 is a critical success whatever the total, a natural 1 a
    critical failure. *)
Example skillCheck_naturals :
  let p := mkSkillCheckParams "stealth" 40 None ∅ 20 [] false false
             "room_feature" None in
  outcome (fst (skillCheck (fun _ => 39 # 40) p 0%nat)) = critical_success
  /\ outcome (fst (skillCheck (fun _ => 0%Q) p 0%nat)) = critical_failure.
Proof. vm_compute. split; reflexivity. Qed.

(** A die of [sides] sides shows a face between 1 and [sides]. *)
Lemma roll_bounds (rnd : nat -> Q) (sides : Z) (c : nat) :
  unit_interval rnd -> 0 < sides ->
  1 <= fst (roll rnd sides c) <= sides.
Proof.
  intros Hu Hs. unfold roll, bind, ret, Math_random, Js.Math_floor.
  cbn [fst snd]. destruct (Hu c) as [H0 H1].
  assert (Hs' : (inject_Z 0 < inject_Z sides)%Q) by (rewrite <- Zlt_Qlt; lia).
  change (inject_Z 0) with 0%Q in Hs'.
  assert (Hlo : (0 <= rnd c * inject_Z sides)%Q)
    by (apply Qmult_le_0_compat; lra).
  assert (Hhi : (rnd c * inject_Z sides < inject_Z sides)%Q).
  { assert (rnd c * inject_Z sides < 1 * inject_Z sides)%Q
      as H by (apply Qmult_lt_r; assumption).
    rewrite Qmult_1_l in H. exact H. }
  split.
  - apply Qfloor_resp_le in Hlo. change (Qfloor 0) with 0 in Hlo. lia.
  - pose proof (Qfloor_le (rnd c * inject_Z sides)) as Hf.
    assert (Hlt : (inject_Z (Qfloor (rnd c * inject_Z sides)) < inject_Z sides)%Q)
      by lra.
    rewrite <- Zlt_Qlt in Hlt. lia.
Qed.

Lemma roll_counter (rnd : nat -> Q) (sides : Z) (c : nat) :
  snd (roll rnd sides c) = S c.
Proof. reflexivity. Qed.

(** C4. A damage roll is computed in this order: the sum of base damage
    and weapon bonus is scaled by a variance between 0.8 and 1.2 and
    rounded, then doubled on a critical hit; the resistance multiplier is
    applied to that; the target's armor is subtracted from the result, and
    the damage dealt is never below 1. *)
Theorem rollDamage_order (rnd : nat -> Q) (p : DamageParams) (c : nat) :
  unit_interval rnd ->
  let r := fst (rollDamage rnd p c) in
  exists v : Q,
    ((8 # 10) <= v)%Q /\ (v <= (12 # 10))%Q
    /\ rawDamage r
        = (let varied := Js.Math_round ((baseDamage p + weaponBonus p) * v) in
           if isCritical p then varied * 2 else varied)
    /\ mitigatedDamage r
        = Qmax 1
            (inject_Z (Js.Math_round (inject_Z (rawDamage r)
                                      * resistanceMultiplier p))
             - targetArmor p)
    /\ (1 <= mitigatedDamage r)%Q.
Proof.
  intros Hu r. destruct (Hu c) as [H0 H1].
  exists ((8 # 10) + rnd c * (4 # 10))%Q.
  split; [lra|]. split; [lra|].
  subst r. unfold rollDamage, bind, ret, Math_random. simpl.
  split; [reflexivity|]. split; [reflexivity|].
  apply Q.le_max_l.
Qed.

(** The oracle that always answers one half. *)
Lemma rollDamage_order_witness :
  unit_interval (fun _ => 1 # 2)
  /\ (let r := fst (rollDamage (fun _ => 1 # 2)
                     (mkDamageParams 10 2 true 3 (1 # 2)) 0%nat) in
      exists v : Q,
        ((8 # 10) <= v)%Q /\ (v <= (12 # 10))%Q
        /\ rawDamage r
            = (let varied := Js.Math_round ((10 + 2) * v) in varied * 2)
        /\ mitigatedDamage r
            = Qmax 1
                (inject_Z (Js.Math_round (inject_Z (rawDamage r) * (1 # 2)))
                 - 3)
        /\ (1 <= mitigatedDamage r)%Q).
Proof.
  assert (Hu : unit_interval (fun _ => 1 # 2)).
  { intros n. split; [discriminate | reflexivity]. }
  split; [exact Hu|].
  exact (rollDamage_order (fun _ => 1 # 2)
           (mkDamageParams 10 2 true 3 (1 # 2)) 0%nat Hu).
Defined.

End DiceProps.

(** * Properties of floor-generator.js *)

Module FloorProps.

Import FloorGenerator FloorSpec.

Section Keeps.

Variable A : bool -> bool -> Prop.
Hypothesis A_refl : forall a, A a a.
Hypothesis A_trans : forall a b c, A a b -> A b c -> A a c.

Lemma keeps_refl (r : Room) : keeps A r r.
Proof. unfold keeps. auto. Qed.

Lemma keeps_trans (a b c : Room) : keeps A a b -> keeps A b c -> keeps A a c.
Proof.
  intros (N1 & T1 & A1 & C1) (N2 & T2 & A2 & C2). unfold keeps.
  repeat split; [congruence | congruence | eauto | auto].
Qed.

Lemma Forall2_keeps_refl (l : list Room) : Forall2 (keeps A) l l.
Proof. apply Forall_Forall2_diag, Forall_forall. intros. apply keeps_refl. Qed.

Lemma Forall2_keeps_trans (l1 l2 l3 : list Room) :
  Forall2 (keeps A) l1 l2 -> Forall2 (keeps A) l2 l3 -> Forall2 (keeps A) l1 l3.
Proof. apply Forall2_trans. exact keeps_trans. Qed.

Lemma keeps_push (n : Z) (r : Room) : keeps A r (push_connection n r).
Proof.
  unfold keeps, push_connection. simpl. repeat split; auto.
  intros x Hx. apply elem_of_app. auto.
Qed.

(** An in-place update that respects [keeps] leaves the array related to
    the original. *)
Lemma Forall2_keeps_alter (f : Room -> Room) (l k : list Room) (i : nat) :
  (forall r, keeps A r (f r)) ->
  Forall2 (keeps A) l k -> Forall2 (keeps A) l (alter f i k).
Proof.
  intros Hf H. apply Forall2_alter_r; [exact H|].
  intros x y _ _ Hxy. eapply keeps_trans; [exact Hxy | apply Hf].
Qed.

End Keeps.

Lemma not_opened_refl (a : bool) : not_opened a a.
Proof. unfold not_opened. auto. Qed.

Lemma not_opened_trans (a b c : bool) :
  not_opened a b -> not_opened b c -> not_opened a c.
Proof. unfold not_opened. auto. Qed.

Lemma grows_close (r : Room) : grows r (set_is_accessible false r).
Proof. unfold grows, keeps, not_opened. simpl. repeat split; auto. discriminate. Qed.

Lemma extends_grows (r r' : Room) : extends r r' -> grows r r'.
Proof.
  intros (N & T & E & C). unfold grows, keeps, not_opened.
  repeat split; auto. congruence.
Qed.

Lemma link_step_grows (rs : list Room) (i : nat) :
  Forall2 grows rs (link_step rs i).
Proof.
  pose proof not_opened_refl as R. pose proof not_opened_trans as T.
  unfold link_step.
  destruct (rs !! i) as [from|]; [|apply Forall2_keeps_refl; assumption].
  destruct (rs !! S i) as [to|]; [|apply Forall2_keeps_refl; assumption].
  set (rs1 := if bool_decide (room_number to ∈ connections from) then rs else _).
  assert (H1 : Forall2 grows rs rs1).
  { subst rs1. case_bool_decide; [apply Forall2_keeps_refl; assumption|].
    apply (Forall2_keeps_alter _ T);
      [intros; apply keeps_push; exact R | apply Forall2_keeps_refl; exact R]. }
  set (rs2 := if bool_decide (room_number from ∈ connections to) then rs1 else _).
  assert (H2 : Forall2 grows rs rs2).
  { subst rs2. case_bool_decide; [exact H1|].
    apply (Forall2_keeps_alter _ T);
      [intros; apply keeps_push; exact R | exact H1]. }
  destruct (type_is (type to) ty_locked); [exact H2|].
  apply (Forall2_keeps_alter _ T); [apply grows_close | exact H2].
Qed.

(** After the turn at index [i], room [i] lists the room that follows. *)
Lemma link_step_edge (rs : list Room) (i : nat) (from to : Room) :
  rs !! i = Some from -> rs !! S i = Some to ->
  exists r', link_step rs i !! i = Some r'
             /\ room_number to ∈ connections r'.
Proof.
  intros Hf Ht. unfold link_step. rewrite Hf, Ht.
  set (rs1 := if bool_decide (room_number to ∈ connections from) then rs else _).
  assert (H1 : exists r', rs1 !! i = Some r' /\ room_number to ∈ connections r').
  { subst rs1. case_bool_decide as Hin; [eauto|].
    exists (push_connection (room_number to) from).
    rewrite list_lookup_alter_eq, Hf. split; [reflexivity|].
    unfold push_connection. simpl. apply elem_of_app. right.
    apply list_elem_of_singleton. reflexivity. }
  destruct H1 as (r' & Hr' & Hin).
  exists r'. split; [|exact Hin].
  assert (Hne : S i <> i) by lia.
  destruct (type_is (type to) ty_locked); case_bool_decide;
    rewrite ?(list_lookup_alter_ne _ _ _ _ Hne); exact Hr'.
Qed.

Lemma link_loop_grows (rs : list Room) (k : nat) :
  Forall2 grows rs (foldl link_step rs (seq 0 k)).
Proof.
  induction k as [|k IH].
  - apply Forall2_keeps_refl, not_opened_refl.
  - rewrite seq_S, foldl_app. simpl.
    eapply Forall2_keeps_trans; [exact not_opened_trans | exact IH |].
    apply link_step_grows.
Qed.

(** After the primary-path loop, each room it visited lists its
    successor. *)
Lemma link_loop_edges (rs : list Room) (k i : nat) (r' to : Room) :
  (i < k)%nat ->
  foldl link_step rs (seq 0 k) !! i = Some r' ->
  rs !! S i = Some to ->
  room_number to ∈ connections r'.
Proof.
  revert r'. induction k as [|k IH]; intros r' Hik Hr' Hto; [lia|].
  rewrite seq_S, foldl_app in Hr'. simpl in Hr'.
  set (mid := foldl link_step rs (seq 0 k)) in *.
  pose proof (link_loop_grows rs k) as Hg. fold mid in Hg.
  pose proof (link_step_grows mid k) as Hs.
  destruct (Forall2_lookup_r _ _ _ _ _ Hs Hr') as (m & Hm & Hmr).
  destruct (decide (i = k)) as [->|Hne].
  - destruct (Forall2_lookup_l _ _ _ _ _ Hg Hto) as (to' & Hto' & Hgt).
    destruct (link_step_edge mid k m to' Hm Hto') as (r'' & Hr'' & Hin).
    rewrite Hr' in Hr''. injection Hr'' as <-.
    destruct Hgt as (N & _). rewrite <- N. exact Hin.
  - destruct Hmr as (_ & _ & _ & C). apply C.
    apply (IH m); [lia | exact Hm | exact Hto].
Qed.

Section Generation.

Variable rnd : nat -> Q.

Lemma createRoom_number (a : RoomArgs) (c : nat) :
  room_number (fst (createRoom rnd a c)) = a_room_number a.
Proof. reflexivity. Qed.

Lemma createRoom_type (a : RoomArgs) (c : nat) :
  type (fst (createRoom rnd a c)) = a_type a.
Proof. reflexivity. Qed.

Lemma createRoom_accessible (a : RoomArgs) (c : nat) :
  is_accessible (fst (createRoom rnd a c))
  = if type_is (a_type a) ty_locked then false else a_room_number a =? 1.
Proof. reflexivity. Qed.

#[local] Opaque createRoom.

Lemma middleRooms_length (count : nat) (i roomCount : Z) (d : Dungeon)
  (f : Z) (rules : list EnemyRule) (c : nat) :
  length (fst (middleRooms rnd count i roomCount d f rules c)) = count.
Proof.
  revert i c. induction count as [|n IH]; intros i c; [reflexivity|].
  cbn [middleRooms bind ret fst snd length]. rewrite IH. reflexivity.
Qed.

Lemma middleRooms_lookup (count : nat) (i roomCount : Z) (d : Dungeon)
  (f : Z) (rules : list EnemyRule) (c : nat) (k : nat) (r : Room) :
  fst (middleRooms rnd count i roomCount d f rules c) !! k = Some r ->
  room_number r = i + Z.of_nat k
  /\ (is_accessible r = true -> i + Z.of_nat k = 1).
Proof.
  revert i c k. induction count as [|n IH]; intros i c k; [discriminate|].
  cbn [middleRooms bind ret fst snd]. destruct k as [|k].
  - intros [= <-]. rewrite createRoom_number, createRoom_accessible.
    cbn [a_room_number a_type]. split; [lia|].
    intros H.
    match type of H with (if ?b then _ else _) = _ => destruct b end;
      [discriminate|].
    apply Z.eqb_eq in H. lia.
  - intros H. apply IH in H. destruct H as [H1 H2].
    split; [lia | intros Ha; specialize (H2 Ha); lia].
Qed.

Lemma branch_step_extends (rs : list Room) (i c : nat) :
  Forall2 extends rs (fst (branch_step rnd rs i c)).
Proof.
  assert (R : forall a : bool, a = a) by reflexivity.
  assert (T : forall a b c : bool, a = b -> b = c -> a = c) by congruence.
  unfold branch_step, bind, ret, Math_random. cbn [fst snd].
  destruct (Js.Qltb (rnd c) (2 # 10)); [|apply Forall2_keeps_refl; exact R].
  match goal with |- context [if ?b then _ else _] => destruct b end;
    [|apply Forall2_keeps_refl; exact R].
  destruct (rs !! i) as [ri|]; [|apply Forall2_keeps_refl; exact R].
  match goal with |- context [room_at ?l ?t] => destruct (room_at l t) as [rt|] end;
    [|apply Forall2_keeps_refl; exact R].
  cbn [fst].
  apply (Forall2_keeps_alter _ T); [intros; apply keeps_push; exact R|].
  apply (Forall2_keeps_alter _ T); [intros; apply keeps_push; exact R|].
  apply Forall2_keeps_refl; exact R.
Qed.

Lemma branch_loop_extends (l : list nat) (rs : list Room) (c : nat) :
  Forall2 extends rs (fst (foldM (branch_step rnd) l rs c)).
Proof.
  revert rs c. induction l as [|i l IH]; intros rs c.
  - apply Forall2_keeps_refl. reflexivity.
  - cbn [foldM bind fst snd].
    eapply Forall2_keeps_trans; [congruence | apply branch_step_extends | apply IH].
Qed.

(** What [generateConnections] returns, room by room. *)
Lemma generateConnections_lookup (rs : list Room) (c i : nat) (r' : Room) :
  fst (generateConnections rnd rs c) !! i = Some r' ->
  exists r, rs !! i = Some r
    /\ room_number r' = room_number r
    /\ type r' = type r
    /\ (i = 0%nat -> is_accessible r' = true)
    /\ (i <> 0%nat -> is_accessible r' = true -> is_accessible r = true)
    /\ (forall to, rs !! S i = Some to -> room_number to ∈ connections r').
Proof.
  unfold generateConnections.
  set (rs1 := foldl link_step rs (seq 0 (length rs - 1))).
  set (rs2 := alter (set_is_accessible true) 0%nat rs1).
  pose proof (branch_loop_extends (seq 1 (length rs2 - 3)) rs2 c) as H3.
  pose proof (link_loop_grows rs (length rs - 1)) as H1. fold rs1 in H1.
  intros Hr'.
  destruct (Forall2_lookup_r _ _ _ _ _ H3 Hr') as (r2 & Hr2 & (N3 & T3 & A3 & C3)).
  assert (exists r1, rs1 !! i = Some r1
            /\ room_number r2 = room_number r1 /\ type r2 = type r1
            /\ connections r2 = connections r1
            /\ (i = 0%nat -> is_accessible r2 = true)
            /\ (i <> 0%nat -> is_accessible r2 = is_accessible r1))
    as (r1 & Hr1 & N2 & T2 & C2 & A2 & A2').
  { subst rs2. destruct (decide (i = 0%nat)) as [->|Hne].
    - rewrite list_lookup_alter_eq in Hr2.
      destruct (rs1 !! 0%nat) as [r1|]; [|discriminate].
      injection Hr2 as <-. exists r1. repeat split; auto; congruence.
    - rewrite list_lookup_alter_ne in Hr2 by auto.
      exists r2. repeat split; auto; congruence. }
  destruct (Forall2_lookup_r _ _ _ _ _ H1 Hr1) as (r & Hr & (N1 & T1 & A1 & C1)).
  exists r. split; [exact Hr|].
  split; [congruence|]. split; [congruence|].
  split; [intros Hi; rewrite <- A3; auto|].
  split; [intros Hi Ha; apply A1; rewrite <- A2' by exact Hi; congruence|].
  intros to Hto. apply C3. rewrite C2.
  apply (link_loop_edges rs (length rs - 1) i r1 to); [|exact Hr1|exact Hto].
  apply lookup_lt_Some in Hto. lia.
Qed.

Lemma generateConnections_length (rs : list Room) (c : nat) :
  length (fst (generateConnections rnd rs c)) = length rs.
Proof.
  unfold generateConnections.
  set (rs1 := foldl link_step rs (seq 0 (length rs - 1))).
  set (rs2 := alter (set_is_accessible true) 0%nat rs1).
  pose proof (branch_loop_extends (seq 1 (length rs2 - 3)) rs2 c) as H3.
  pose proof (link_loop_grows rs (length rs - 1)) as H1. fold rs1 in H1.
  apply Forall2_length in H3, H1. rewrite <- H3. subst rs2.
  rewrite length_alter. congruence.
Qed.

(** The rooms of a fresh floor before they are connected: numbered from 1
    in order, none but the first accessible, the first one standard. *)
Lemma fresh_rooms_lookup (first final : Room) (middle : list Room)
  (i : nat) (r : Room) :
  room_number first = 1 -> type first = Some ty_standard ->
  (forall k m, middle !! k = Some m ->
     room_number m = 2 + Z.of_nat k /\ (is_accessible m = true -> 2 + Z.of_nat k = 1)) ->
  room_number final = Z.of_nat (length middle) + 2 ->
  is_accessible final = false ->
  (first :: middle ++ [final]) !! i = Some r ->
  room_number r = Z.of_nat i + 1
  /\ (is_accessible r = true -> i = 0%nat)
  /\ (i = 0%nat -> type r = Some ty_standard).
Proof.
  intros N1 T1 Hm Nf Af Hr. destruct i as [|i].
  - injection Hr as <-. repeat split; auto.
  - cbn [lookup list_lookup] in Hr. change ((middle ++ [final]) !! i = Some r) in Hr.
    apply lookup_app_Some in Hr as [Hr|[Hlen Hr]].
    + destruct (Hm _ _ Hr) as [N A]. repeat split; [lia | | lia].
      intros Ha. specialize (A Ha). lia.
    + apply list_lookup_singleton_Some in Hr as [Hi <-].
      repeat split; [lia | congruence | lia].
Qed.

(** [generateFloor] connects a fresh list of rooms. *)
Lemma generateFloor_rooms (d : Dungeon) (f : Z) (fin : bool)
  (rules : list EnemyRule) (c : nat) :
  exists (first final : Room) (middle : list Room) (c' : nat),
    rooms (fst (generateFloor rnd d f fin rules c))
    = fst (generateConnections rnd (first :: middle ++ [final]) c')
    /\ room_number first = 1 /\ type first = Some ty_standard
    /\ length middle = Z.to_nat (roomCount_of rnd f c - 2)
    /\ (forall k m, middle !! k = Some m ->
          room_number m = 2 + Z.of_nat k
          /\ (is_accessible m = true -> 2 + Z.of_nat k = 1))
    /\ room_number final = roomCount_of rnd f c
    /\ (is_accessible final = true -> roomCount_of rnd f c = 1).
Proof.
  unfold generateFloor, bind, ret. cbn [fst snd rooms].
  fold (roomCount_of rnd f c).
  match goal with
  | |- context [generateConnections rnd (?a :: ?m ++ [?z]) ?k] =>
      exists a, z, m, k
  end.
  split; [reflexivity|].
  split; [apply createRoom_number|].
  split; [apply createRoom_type|].
  split; [apply middleRooms_length|].
  split; [intros k m; apply middleRooms_lookup|].
  destruct fin; rewrite createRoom_number, createRoom_accessible;
    cbn [a_room_number a_type]; (split; [reflexivity|]);
    intros H; apply Z.eqb_eq in H; exact H.
Qed.

Lemma roomCount_of_bounds (f : Z) (c : nat) :
  unit_interval rnd -> 1 <= f ->
  4 + f / 2 <= roomCount_of rnd f c <= 4 + f / 2 + 2 /\ 4 <= roomCount_of rnd f c.
Proof.
  intros Hu Hf. unfold roomCount_of.
  pose proof (roll_bounds := DiceProps.roll_bounds rnd 3 c Hu).
  assert (0 <= f / 2) by (apply Z.div_pos; lia).
  lia.
Qed.

(** The rooms of a generated floor: how many there are, and for the room
    at each position its number, its accessibility, and the connection to
    the room that follows. *)
Lemma generateFloor_lookup (d : Dungeon) (f : Z) (fin : bool)
  (rules : list EnemyRule) (c : nat) :
  unit_interval rnd -> 1 <= f ->
  let fm := fst (generateFloor rnd d f fin rules c) in
  room_count fm = roomCount_of rnd f c
  /\ forall i r, rooms fm !! i = Some r ->
       room_number r = Z.of_nat i + 1
       /\ (i = 0%nat -> is_accessible r = true /\ type r = Some ty_standard)
       /\ (i <> 0%nat -> is_accessible r = false)
       /\ ((S i < length (rooms fm))%nat -> Z.of_nat i + 2 ∈ connections r).
Proof.
  intros Hu Hf fm. subst fm.
  destruct (generateFloor_rooms d f fin rules c)
    as (first & final & middle & c' & Heq & N1 & T1 & Lm & Hm & Nf & Af).
  destruct (roomCount_of_bounds f c Hu Hf) as [_ Hge].
  assert (Hlen : length (rooms (fst (generateFloor rnd d f fin rules c)))
                 = S (length middle + 1)).
  { rewrite Heq, generateConnections_length. cbn [length].
    rewrite length_app. reflexivity. }
  split.
  { unfold room_count. rewrite Hlen, Lm. lia. }
  intros i r Hr. rewrite Hlen. rewrite Heq in Hr.
  destruct (generateConnections_lookup _ _ _ _ Hr)
    as (r0 & Hr0 & N & T & A0 & A1 & C).
  assert (Hfresh := fun j x => fresh_rooms_lookup first final middle j x N1 T1 Hm).
  assert (Nf' : room_number final = Z.of_nat (length middle) + 2) by lia.
  assert (Af' : is_accessible final = false).
  { destruct (is_accessible final); [|reflexivity]. specialize (Af eq_refl). lia. }
  destruct (Hfresh i r0 Nf' Af' Hr0) as (Nr0 & Ar0 & Tr0).
  split; [lia|].
  split; [intros Hi; split; [auto | rewrite T; auto]|].
  split.
  { intros Hi. destruct (is_accessible r) eqn:E; [|reflexivity].
    specialize (A1 Hi eq_refl). specialize (Ar0 A1). contradiction. }
  intros Hlt.
  assert (Hs : is_Some ((first :: middle ++ [final]) !! S i)).
  { apply lookup_lt_is_Some. cbn [length]. rewrite length_app. cbn [length]. lia. }
  destruct Hs as [to Hto].
  destruct (Hfresh (S i) to Nf' Af' Hto) as (Nto & _ & _).
  specialize (C to Hto). rewrite Nto in C.
  replace (Z.of_nat i + 2) with (Z.of_nat (S i) + 1) by lia. exact C.
Qed.

End Generation.

(** C5 (as the code has it). A floor generated for floor number [f] has
    between [base] and [base + 2] rooms, where [base = 4 + floor(f / 2)]:
    the variance [roll(3) - 1] adds 0, 1 or 2 rooms. *)
Theorem generateFloor_room_count (rnd : nat -> Q) (d : Dungeon) (f : Z)
  (fin : bool) (rules : list EnemyRule) (c : nat) :
  unit_interval rnd -> 1 <= f ->
  let base := 4 + f / 2 in
  base <= room_count (fst (generateFloor rnd d f fin rules c)) <= base + 2.
Proof.
  intros Hu Hf base. subst base.
  destruct (generateFloor_lookup rnd d f fin rules c Hu Hf) as [-> _].
  apply roomCount_of_bounds; assumption.
Qed.

(** ** Clearing and unlocking *)

Lemma find_room_Some (rs : list Room) (n : Z) (i : nat) (r : Room) :
  find_room rs n = Some (i, r) -> rs !! i = Some r /\ room_number r = n.
Proof.
  unfold find_room. intros H. apply list_find_Some in H as (H1 & H2 & _). auto.
Qed.

Lemma find_room_distinct (rs : list Room) (n : Z) (i : nat) (r : Room) :
  distinct_numbers rs -> rs !! i = Some r -> room_number r = n ->
  find_room rs n = Some (i, r).
Proof.
  intros Hd Hr Hn. unfold find_room. apply list_find_Some.
  split; [exact Hr|]. split; [exact Hn|].
  intros j y Hy Hlt Hny. assert (j = i) by (eapply Hd; eauto; congruence). lia.
Qed.

Lemma find_room_None (rs : list Room) (n : Z) (i : nat) (r : Room) :
  find_room rs n = None -> rs !! i = Some r -> room_number r <> n.
Proof.
  unfold find_room. intros H Hr. apply list_find_None in H.
  rewrite Forall_forall in H. apply H. eapply list_elem_of_lookup_2; eauto.
Qed.

(** A rewriting of the rooms that keeps their numbers does not move
    what [find] finds. *)
Lemma find_room_fmap (f : Room -> Room) (rs : list Room) (n : Z) :
  (forall r, room_number (f r) = room_number r) ->
  find_room (f <$> rs) n = prod_map id f <$> find_room rs n.
Proof.
  intros Hf. unfold find_room. induction rs as [|x rs IH]; [reflexivity|].
  csimpl. rewrite Hf. case_decide; [reflexivity|].
  rewrite IH. destruct (list_find _ rs) as [[i r]|]; reflexivity.
Qed.

Lemma opened_number (conns : list Z) (r : Room) :
  room_number (opened conns r) = room_number r.
Proof. unfold opened. destruct (opens conns r); reflexivity. Qed.

Lemma opens_snoc (conns : list Z) (x : Z) (r : Room) :
  opens (conns ++ [x]) r
  = opens conns r
    || (bool_decide (room_number r = x) && negb (is_accessible r)
        && negb (type_is (type r) ty_locked)).
Proof.
  unfold opens.
  assert (E : bool_decide (room_number r ∈ conns ++ [x])
              = bool_decide (room_number r ∈ conns)
                || bool_decide (room_number r = x)).
  { apply eq_true_iff_eq.
    rewrite orb_true_iff, !bool_decide_eq_true, elem_of_app, list_elem_of_singleton.
    reflexivity. }
  rewrite E.
  destruct (bool_decide (room_number r ∈ conns)), (bool_decide (room_number r = x)),
    (is_accessible r), (type_is (type r) ty_locked); reflexivity.
Qed.

Lemma opens_snoc_other (conns : list Z) (x : Z) (r : Room) :
  room_number r <> x -> opens (conns ++ [x]) r = opens conns r.
Proof.
  intros Hne. rewrite opens_snoc.
  rewrite (bool_decide_eq_false_2 _ Hne). simpl. apply orb_false_r.
Qed.

(** The loop of [clearRoom] over the connections, on rooms with
    distinct numbers: the rooms it leaves and the list it builds. *)
Lemma clear_loop (rs : list Room) (conns : list Z) :
  distinct_numbers rs ->
  let st := foldl clear_step (rs, []) conns in
  fst st = opened conns <$> rs
  /\ (forall n, n ∈ snd st <->
        n ∈ conns /\ exists r, r ∈ rs /\ room_number r = n /\ opens [n] r = true)
  /\ NoDup (snd st).
Proof.
  intros Hd. induction conns as [|x done IH] using rev_ind.
  - cbn. split; [|split].
    + symmetry. etrans; [|apply list_fmap_id]. apply list_fmap_ext.
      intros i r _. reflexivity.
    + intros n. split; [intros H; inversion H | intros [H _]; inversion H].
    + constructor.
  - rewrite foldl_app. cbn [foldl].
    destruct (foldl clear_step (rs, []) done) as [rs' out].
    cbn [fst snd] in IH. destruct IH as (-> & Hout & Hnd).
    unfold clear_step. cbn [fst snd].
    rewrite (find_room_fmap _ _ _ (opened_number done)).
    destruct (find_room rs x) as [[j r]|] eqn:Hfind; cbn [fmap option_fmap option_map prod_map fst snd id].
    + destruct (find_room_Some _ _ _ _ Hfind) as [Hr Hn].
      assert (Hother : forall i s, rs !! i = Some s -> i <> j ->
                opens (done ++ [x]) s = opens done s).
      { intros i s Hs Hij. apply opens_snoc_other. intros Hsx.
        apply Hij. eapply Hd; eauto. congruence. }
      assert (Hx : opens [x] r = negb (is_accessible r) && negb (type_is (type r) ty_locked)).
      { unfold opens. rewrite bool_decide_eq_true_2; [reflexivity|].
        rewrite Hn. apply list_elem_of_singleton. reflexivity. }
      destruct (negb (is_accessible (opened done r))
                && negb (type_is (type (opened done r)) ty_locked)) eqn:Hc.
      * (* the room is opened at this turn *)
        assert (Hod : opens done r = false).
        { destruct (opens done r) eqn:E; [|reflexivity].
          unfold opened in Hc. rewrite E in Hc. discriminate. }
        assert (Hr' : opened done r = r) by (unfold opened; rewrite Hod; reflexivity).
        rewrite Hr' in Hc.
        cbn [fst snd]. split; [|split].
        -- apply list_eq. intros i.
           destruct (decide (i = j)) as [->|Hij].
           ++ rewrite list_lookup_alter_eq, !list_lookup_fmap, Hr. cbn.
              rewrite Hr'. unfold opened. rewrite opens_snoc, Hod.
              rewrite (bool_decide_eq_true_2 _ Hn). cbn. rewrite Hc. reflexivity.
           ++ rewrite list_lookup_alter_ne by auto. rewrite !list_lookup_fmap.
              destruct (rs !! i) as [s|] eqn:Hs; [|reflexivity]. cbn.
              unfold opened. rewrite (Hother i s Hs Hij). reflexivity.
        -- intros n. rewrite !elem_of_app, !list_elem_of_singleton, Hout.
           split.
           ++ intros [[H1 H2]|Hnx]; [auto|subst n].
              split; [auto|]. exists r. split; [eapply list_elem_of_lookup_2; eauto|].
              split; [exact Hn|]. rewrite Hx. exact Hc.
           ++ intros [[H1|Hnx] H2]; auto.
        -- apply NoDup_app. split; [exact Hnd|]. split; [|apply NoDup_singleton].
           intros n Hin Hn'. apply list_elem_of_singleton in Hn'. subst n.
           apply Hout in Hin as [Hin (s & Hs & Hsn & Hso)].
           apply list_elem_of_lookup_1 in Hs as [i Hs].
           assert (i = j) by (eapply Hd; eauto; congruence). subst i.
           assert (s = r) by congruence. subst s.
           unfold opens in Hod.
           rewrite bool_decide_eq_true_2 in Hod by (rewrite Hn; exact Hin).
           rewrite Hx in Hso. cbn in Hod. congruence.
      * (* the room stays as it is *)
        assert (Hsame : opens (done ++ [x]) r = opens done r).
        { rewrite opens_snoc, (bool_decide_eq_true_2 _ Hn). cbn.
          destruct (opens done r) eqn:E; [reflexivity|].
          unfold opened in Hc. rewrite E in Hc. cbn. exact Hc. }
        split; [|split].
        -- apply list_fmap_ext. intros i s Hs. unfold opened.
           destruct (decide (i = j)) as [->|Hij].
           ++ assert (s = r) by congruence. subst s. rewrite Hsame. reflexivity.
           ++ rewrite (Hother i s Hs Hij). reflexivity.
        -- intros n. rewrite Hout, elem_of_app, list_elem_of_singleton.
           split; [intros [H1 H2]; auto|].
           intros [[H1|Hnx] H2]; [auto|subst n].
           split; [|exact H2].
           destruct H2 as (s & Hs & Hsn & Hso).
           apply list_elem_of_lookup_1 in Hs as [i Hs].
           assert (i = j) by (eapply Hd; eauto; congruence). subst i.
           assert (s = r) by congruence. subst s.
           rewrite Hx in Hso.
           destruct (opens done r) eqn:E.
           ++ unfold opens in E. apply andb_true_iff in E as [E _].
              apply andb_true_iff in E as [E _].
              apply bool_decide_eq_true in E. rewrite Hn in E. exact E.
           ++ unfold opened in Hc. rewrite E in Hc. congruence.
        -- exact Hnd.
    + (* no room carries the number *)
      assert (Hother : forall i s, rs !! i = Some s ->
                opens (done ++ [x]) s = opens done s).
      { intros i s Hs. apply opens_snoc_other. eapply find_room_None; eauto. }
      split; [|split].
      * apply list_fmap_ext. intros i s Hs. unfold opened.
        rewrite (Hother i s Hs). reflexivity.
      * intros n. rewrite Hout, elem_of_app, list_elem_of_singleton.
        split; [intros [H1 H2]; auto|].
        intros [[H1|Hnx] H2]; [auto|subst n].
        destruct H2 as (s & Hs & Hsn & _).
        apply list_elem_of_lookup_1 in Hs as [i Hs].
        exfalso. eapply find_room_None; eauto.
      * exact Hnd.
Qed.

Lemma alter_as_fmap (f : Room -> Room) (rs : list Room) (n : Z) (i : nat)
  (room : Room) :
  distinct_numbers rs -> rs !! i = Some room -> room_number room = n ->
  alter f i rs = (fun r => if bool_decide (room_number r = n) then f r else r) <$> rs.
Proof.
  intros Hd Hr Hn. apply list_eq. intros j. rewrite list_lookup_fmap.
  destruct (decide (j = i)) as [->|Hne].
  - rewrite list_lookup_alter_eq, Hr. cbn.
    rewrite (bool_decide_eq_true_2 _ Hn). reflexivity.
  - rewrite list_lookup_alter_ne by auto.
    destruct (rs !! j) as [s|] eqn:Hs; [|reflexivity]. cbn.
    rewrite bool_decide_eq_false_2; [reflexivity|].
    intros Hsn. apply Hne. eapply Hd; eauto. congruence.
Qed.

Lemma distinct_numbers_fmap (f : Room -> Room) (rs : list Room) :
  (forall r, room_number (f r) = room_number r) ->
  distinct_numbers rs -> distinct_numbers (f <$> rs).
Proof.
  intros Hf Hd i j r s Hr Hs Heq.
  apply list_lookup_fmap_Some in Hr as (r0 & -> & Hr0).
  apply list_lookup_fmap_Some in Hs as (s0 & -> & Hs0).
  rewrite !Hf in Heq. eapply Hd; eauto.
Qed.

Lemma after_clear_number (n : Z) (conns : list Z) (r : Room) :
  room_number (after_clear n conns r) = room_number r.
Proof.
  unfold after_clear. destruct (opens conns r), (bool_decide (room_number r = n));
    reflexivity.
Qed.

Lemma after_unlock_number (n : Z) (r : Room) :
  room_number (after_unlock n r) = room_number r.
Proof. unfold after_unlock. destruct (bool_decide (room_number r = n)); reflexivity. Qed.

(** [clearRoom] on a map with distinct room numbers, when the room
    exists: the map it leaves and the list it returns. *)
Lemma clearRoom_rooms (fm : FloorMap) (n : Z) (i : nat) (room : Room) :
  distinct_numbers (rooms fm) ->
  find_room (rooms fm) n = Some (i, room) ->
  rooms (fst (clearRoom fm n)) = after_clear n (connections room) <$> rooms fm
  /\ (forall m, m ∈ snd (clearRoom fm n) <->
        m ∈ connections room
        /\ exists r, r ∈ rooms fm /\ room_number r = m /\ opens [m] r = true)
  /\ NoDup (snd (clearRoom fm n)).
Proof.
  intros Hd Hfind. unfold clearRoom. rewrite Hfind. cbn [fst snd rooms].
  destruct (find_room_Some _ _ _ _ Hfind) as [Hr Hn].
  rewrite (alter_as_fmap _ _ n i room Hd Hr Hn).
  set (clr := fun r => if bool_decide (room_number r = n) then set_is_cleared true r else r).
  assert (Hclr_n : forall r, room_number (clr r) = room_number r).
  { intros r. unfold clr. destruct (bool_decide _); reflexivity. }
  assert (Hclr_o : forall c r, opens c (clr r) = opens c r).
  { intros c r. unfold clr. destruct (bool_decide _); reflexivity. }
  destruct (clear_loop (clr <$> rooms fm) (connections room)
              (distinct_numbers_fmap _ _ Hclr_n Hd)) as (H1 & H2 & H3).
  split; [|split].
  - rewrite H1, <- list_fmap_compose. apply list_fmap_ext.
    intros j r _. unfold compose, opened, after_clear. fold (clr r).
    rewrite Hclr_o. reflexivity.
  - intros m. rewrite H2. split; intros [Hm (r & Hin & Hrn & Ho)]; (split; [exact Hm|]).
    + apply list_elem_of_fmap in Hin as (r0 & -> & Hin).
      exists r0. rewrite Hclr_n in Hrn. rewrite Hclr_o in Ho. auto.
    + exists (clr r). rewrite Hclr_n, Hclr_o.
      split; [apply list_elem_of_fmap_2; exact Hin | auto].
  - exact H3.
Qed.

Lemma clearRoom_missing (fm : FloorMap) (n : Z) :
  find_room (rooms fm) n = None -> clearRoom fm n = (fm, []).
Proof. intros H. unfold clearRoom. rewrite H. reflexivity. Qed.

Lemma unlockRoom_rooms (fm : FloorMap) (n : Z) :
  distinct_numbers (rooms fm) ->
  rooms (unlockRoom fm n) = after_unlock n <$> rooms fm.
Proof.
  intros Hd. unfold unlockRoom.
  destruct (find_room (rooms fm) n) as [[i room]|] eqn:Hfind.
  - destruct (find_room_Some _ _ _ _ Hfind) as [Hr Hn]. cbn [rooms].
    rewrite (alter_as_fmap _ _ n i room Hd Hr Hn). reflexivity.
  - symmetry. etrans; [|apply list_fmap_id]. apply list_fmap_ext.
    intros j r Hr. unfold after_unlock.
    rewrite bool_decide_eq_false_2; [reflexivity|].
    eapply find_room_None; eauto.
Qed.

Lemma tracked_distinct (ops : list Op) (rs0 rs : list Room) :
  Forall2 (tracked ops) rs0 rs -> distinct_numbers rs0 -> distinct_numbers rs.
Proof.
  intros HF Hd i j r s Hr Hs Heq.
  destruct (Forall2_lookup_r _ _ _ _ _ HF Hr) as (r0 & Hr0 & (N1 & _)).
  destruct (Forall2_lookup_r _ _ _ _ _ HF Hs) as (s0 & Hs0 & (N2 & _)).
  eapply Hd; eauto. congruence.
Qed.

Lemma tracked_clear (ops : list Op) (n : Z) (conns : list Z) (r0 r : Room) :
  tracked ops r0 r ->
  tracked (ops ++ [op_clearRoom n]) r0 (after_clear n conns r).
Proof.
  intros (N & T & C & A1 & A2). unfold tracked, after_clear.
  destruct (opens conns r) eqn:Ho.
  - unfold opens in Ho. apply andb_true_iff in Ho as [Ho Hl].
    apply negb_true_iff in Hl.
    assert (Hnl : type r0 <> Some ty_locked).
    { rewrite <- T. intros E. unfold type_is in Hl.
      rewrite bool_decide_eq_true_2 in Hl by exact E. discriminate. }
    destruct (bool_decide (room_number r = n)); cbn; repeat split; auto.
  - destruct (bool_decide (room_number r = n)); cbn; repeat split; auto;
      intros Ha; destruct (A2 Ha) as [H|[H|H]]; auto;
      right; right; apply elem_of_app; auto.
Qed.

Lemma tracked_unlock (ops : list Op) (n : Z) (r0 r : Room) :
  tracked ops r0 r ->
  tracked (ops ++ [op_unlockRoom n]) r0 (after_unlock n r).
Proof.
  intros (N & T & C & A1 & A2). unfold tracked, after_unlock.
  case_bool_decide as Hn; cbn; repeat split; auto.
  - intros _. right. right. apply elem_of_app. right.
    apply list_elem_of_singleton. congruence.
  - intros Ha. destruct (A2 Ha) as [H|[H|H]]; auto.
    right; right; apply elem_of_app; auto.
Qed.

Lemma tracked_more (ops : list Op) (op : Op) (r0 r : Room) :
  tracked ops r0 r -> tracked (ops ++ [op]) r0 r.
Proof.
  intros (N & T & C & A1 & A2). unfold tracked. repeat split; auto.
  intros Ha. destruct (A2 Ha) as [H|[H|H]]; auto.
  right; right; apply elem_of_app; auto.
Qed.

(** Every sequence of operations keeps the rooms [tracked]. *)
Lemma run_ops_tracked (fm0 : FloorMap) (ops : list Op) :
  distinct_numbers (rooms fm0) ->
  Forall2 (tracked ops) (rooms fm0) (rooms (run_ops fm0 ops)).
Proof.
  intros Hd. induction ops as [|op ops IH] using rev_ind.
  - cbn. apply Forall_Forall2_diag, Forall_forall. intros r _.
    unfold tracked. repeat split; auto.
  - unfold run_ops in *. rewrite foldl_app. cbn [foldl].
    set (mid := foldl apply_op fm0 ops) in *.
    pose proof (tracked_distinct _ _ _ IH Hd) as Hdm.
    destruct op as [n|n]; cbn [apply_op].
    + destruct (find_room (rooms mid) n) as [[i room]|] eqn:Hfind.
      * destruct (clearRoom_rooms mid n i room Hdm Hfind) as [-> _].
        apply Forall2_fmap_r. eapply Forall2_impl; [exact IH|].
        intros r0 r H. apply tracked_clear. exact H.
      * rewrite (clearRoom_missing mid n Hfind). cbn [fst].
        eapply Forall2_impl; [exact IH|]. intros r0 r H.
        apply tracked_more. exact H.
    + rewrite (unlockRoom_rooms mid n Hdm).
      apply Forall2_fmap_r. eapply Forall2_impl; [exact IH|].
      intros r0 r H. apply tracked_unlock. exact H.
Qed.

(** Rooms numbered by their position have distinct numbers. *)
Lemma numbered_distinct (rs : list Room) :
  (forall i r, rs !! i = Some r -> room_number r = Z.of_nat i + 1) ->
  distinct_numbers rs.
Proof.
  intros H i j r s Hr Hs Heq.
  apply H in Hr. apply H in Hs. lia.
Qed.

(** A chain of connections from each room to the next makes every room
    reachable from room 1. *)
Lemma chain_connected (fm : FloorMap) :
  (forall i r, rooms fm !! i = Some r ->
     room_number r = Z.of_nat i + 1
     /\ ((S i < length (rooms fm))%nat -> Z.of_nat i + 2 ∈ connections r)) ->
  connected fm.
Proof.
  intros H.
  assert (Hp : forall i, (i < length (rooms fm))%nat -> path fm 1 (Z.of_nat i + 1)).
  { induction i as [|i IH]; intros Hlt.
    - apply path_here.
    - assert (Hi : (i < length (rooms fm))%nat) by lia.
      destruct (lookup_lt_is_Some_2 _ _ Hi) as [r Hr].
      destruct (H i r Hr) as [N C].
      eapply path_step; [apply IH; exact Hi|].
      exists r. split; [eapply list_elem_of_lookup_2; eauto|].
      split; [exact N|].
      replace (Z.of_nat (S i) + 1) with (Z.of_nat i + 2) by lia. auto. }
  intros r Hr. apply list_elem_of_lookup_1 in Hr as [i Hr].
  destruct (H i r Hr) as [-> _]. apply Hp. eapply lookup_lt_Some; eauto.
Qed.

(** C3. On every generated floor, and after any sequence of [clearRoom]
    and [unlockRoom] operations on it: room 1 is accessible; every room
    is reachable from room 1 along connections; and a room of type
    [locked] is inaccessible unless [unlockRoom] was applied to it. *)
Theorem generated_floor_invariants (rnd : nat -> Q) (d : Dungeon) (f : Z)
  (fin : bool) (rules : list EnemyRule) (c : nat) (ops : list Op) :
  unit_interval rnd -> 1 <= f ->
  let fm := run_ops (fst (generateFloor rnd d f fin rules c)) ops in
  (exists r, getCurrentRoom fm 1 = Some r /\ is_accessible r = true)
  /\ connected fm
  /\ (forall r, r ∈ rooms fm -> type r = Some ty_locked ->
        op_unlockRoom (room_number r) ∉ ops -> is_accessible r = false).
Proof.
  intros Hu Hf fm.
  set (fm0 := fst (generateFloor rnd d f fin rules c)) in *.
  destruct (generateFloor_lookup rnd d f fin rules c Hu Hf) as [Hcount Hgen].
  fold fm0 in Hcount, Hgen.
  destruct (roomCount_of_bounds rnd f c Hu Hf) as [_ Hge].
  assert (Hd0 : distinct_numbers (rooms fm0)).
  { apply numbered_distinct. intros i r Hr. apply (Hgen i r Hr). }
  pose proof (run_ops_tracked fm0 ops Hd0) as HT. fold fm in HT.
  pose proof (tracked_distinct _ _ _ HT Hd0) as Hd.
  pose proof (Forall2_length _ _ _ HT) as Hlen.
  split; [|split].
  - assert (H0 : (0 < length (rooms fm0))%nat).
    { unfold room_count in Hcount. lia. }
    destruct (lookup_lt_is_Some_2 _ _ H0) as [r0 Hr0].
    destruct (Forall2_lookup_l _ _ _ _ _ HT Hr0) as (r & Hr & (N & _ & _ & A & _)).
    destruct (Hgen _ _ Hr0) as (N0 & A0 & _).
    destruct (A0 eq_refl) as [Ha _].
    exists r. split; [|auto].
    unfold getCurrentRoom.
    rewrite (find_room_distinct (rooms fm) 1 0%nat r Hd Hr); [reflexivity|].
    rewrite N, N0. reflexivity.
  - apply chain_connected. intros i r Hr.
    destruct (Forall2_lookup_r _ _ _ _ _ HT Hr) as (r0 & Hr0 & (N & _ & C & _)).
    destruct (Hgen _ _ Hr0) as (N0 & _ & _ & C0).
    rewrite N, C, <- Hlen. auto.
  - intros r Hr Hty Hnot.
    apply list_elem_of_lookup_1 in Hr as [i Hr].
    destruct (Forall2_lookup_r _ _ _ _ _ HT Hr) as (r0 & Hr0 & (N & T & _ & _ & A)).
    destruct (is_accessible r) eqn:E; [|reflexivity]. exfalso.
    destruct (Hgen _ _ Hr0) as (_ & A0 & A1 & _).
    destruct (A eq_refl) as [H|[H|H]].
    + destruct (decide (i = 0%nat)) as [->|Hne].
      * destruct (A0 eq_refl) as [_ T0]. congruence.
      * rewrite (A1 Hne) in H. discriminate.
    + congruence.
    + rewrite <- N in H. contradiction.
Qed.

(** The oracle that always answers one half is well formed. *)
Lemma half_unit_interval : unit_interval (fun _ => 1 # 2).
Proof. intros n. split; [discriminate | reflexivity]. Defined.

(** The invariants on floor 1 of the sample dungeon, after room 1 is
    cleared and room 3 unlocked. *)
Lemma generated_floor_invariants_witness :
  unit_interval (fun _ => 1 # 2) /\ 1 <= 1
  /\ (let fm :=
        run_ops (fst (generateFloor (fun _ => 1 # 2) sample_dungeon 1 false [] 0%nat))
          [op_clearRoom 1; op_unlockRoom 3] in
      (exists r, getCurrentRoom fm 1 = Some r /\ is_accessible r = true)
      /\ connected fm
      /\ (forall r, r ∈ rooms fm -> type r = Some ty_locked ->
            op_unlockRoom (room_number r) ∉ [op_clearRoom 1; op_unlockRoom 3] ->
            is_accessible r = false)).
Proof.
  split; [exact half_unit_interval|]. split; [lia|].
  apply (generated_floor_invariants (fun _ => 1 # 2) sample_dungeon 1 false []
           0%nat [op_clearRoom 1; op_unlockRoom 3] half_unit_interval).
  lia.
Defined.

(** C5, as stated, fails: with draws of 0.9 the variance [roll(3) - 1]
    is 2, and floor 1 gets 6 rooms, more than [base + 1 = 5]. *)
Lemma generateFloor_room_count_counterexample :
  unit_interval (fun _ => 9 # 10)
  /\ (let n := room_count (fst (generateFloor (fun _ => 9 # 10) sample_dungeon
                                 1 false [] 0%nat)) in
      let base := 4 + 1 / 2 in
      n = 6 /\ ~ (base - 1 <= n <= base + 1)).
Proof.
  split.
  - intros n. split; [discriminate | reflexivity].
  - assert (E : room_count (fst (generateFloor (fun _ => 9 # 10) sample_dungeon
                                   1 false [] 0%nat)) = 6)
      by (vm_compute; reflexivity).
    cbv zeta. rewrite E. split; [reflexivity|].
    change (4 + 1 / 2) with 4. lia.
Qed.

(** The count on the final floor 3 of the sample dungeon. *)
Lemma generateFloor_room_count_witness :
  unit_interval (fun _ => 1 # 2) /\ 1 <= 3
  /\ (let base := 4 + 3 / 2 in
      base <= room_count (fst (generateFloor (fun _ => 1 # 2) sample_dungeon
                                 3 true [] 0%nat)) <= base + 2).
Proof.
  split; [exact half_unit_interval|]. split; [lia|].
  apply (generateFloor_room_count (fun _ => 1 # 2) sample_dungeon 3 true []
           0%nat half_unit_interval).
  lia.
Defined.

(** Clearing room 1 of the hand-made map opens room 2 and leaves the
    locked room 3 closed; unlocking room 3 opens it. *)
Example clearRoom_sample :
  snd (clearRoom sample_map 1) = [2]
  /\ (fun r => (room_number r, is_cleared r, is_accessible r))
       <$> rooms (fst (clearRoom sample_map 1))
     = [(1, true, true); (2, false, true); (3, false, false)]
  /\ (fun r => (room_number r, is_accessible r, is_picked <$> lock r))
       <$> rooms (unlockRoom (fst (clearRoom sample_map 1)) 3)
     = [(1, true, None); (2, true, None); (3, true, Some true)].
Proof. vm_compute. repeat split. Qed.

(** A floor generated with every draw equal to 0.1: four rooms on the
    primary path 1-2-3-4 and one branch between rooms 2 and 4. *)
Example generateFloor_sample :
  (fun r => (room_number r, type r, is_accessible r, connections r))
    <$> rooms (fst (generateFloor (fun _ => 1 # 10) sample_dungeon 1 false []
                      0%nat))
  = [ (1, Some ty_standard, true, [2]);
      (2, Some ty_standard, false, [1; 3; 4]);
      (3, Some ty_standard, false, [2; 4]);
      (4, Some ty_standard, false, [3; 2]) ].
Proof. vm_compute. reflexivity. Qed.

(** C9. On a floor map whose rooms carry distinct numbers, clearing an
    existing room [n] marks it cleared, makes accessible exactly the
    rooms that are listed in its connections, are not of type [locked]
    and were not accessible, leaves every other field of every room as it
    was, and returns the numbers of exactly the rooms it made
    accessible, each once. *)
Theorem clearRoom_frame (fm : FloorMap) (n : Z) (room : Room) :
  distinct_numbers (rooms fm) ->
  getCurrentRoom fm n = Some room ->
  let fm' := fst (clearRoom fm n) in
  let newlyAccessible := snd (clearRoom fm n) in
  rooms fm' = after_clear n (connections room) <$> rooms fm
  /\ (forall r', r' ∈ rooms fm' -> room_number r' = n -> is_cleared r' = true)
  /\ (forall i r r', rooms fm !! i = Some r -> rooms fm' !! i = Some r' ->
        (is_accessible r' <> is_accessible r <->
           room_number r ∈ connections room
           /\ type r <> Some ty_locked /\ is_accessible r = false)
        /\ (is_accessible r' <> is_accessible r -> is_accessible r' = true))
  /\ (forall m, m ∈ newlyAccessible <->
        exists r, r ∈ rooms fm /\ room_number r = m
                  /\ m ∈ connections room
                  /\ type r <> Some ty_locked /\ is_accessible r = false)
  /\ NoDup newlyAccessible.
Proof.
  intros Hd Hget fm' newly. subst fm' newly.
  unfold getCurrentRoom in Hget.
  destruct (find_room (rooms fm) n) as [[i0 room0]|] eqn:Hfind; [|discriminate].
  cbn in Hget. injection Hget as ->.
  destruct (clearRoom_rooms fm n i0 room Hd Hfind) as (Hrooms & Hout & Hnd).
  assert (Hopens : forall conns r, opens conns r = true <->
            room_number r ∈ conns /\ type r <> Some ty_locked
            /\ is_accessible r = false).
  { intros conns r. unfold opens, type_is.
    rewrite !andb_true_iff, !negb_true_iff, bool_decide_eq_true, bool_decide_eq_false.
    tauto. }
  split; [exact Hrooms|]. split; [|split; [|split; [|exact Hnd]]].
  - intros r' Hr' Hn. rewrite Hrooms in Hr'.
    apply list_elem_of_fmap in Hr' as (r & -> & _).
    rewrite after_clear_number in Hn. unfold after_clear.
    rewrite (bool_decide_eq_true_2 _ Hn).
    destruct (opens (connections room) r); reflexivity.
  - intros i r r' Hr Hr'. rewrite Hrooms, list_lookup_fmap, Hr in Hr'.
    cbn in Hr'. injection Hr' as <-.
    assert (Hacc : is_accessible (after_clear n (connections room) r)
                   = is_accessible r || opens (connections room) r).
    { unfold after_clear.
      destruct (opens (connections room) r), (bool_decide (room_number r = n));
        cbn; rewrite ?orb_true_r, ?orb_false_r; reflexivity. }
    rewrite Hacc. rewrite <- Hopens.
    destruct (opens (connections room) r) eqn:Ho.
    + apply Hopens in Ho as (_ & _ & ->). cbn. split; [split; auto|auto].
    + rewrite orb_false_r. split; [split; [congruence|discriminate]|congruence].
  - intros m. rewrite Hout. split.
    + intros (Hm & r & Hr & Hrn & Ho). exists r.
      apply Hopens in Ho as (_ & Hl & Ha). auto.
    + intros (r & Hr & Hrn & Hm & Hl & Ha). split; [exact Hm|].
      exists r. split; [exact Hr|]. split; [exact Hrn|].
      apply Hopens. split; [|auto]. rewrite Hrn. apply list_elem_of_singleton.
      reflexivity.
Qed.

(** The rooms of the hand-made map carry distinct numbers. *)
Lemma sample_map_distinct : distinct_numbers (rooms sample_map).
Proof.
  apply numbered_distinct. intros i r Hr.
  destruct i as [|[|[|i]]]; cbn in Hr; try discriminate;
    injection Hr as <-; reflexivity.
Defined.

(** Clearing room 1 of the hand-made map. *)
Lemma clearRoom_frame_witness :
  distinct_numbers (rooms sample_map)
  /\ getCurrentRoom sample_map 1 = Some (sample_room 1 ty_standard true [2; 3])
  /\ (let fm' := fst (clearRoom sample_map 1) in
      let newlyAccessible := snd (clearRoom sample_map 1) in
      rooms fm' = after_clear 1 [2; 3] <$> rooms sample_map
      /\ (forall r', r' ∈ rooms fm' -> room_number r' = 1 -> is_cleared r' = true)
      /\ (forall i r r', rooms sample_map !! i = Some r -> rooms fm' !! i = Some r' ->
            (is_accessible r' <> is_accessible r <->
               room_number r ∈ [2; 3]
               /\ type r <> Some ty_locked /\ is_accessible r = false)
            /\ (is_accessible r' <> is_accessible r -> is_accessible r' = true))
      /\ (forall m, m ∈ newlyAccessible <->
            exists r, r ∈ rooms sample_map /\ room_number r = m
                      /\ m ∈ [2; 3]
                      /\ type r <> Some ty_locked /\ is_accessible r = false)
      /\ NoDup newlyAccessible).
Proof.
  split; [exact sample_map_distinct|]. split; [reflexivity|].
  exact (clearRoom_frame sample_map 1 (sample_room 1 ty_standard true [2; 3])
           sample_map_distinct eq_refl).
Defined.

End FloorProps.

(** * Properties of loot.js *)

Module LootProps.

Import Loot LootSpec.

Lemma has_item_id_false (drops : list Drop) (id : Z) :
  has_item_id drops id = false <-> id ∉ item_ids drops.
Proof.
  unfold has_item_id, item_ids. induction drops as [|d l IH]; cbn.
  - split; [intros _; apply not_elem_of_nil | reflexivity].
  - rewrite orb_false_iff, IH, not_elem_of_cons, Z.eqb_neq.
    split; intros [H1 H2]; split; auto.
Qed.

Lemma weighted_scan_in {A : Type} (roll : Q) (pool : list (Dice.PoolEntry A))
  (x : A) :
  Dice.weighted_scan roll pool = Some x -> exists e, e ∈ pool /\ Dice.item e = x.
Proof.
  revert roll. induction pool as [|e pool IH]; intros roll; cbn; [discriminate|].
  destruct (Js.Qleb _ 0).
  - intros [= <-]. exists e. split; [left | reflexivity].
  - intros H. destruct (IH _ H) as (e' & Hin & He). exists e'. split; [right|]; auto.
Qed.

(** What [weightedRandom] returns is an item of the pool. *)
Lemma weightedRandom_in {A : Type} (rnd : nat -> Q)
  (pool : list (Dice.PoolEntry A)) (c : nat) (x : A) :
  fst (Dice.weightedRandom rnd pool c) = Some x ->
  exists e, e ∈ pool /\ Dice.item e = x.
Proof.
  unfold Dice.weightedRandom.
  destruct (Js.Qleb _ 0); [discriminate|].
  unfold bind, Math_random. cbn [fst snd].
  destruct (Dice.weighted_scan _ pool) as [y|] eqn:Hs; cbn [ret fst].
  - intros [= <-]. eapply weighted_scan_in; eauto.
  - destruct (last pool) as [e|] eqn:Hl; cbn; [|discriminate].
    intros [= <-]. exists e. split; [|reflexivity].
    apply last_Some in Hl as [l' ->]. apply elem_of_app. right. left.
Qed.

Lemma foldM_cons {A B : Type} (f : B -> A -> Rand B) (x : A) (l : list A)
  (b : B) (c : nat) :
  foldM f (x :: l) b c = foldM f l (fst (f b x c)) (snd (f b x c)).
Proof. reflexivity. Qed.

Section WithRandom.

Variable rnd : nat -> Q.

Lemma guaranteed_step_keeps (context : Context) (drops : list Drop)
  (rule : LootRule) (d : Drop) :
  d ∈ drops -> d ∈ guaranteed_step context drops rule.
Proof.
  intros H. unfold guaranteed_step.
  destruct (checkCondition rule context); [|exact H].
  destruct (_ && _); [exact H|]. apply elem_of_app. auto.
Qed.

Lemma guaranteed_step_fires (context : Context) (drops : list Drop)
  (rule : LootRule) :
  fires context rule ->
  makeDrop rule (requires_perception rule) ∈ guaranteed_step context drops rule.
Proof.
  intros [Hc Hp]. unfold guaranteed_step. rewrite Hc.
  assert (E : truthy (requires_perception rule) && negb (checkPerception rule context)
              = false).
  { unfold checkPerception. destruct Hp as [-> | Hp]; [reflexivity|].
    destruct (truthy (requires_perception rule)); [|reflexivity]. cbn.
    apply negb_false_iff, Z.leb_le. exact Hp. }
  rewrite E. apply elem_of_app. right. left.
Qed.

Lemma guaranteed_loop_keeps (context : Context) (rules : list LootRule)
  (drops : list Drop) (d : Drop) :
  d ∈ drops -> d ∈ foldl (guaranteed_step context) drops rules.
Proof.
  revert drops. induction rules as [|r rules IH]; intros drops H; cbn; [exact H|].
  apply IH, guaranteed_step_keeps, H.
Qed.

Lemma guaranteed_loop_fires (context : Context) (rules : list LootRule)
  (drops : list Drop) (rule : LootRule) :
  rule ∈ rules -> fires context rule ->
  makeDrop rule (requires_perception rule)
    ∈ foldl (guaranteed_step context) drops rules.
Proof.
  revert drops. induction rules as [|r rules IH]; intros drops Hin Hf.
  - inversion Hin.
  - cbn. apply elem_of_cons in Hin as [->|Hin].
    + apply guaranteed_loop_keeps, guaranteed_step_fires, Hf.
    + apply IH; assumption.
Qed.

(** The weighted draws add to the drops [g] they start from a list [w]
    of at most one drop per draw, each made from a rule of the pool, with
    identifiers that are pairwise distinct and absent from [g]. *)
Lemma weighted_loop (eligibleWeighted : list LootRule) (steps : list nat)
  (g : list Drop) (c : nat) :
  exists w,
    fst (foldM (weighted_step rnd eligibleWeighted) steps g c) = g ++ w
    /\ (length w <= length steps)%nat
    /\ (forall d, d ∈ w -> exists r, r ∈ eligibleWeighted
                                     /\ d = makeDrop r (requires_perception r))
    /\ NoDup (item_ids w)
    /\ (forall d, d ∈ w -> d_item_id d ∉ item_ids g).
Proof.
  revert g c. induction steps as [|i steps IH]; intros g c.
  - exists []. cbn. rewrite app_nil_r.
    split; [reflexivity|]. split; [lia|]. split; [intros d H; inversion H|].
    split; [constructor | intros d H; inversion H].
  - rewrite foldM_cons.
    set (st := weighted_step rnd eligibleWeighted g i c).
    assert (Hst : fst st = g
                  \/ exists r, r ∈ eligibleWeighted
                       /\ fst st = g ++ [makeDrop r (requires_perception r)]
                       /\ item_id r ∉ item_ids g).
    { subst st. unfold weighted_step, bind. cbn [fst snd].
      destruct (fst (Dice.weightedRandom rnd (loot_pool eligibleWeighted) c))
        as [sel|] eqn:Hsel; [|left; reflexivity].
      destruct (has_item_id g (item_id sel)) eqn:Hhas; [left; reflexivity|].
      right. exists sel. split; [|split; [reflexivity|]].
      - apply weightedRandom_in in Hsel as (e & He & <-).
        unfold loot_pool in He. apply list_elem_of_fmap in He as (r & -> & Hr).
        exact Hr.
      - apply has_item_id_false. exact Hhas. }
    destruct (IH (fst st) (snd st)) as (w & Hw & Hlen & Hfrom & Hnd & Hfresh).
    destruct Hst as [Hg | (r & Hr & Hg & Hnew)]; rewrite Hg in Hw, Hfresh |- *.
    + exists w. split; [exact Hw|]. split; [cbn; lia|]. auto.
    + exists (makeDrop r (requires_perception r) :: w).
      split; [rewrite Hw, <- app_assoc; reflexivity|].
      split; [cbn; lia|]. split; [|split].
      * intros d Hd. apply elem_of_cons in Hd as [->|Hd]; [eauto|auto].
      * cbn. constructor; [|exact Hnd].
        intros Hin. unfold item_ids in Hin.
        apply list_elem_of_fmap in Hin as (d & Hid & Hd).
        apply (Hfresh d Hd). unfold item_ids. rewrite fmap_app.
        apply elem_of_app. right. cbn. rewrite <- Hid. left.
      * intros d Hd. apply elem_of_cons in Hd as [->|Hd]; [exact Hnew|].
        intros Hin. apply (Hfresh d Hd). unfold item_ids in *. rewrite fmap_app.
        apply elem_of_app. left. exact Hin.
Qed.

(** C6. A rule of drop type [guaranteed] whose condition holds and whose
    perception gate is met (no perception required, or a perception level
    of at least the rule's DC minus 5) has its item among the drops that
    [resolveLoot] returns; in particular so has a guaranteed rule that
    requires no perception and whose condition holds. *)
Theorem guaranteed_rule_drops (table : list LootRule) (sourceType : SourceType)
  (sourceId : Z) (context : Context) (c : nat) (rule : LootRule) :
  rule ∈ getLootRulesForSource table sourceType sourceId ->
  drop_type rule = guaranteed ->
  checkCondition rule context = true ->
  truthy (requires_perception rule) = false
  \/ perception_dc_of rule - 5 <= perception_level_of context ->
  let drops := fst (resolveLoot rnd table sourceType sourceId context c) in
  makeDrop rule (requires_perception rule) ∈ drops
  /\ item_id rule ∈ item_ids drops.
Proof.
  intros Hin Hty Hc Hp drops.
  assert (H : makeDrop rule (requires_perception rule) ∈ drops).
  { subst drops. unfold resolveLoot.
    set (rules := getLootRulesForSource table sourceType sourceId) in *.
    destruct rules as [|r0 rules'] eqn:Hrules; [inversion Hin|].
    rewrite <- Hrules in *. clear Hrules.
    set (g := foldl (guaranteed_step context) [] _).
    assert (Hg : makeDrop rule (requires_perception rule) ∈ g).
    { subst g. apply guaranteed_loop_fires; [|split; assumption].
      apply list_elem_of_filter. split; assumption. }
    match goal with
    | |- context [match ?l with [] => _ | _ :: _ => _ end] =>
        destruct l as [|e el] eqn:Hel
    end; [exact Hg|].
    destruct (weighted_loop (e :: el) (seq 0 (rollCount_of sourceType)) g c)
      as (w & -> & _).
    apply elem_of_app. left. exact Hg. }
  split; [exact H|].
  unfold item_ids. apply list_elem_of_fmap. eexists. split; [|exact H]. reflexivity.
Qed.

(** C7 (as the code has it). For a [chest] or [boss] source the returned
    drops are the drops of the guaranteed rules followed by at most 2
    drops drawn from the eligible weighted rules; the identifiers of the
    drawn drops are pairwise distinct and differ from those of the
    guaranteed drops, so the returned list has no duplicate identifier
    whenever the guaranteed drops have none. *)
Theorem resolveLoot_weighted_draws (table : list LootRule)
  (sourceType : SourceType) (sourceId : Z) (context : Context) (c : nat) :
  sourceType = src_chest \/ sourceType = src_boss ->
  let g := guaranteed_drops table sourceType sourceId context in
  exists w,
    fst (resolveLoot rnd table sourceType sourceId context c) = g ++ w
    /\ (length w <= 2)%nat
    /\ (forall d, d ∈ w ->
          exists r, r ∈ getLootRulesForSource table sourceType sourceId
                    /\ drop_type r = weighted /\ eligible context r = true
                    /\ d = makeDrop r (requires_perception r))
    /\ NoDup (item_ids w)
    /\ (forall d, d ∈ w -> d_item_id d ∉ item_ids g)
    /\ (NoDup (item_ids g) -> NoDup (item_ids (g ++ w))).
Proof.
  intros Hsrc g. subst g. unfold guaranteed_drops, resolveLoot.
  set (rules := getLootRulesForSource table sourceType sourceId).
  assert (Hnone : exists w : list Drop,
            foldl (guaranteed_step context) []
              (filter (fun r => drop_type r = guaranteed) rules)
            = foldl (guaranteed_step context) []
                (filter (fun r => drop_type r = guaranteed) rules) ++ w
            /\ (length w <= 2)%nat
            /\ (forall d, d ∈ w ->
                  exists r, r ∈ rules /\ drop_type r = weighted
                            /\ eligible context r = true
                            /\ d = makeDrop r (requires_perception r))
            /\ NoDup (item_ids w)
            /\ (forall d, d ∈ w ->
                  d_item_id d ∉ item_ids
                    (foldl (guaranteed_step context) []
                       (filter (fun r => drop_type r = guaranteed) rules)))
            /\ (NoDup (item_ids
                         (foldl (guaranteed_step context) []
                            (filter (fun r => drop_type r = guaranteed) rules))) ->
                NoDup (item_ids
                         (foldl (guaranteed_step context) []
                            (filter (fun r => drop_type r = guaranteed) rules)
                          ++ w)))).
  { exists []. rewrite app_nil_r. split; [reflexivity|]. split; [cbn; lia|].
    split; [intros d H; inversion H|]. split; [constructor|].
    split; [intros d H; inversion H | auto]. }
  destruct rules as [|r0 rules'] eqn:Hrules.
  { exists []. cbn. split; [reflexivity|]. split; [lia|].
    split; [intros d H; inversion H|]. split; [constructor|].
    split; [intros d H; inversion H | auto]. }
  rewrite <- Hrules in *. clear Hrules r0 rules'.
  set (g := foldl (guaranteed_step context) [] _) in *.
  set (el := filter (fun r => eligible context r = true) _).
  destruct el as [|e el'] eqn:Hel; [exact Hnone|].
  rewrite <- Hel. clear Hnone.
  destruct (weighted_loop el (seq 0 (rollCount_of sourceType)) g c)
    as (w & Hw & Hlen & Hfrom & Hnd & Hfresh).
  exists w. split; [exact Hw|].
  split.
  { rewrite length_seq in Hlen.
    destruct Hsrc as [-> | ->]; cbn in Hlen; exact Hlen. }
  split.
  { intros d Hd. destruct (Hfrom d Hd) as (r & Hr & ->).
    exists r. subst el. apply list_elem_of_filter in Hr as [He Hr].
    apply list_elem_of_filter in Hr as [Hty Hr]. auto. }
  split; [exact Hnd|]. split; [exact Hfresh|].
  intros Hg. unfold item_ids. rewrite fmap_app. apply NoDup_app.
  split; [exact Hg|]. split; [|exact Hnd].
  intros x Hx Hxw. apply list_elem_of_fmap in Hxw as (d & -> & Hd).
  exact (Hfresh d Hd Hx).
Qed.

End WithRandom.

(** The guaranteed key of the sample chest. *)
Lemma guaranteed_rule_drops_witness :
  plain_rule src_chest 1 7 guaranteed 0
    ∈ getLootRulesForSource sample_table src_chest 1
  /\ drop_type (plain_rule src_chest 1 7 guaranteed 0) = guaranteed
  /\ checkCondition (plain_rule src_chest 1 7 guaranteed 0) empty_context = true
  /\ (truthy (requires_perception (plain_rule src_chest 1 7 guaranteed 0)) = false
      \/ perception_dc_of (plain_rule src_chest 1 7 guaranteed 0) - 5
         <= perception_level_of empty_context)
  /\ (let drops :=
        fst (resolveLoot (fun _ => 1 # 2) sample_table src_chest 1
               empty_context 0%nat) in
      makeDrop (plain_rule src_chest 1 7 guaranteed 0) 0 ∈ drops
      /\ 7 ∈ item_ids drops).
Proof.
  assert (Hin : plain_rule src_chest 1 7 guaranteed 0
                  ∈ getLootRulesForSource sample_table src_chest 1)
    by (vm_compute; left).
  split; [exact Hin|]. split; [reflexivity|]. split; [reflexivity|].
  split; [left; reflexivity|].
  exact (guaranteed_rule_drops (fun _ => 1 # 2) sample_table src_chest 1
           empty_context 0%nat (plain_rule src_chest 1 7 guaranteed 0)
           Hin eq_refl eq_refl (or_introl eq_refl)).
Defined.

(** The draws from the sample chest. *)
Lemma resolveLoot_weighted_draws_witness :
  (src_chest = src_chest \/ src_chest = src_boss)
  /\ (let g := guaranteed_drops sample_table src_chest 1 empty_context in
      exists w,
        fst (resolveLoot (fun _ => 1 # 2) sample_table src_chest 1
               empty_context 0%nat) = g ++ w
        /\ (length w <= 2)%nat
        /\ (forall d, d ∈ w ->
              exists r, r ∈ getLootRulesForSource sample_table src_chest 1
                        /\ drop_type r = weighted
                        /\ eligible empty_context r = true
                        /\ d = makeDrop r (requires_perception r))
        /\ NoDup (item_ids w)
        /\ (forall d, d ∈ w -> d_item_id d ∉ item_ids g)
        /\ (NoDup (item_ids g) -> NoDup (item_ids (g ++ w)))).
Proof.
  split; [left; reflexivity|].
  exact (resolveLoot_weighted_draws (fun _ => 1 # 2) sample_table src_chest 1
           empty_context 0%nat (or_introl eq_refl)).
Defined.

(** C7, as stated, fails: two guaranteed rules of one chest that carry
    the same item both fire, and the item is returned twice. *)
Lemma resolveLoot_no_duplicates_counterexample :
  let table :=
    [ plain_rule src_chest 1 7 guaranteed 0;
      plain_rule src_chest 1 7 guaranteed 0 ] in
  let drops :=
    fst (resolveLoot (fun _ => 1 # 2) table src_chest 1 empty_context 0%nat) in
  item_ids drops = [7; 7] /\ ~ NoDup (item_ids drops).
Proof.
  cbv zeta.
  assert (E : item_ids
                (fst (resolveLoot (fun _ => 1 # 2)
                        [ plain_rule src_chest 1 7 guaranteed 0;
                          plain_rule src_chest 1 7 guaranteed 0 ]
                        src_chest 1 empty_context 0%nat)) = [7; 7])
    by (vm_compute; reflexivity).
  rewrite E. split; [reflexivity|].
  intros H. apply NoDup_cons in H as [H _]. apply H. left.
Qed.

End LootProps.

(** * Properties of combat.js *)

Module CombatProps.

Import FloorGenerator Combat CombatSpec.

Section WithRandom.

Variable rnd : nat -> Q.
Variable table : list Loot.LootRule.

(** C8. A call to [damageEnemy] that brings the target's hit points to 0
    or below marks the target dead (with 0 hit points), leaves the other
    enemies as they were, and clears the combat flag of the room state if
    every enemy of the room state is then dead; if an enemy is still
    alive the flag keeps its value. *)
Theorem damageEnemy_kill (target : nat) (damage : Q) (damageType : string)
  (roomState : RoomState) (c : nat) (enemy : Enemy) :
  rs_enemies roomState !! target = Some enemy ->
  hp_current enemy - net_damage enemy damage damageType <= 0 ->
  exists roomState' result,
    fst (damageEnemy rnd table target damage damageType roomState c)
    = Some (roomState', result)
    /\ enemyDied result = true
    /\ rs_enemies roomState'
       = <[target := set_is_dead true (set_hp_current 0 enemy)]>
           (rs_enemies roomState)
    /\ (exists e', rs_enemies roomState' !! target = Some e'
                   /\ is_dead e' = true /\ hp_current e' = 0)
    /\ (all_dead roomState' = true -> is_combat_active roomState' = false)
    /\ (all_dead roomState' = false ->
        is_combat_active roomState' = is_combat_active roomState).
Proof.
  intros He Hhp. unfold damageEnemy. rewrite He.
  fold (net_damage enemy damage damageType).
  apply Z.leb_le in Hhp. rewrite Hhp.
  unfold bind, ret. cbn [fst snd].
  set (es := alter _ target (rs_enemies (set_enemies _ roomState))).
  assert (Hes : es = <[target := set_is_dead true (set_hp_current 0 enemy)]>
                       (rs_enemies roomState)).
  { subst es. cbn [rs_enemies set_enemies]. apply list_eq. intros j.
    destruct (decide (j = target)) as [->|Hne].
    - rewrite list_lookup_alter_eq, list_lookup_alter_eq, He.
      rewrite list_lookup_insert_eq by (eapply lookup_lt_Some; eauto).
      reflexivity.
    - rewrite !list_lookup_alter_ne by auto.
      rewrite list_lookup_insert_ne by auto. reflexivity. }
  match goal with
  | |- context [if ?b then set_is_combat_active false ?s else _] =>
      set (st2 := s); set (dead := b)
  end.
  assert (Hst2 : rs_enemies st2 = es) by reflexivity.
  exists (if dead then set_is_combat_active false st2 else st2).
  eexists. split; [reflexivity|].
  split; [reflexivity|].
  assert (Hen : rs_enemies (if dead then set_is_combat_active false st2 else st2) = es)
    by (destruct dead; reflexivity).
  split; [rewrite Hen; exact Hes|].
  split.
  { exists (set_is_dead true (set_hp_current 0 enemy)).
    rewrite Hen, Hes.
    rewrite list_lookup_insert_eq by (eapply lookup_lt_Some; eauto).
    auto. }
  assert (Hall : all_dead (if dead then set_is_combat_active false st2 else st2) = dead).
  { unfold all_dead. rewrite Hen. reflexivity. }
  rewrite Hall. split; intros ->; reflexivity.
Qed.

End WithRandom.

(** A blunt hit of 8 on the wounded rat: it dies, the other rat lives. *)
Lemma damageEnemy_kill_witness :
  rs_enemies sample_room_state !! 0%nat = Some (sample_enemy 3 false)
  /\ hp_current (sample_enemy 3 false)
     - net_damage (sample_enemy 3 false) 8 "blunt" <= 0
  /\ exists roomState' result,
      fst (damageEnemy (fun _ => 1 # 2) [] 0%nat 8 "blunt" sample_room_state 0%nat)
      = Some (roomState', result)
      /\ enemyDied result = true
      /\ rs_enemies roomState'
         = <[0%nat := set_is_dead true (set_hp_current 0 (sample_enemy 3 false))]>
             (rs_enemies sample_room_state)
      /\ (exists e', rs_enemies roomState' !! 0%nat = Some e'
                     /\ is_dead e' = true /\ hp_current e' = 0)
      /\ (all_dead roomState' = true -> is_combat_active roomState' = false)
      /\ (all_dead roomState' = false ->
          is_combat_active roomState' = is_combat_active sample_room_state).
Proof.
  assert (Hhp : hp_current (sample_enemy 3 false)
                - net_damage (sample_enemy 3 false) 8 "blunt" <= 0)
    by (vm_compute; discriminate).
  split; [reflexivity|]. split; [exact Hhp|].
  exact (damageEnemy_kill (fun _ => 1 # 2) [] 0%nat 8 "blunt" sample_room_state
           0%nat (sample_enemy 3 false) eq_refl Hhp).
Defined.

End CombatProps.

(** * Properties of the action processor *)

Module ActionProps.

Import FloorGenerator Combat ActionProcessor ActionSpec.

Lemma filter_all {A : Type} (P : A -> Prop) `{!forall x, Decision (P x)}
  (l : list A) :
  (forall x, x ∈ l -> P x) -> filter P l = l.
Proof.
  induction l as [|x l IH]; intros Hall; [reflexivity|].
  rewrite filter_cons_True by (apply Hall; left).
  rewrite IH; [reflexivity|]. intros y Hy. apply Hall. right. exact Hy.
Qed.

Lemma find_pick_Some (inventory : list InvRow) (pick : InvRow) :
  find_pick inventory = Some pick ->
  pick ∈ inventory /\ inv_item_name pick = "Thieves' Pick" /\ 0 < inv_quantity pick.
Proof.
  unfold find_pick. intros H.
  destruct (list_find _ inventory) as [[i p]|] eqn:E; [|discriminate].
  cbn in H. injection H as ->.
  apply list_find_Some in E as (Hl & [Hn Hq] & _).
  split; [eapply list_elem_of_lookup_2; eauto | auto].
Qed.

(** Removing one unit from a row of a table with distinct row
    identifiers lowers the count of picks by one when the row is a pick
    of the player with a positive quantity. *)
Lemma removeItem_picks_held (table : list InvRow) (pick : InvRow) (playerId : Z) :
  distinct_rows table -> pick ∈ table ->
  inv_player_id pick = playerId ->
  inv_item_name pick = "Thieves' Pick" -> 0 < inv_quantity pick ->
  picks_held (removeItem table (row_id pick) 1) playerId
  = picks_held table playerId - 1.
Proof.
  unfold distinct_rows, picks_held. intros Hnd Hin Hp Hn Hq.
  induction table as [|r table IH]; [inversion Hin|].
  cbn in Hnd. apply NoDup_cons in Hnd as [Hr Hnd].
  unfold removeItem. cbn [list_find]. 
  apply elem_of_cons in Hin as [<-|Hin].
  - (* the row is the first one *)
    rewrite decide_True by reflexivity. cbn [fmap option_fmap option_map snd prod_map].
    assert (Hrest : forall f : InvRow -> InvRow,
              (fun x => if bool_decide (row_id x = row_id pick) then f x else x)
                <$> table = table).
    { intros f. etrans; [|apply list_fmap_id]. apply list_fmap_ext.
      intros i x Hx. rewrite bool_decide_eq_false_2; [reflexivity|].
      intros E. apply Hr. rewrite <- E. apply list_elem_of_fmap_2.
      eapply list_elem_of_lookup_2; eauto. }
    assert (Hfil : filter (fun x => row_id x <> row_id pick) table = table).
    { apply filter_all. intros x Hx E. apply Hr. rewrite <- E.
      apply list_elem_of_fmap_2, Hx. }
    destruct (inv_quantity pick <=? 1) eqn:Hle.
    + apply Z.leb_le in Hle.
      rewrite filter_cons_False by (intros H; apply H; reflexivity).
      rewrite Hfil. rewrite (filter_cons_True _ pick) by auto. cbn. lia.
    + change (map ?f (pick :: table)) with (f pick :: (f <$> table)).
      cbv beta. rewrite bool_decide_eq_true_2 by reflexivity. rewrite Hrest.
      rewrite (filter_cons_True _ pick) by auto.
      rewrite filter_cons_True by (cbn; auto). cbn. lia.
  - (* the row is further down *)
    assert (Hne : row_id r <> row_id pick).
    { intros E. apply Hr. rewrite E. apply list_elem_of_fmap_2, Hin. }
    rewrite decide_False by exact Hne.
    specialize (IH Hnd Hin). unfold removeItem in IH.
    destruct (list_find (fun x => row_id x = row_id pick) table) as [[i p]|] eqn:E;
      cbn [fmap option_fmap option_map snd prod_map] in *; unfold id in *.
    + destruct (inv_quantity p <=? 1).
      * rewrite filter_cons_True by exact Hne.
        destruct (decide (inv_player_id r = playerId
                          /\ inv_item_name r = "Thieves' Pick")) as [Hy|Hn'].
        -- rewrite !(filter_cons_True _ r) by exact Hy.
           rewrite !fmap_cons. cbn [foldr]. rewrite IH. lia.
        -- rewrite !(filter_cons_False _ r) by exact Hn'. exact IH.
      * change (map ?f (r :: table)) with (f r :: (f <$> table)).
        cbv beta. rewrite bool_decide_eq_false_2 by exact Hne.
        change (map ?f table) with (f <$> table) in IH.
        destruct (decide (inv_player_id r = playerId
                          /\ inv_item_name r = "Thieves' Pick")) as [Hy|Hn'].
        -- rewrite !(filter_cons_True _ r) by exact Hy.
           rewrite !fmap_cons. cbn [foldr]. rewrite IH. lia.
        -- rewrite !(filter_cons_False _ r) by exact Hn'. exact IH.
    + exfalso. apply list_find_None in E. rewrite Forall_forall in E.
      apply (E pick Hin). reflexivity.
Qed.

Lemma same_gate_refl (w : World) : same_gate w w.
Proof. unfold same_gate. auto. Qed.

Lemma same_gate_trans (a b c : World) :
  same_gate a b -> same_gate b c -> same_gate a c.
Proof.
  intros (A1 & A2 & A3 & A4 & A5) (B1 & B2 & B3 & B4 & B5). unfold same_gate.
  repeat split; congruence.
Qed.

Lemma find_adjacent_lock_found (floorMap : FloorMap) (conns : list Z)
  (n : Z) (r : Room) (l : Lock) :
  n ∈ conns -> getCurrentRoom floorMap n = Some r ->
  type r = Some ty_locked -> is_accessible r = false -> lock r = Some l ->
  is_Some (find_adjacent_lock floorMap conns).
Proof.
  intros Hin Hr Ht Ha Hl. induction conns as [|x conns IH]; [inversion Hin|].
  cbn [find_adjacent_lock].
  apply elem_of_cons in Hin as [<-|Hin].
  - rewrite Hr. unfold type_is. rewrite Ht, Ha, Hl. cbn. eauto.
  - destruct (getCurrentRoom floorMap x) as [rx|]; [|auto].
    destruct (_ && _); [|auto]. destruct (lock rx); [eauto | auto].
Qed.

Lemma record_xp_gate (r : ActionResult) (xr : XpEntry) :
  diceResults (record_xp r xr) = diceResults r
  /\ checks (record_xp r xr) = checks r
  /\ lockpickConsumed (record_xp r xr) = lockpickConsumed r
  /\ noLockpick (record_xp r xr) = noLockpick r.
Proof.
  unfold record_xp. destruct (xe_levels xr) as [[o n]|]; [|cbn; auto].
  destruct (n =? 0); cbn; auto.
Qed.

Lemma award_xp_gate (playerId : Z) (skillName : string) (baseXp : Z)
  (outcome : Dice.Outcome) (w : World) :
  same_gate w (award_xp playerId skillName baseXp outcome w).
Proof.
  unfold award_xp, same_gate. cbn [player_inventory result with_result
    with_player_skills].
  split; [reflexivity|].
  generalize (snd (distributeXp (player_skills w) playerId skillName baseXp outcome)).
  intros l. generalize (result w). induction l as [|x l IH]; intros r; cbn; auto.
  destruct (record_xp_gate r x) as (A & B & C & D).
  destruct (IH (record_xp r x)) as (A' & B' & C' & D').
  repeat split; congruence.
Qed.

Lemma trap_handling_gate (skillName : string) (check : Dice.DiceResult)
  (cur : nat) (w : World) :
  same_gate w (trap_handling skillName check cur w).
Proof.
  unfold trap_handling.
  destruct (rooms (floorMap w) !! cur ≫= trap) as [t|]; [|apply same_gate_refl].
  destruct (negb (is_disarmed t)); [|apply same_gate_refl].
  destruct (_ && _); [unfold same_gate; cbn; auto|].
  destruct (negb (Dice.passed check)); [|apply same_gate_refl].
  unfold same_gate; cbn; auto.
Qed.

Section WithRandom.

Variable rnd : nat -> Q.
Variable loot_table : list Loot.LootRule.

Lemma processChestLoot_gate (cur : nat) (dungeon : Dungeon) (w : World) (c : nat) :
  same_gate w (fst (processChestLoot rnd loot_table cur dungeon w c)).
Proof.
  unfold processChestLoot.
  destruct (rooms (floorMap w) !! cur ≫= chest) as [ch|];
    [|unfold same_gate; cbn; auto].
  destruct (is_locked ch); [unfold same_gate; cbn; auto|].
  destruct (is_looted ch); unfold same_gate; cbn; auto.
Qed.

Lemma apply_passed_gate (skillName : string) (target : option LockpickTarget)
  (cur : nat) (dungeon : Dungeon) (w : World) (c : nat) :
  same_gate w (fst (apply_passed rnd loot_table skillName target cur dungeon w c)).
Proof.
  unfold apply_passed, bind. cbn [fst snd].
  match goal with
  | |- context [if String.eqb skillName "stealth" then _ else _] =>
      set (m := if String.eqb skillName "lockpicking" then _ else _)
  end.
  assert (Hm : same_gate w (fst (m c))).
  { subst m. destruct (String.eqb skillName "lockpicking"); [|apply same_gate_refl].
    destruct target as [[| |n]|]; [| | |apply same_gate_refl].
    - destruct (rooms (floorMap w) !! cur) as [room|]; [|apply same_gate_refl].
      destruct (bool_decide _); [unfold same_gate; cbn; auto|apply same_gate_refl].
    - destruct (rooms (floorMap w) !! cur) as [room|]; [|apply same_gate_refl].
      destruct (chest room) as [ch|]; [|apply same_gate_refl].
      destruct (is_locked ch); [|apply same_gate_refl].
      eapply same_gate_trans; [|apply processChestLoot_gate].
      unfold same_gate; cbn; auto.
    - unfold same_gate; cbn; auto. }
  destruct (String.eqb skillName "stealth"); [|exact Hm].
  eapply same_gate_trans; [exact Hm|]. unfold same_gate; cbn; auto.
Qed.

Lemma determine_dc_target (currentRoom : Room) (floorMap : FloorMap)
  (dungeon : Dungeon) (c : nat) :
  targets_lock currentRoom floorMap ->
  is_Some (snd (fst (determine_dc rnd "lockpicking" currentRoom floorMap dungeon c))).
Proof.
  intros H. unfold determine_dc. cbn [String.eqb Ascii.eqb Bool.eqb andb].
  destruct (type_is (type currentRoom) ty_locked
            && bool_decide (is_Some (lock currentRoom))) eqn:E1; [cbn; eauto|].
  destruct (match chest currentRoom with Some ch => is_locked ch | None => false end)
    eqn:E2; [cbn; eauto|].
  destruct H as [[Ht Hl] | [(ch & Hc & Hk) | (n & r & l & Hin & Hr & Ht & Ha & Hl)]].
  - unfold type_is in E1. rewrite Ht in E1.
    rewrite (bool_decide_eq_true_2 _ Hl) in E1. discriminate.
  - rewrite Hc, Hk in E2. discriminate.
  - destruct (find_adjacent_lock_found floorMap (connections currentRoom)
                n r l Hin Hr Ht Ha Hl) as [[d m] ->].
    destruct (d =? 0); cbn; eauto.
Qed.

(** The only draw that [determine_dc] can make for a lockpicking action
    with a target is the fallback DC of an adjacent lock whose DC is 0. *)
Lemma determine_dc_counter (currentRoom : Room) (floorMap : FloorMap)
  (dungeon : Dungeon) (c : nat) :
  is_Some (snd (fst (determine_dc rnd "lockpicking" currentRoom floorMap dungeon c))) ->
  snd (determine_dc rnd "lockpicking" currentRoom floorMap dungeon c) = c
  \/ (snd (determine_dc rnd "lockpicking" currentRoom floorMap dungeon c) = S c
      /\ exists n, find_adjacent_lock floorMap (connections currentRoom)
                   = Some (0, n)).
Proof.
  unfold determine_dc. cbn [String.eqb Ascii.eqb Bool.eqb andb].
  destruct (type_is (type currentRoom) ty_locked
            && bool_decide (is_Some (lock currentRoom))); [left; reflexivity|].
  destruct (match chest currentRoom with Some ch => is_locked ch | None => false end);
    [left; reflexivity|].
  destruct (find_adjacent_lock floorMap (connections currentRoom)) as [[d n]|].
  - destruct (Z.eqb_spec d 0) as [->|Hd]; [|left; reflexivity].
    intros _. right. split; [reflexivity | eauto].
  - cbn. intros [x Hx]. discriminate.
Qed.

(** C10. A lockpicking action that targets a lock, with no Thieves' Pick
    in the inventory, only sets the [noLockpick] flag: no check is
    rolled, and nothing else changes.  With a pick in the inventory, one
    unit of the first pick row is removed and then the check is rolled:
    whatever the roll gives, the player holds one pick less. *)
Theorem lockpick_consumes_pick (run_stats : RunStats) (player : Player)
  (baseStats : option Dice.BaseStats) (skills : gmap string Z) (cur : nat)
  (dungeon : Dungeon) (w : World) (c : nat) (currentRoom : Room) :
  rooms (floorMap w) !! cur = Some currentRoom ->
  targets_lock currentRoom (floorMap w) ->
  let inventory := getInventory (player_inventory w) (player_id player) in
  let dt := determine_dc rnd "lockpicking" currentRoom (floorMap w) dungeon c in
  let out :=
    processSkillCheck rnd loot_table (Some "lockpicking") run_stats player
      baseStats skills cur dungeon w c in
  (find_pick inventory = None ->
     out = (Some (with_result (with_noLockpick true (result w)) w), snd dt)
     /\ (snd dt = c
         \/ (snd dt = S c
             /\ exists n, find_adjacent_lock (floorMap w) (connections currentRoom)
                          = Some (0, n))))
  /\ (forall pick, find_pick inventory = Some pick ->
        exists w',
          fst out = Some w'
          /\ player_inventory w' = removeItem (player_inventory w) (row_id pick) 1
          /\ lockpickConsumed (result w') = true
          /\ noLockpick (result w') = noLockpick (result w)
          /\ diceResults (result w')
             = diceResults (result w)
               ++ [fst (Dice.skillCheck rnd
                          (lockpick_check_params (fst (fst dt)) baseStats skills)
                          (snd dt))]
          /\ (distinct_rows (player_inventory w) ->
              picks_held (player_inventory w') (player_id player)
              = picks_held (player_inventory w) (player_id player) - 1)).
Proof.
  intros Hroom Htarget inventory dt out.
  pose proof (determine_dc_target currentRoom (floorMap w) dungeon c Htarget) as Hsome.
  fold dt in Hsome.
  assert (Hout : out =
    (match (match find_pick inventory with
           | None => inl (with_result (with_noLockpick true (result w)) w)
           | Some pick =>
               let w1 :=
                 with_player_inventory
                   (removeItem (player_inventory w) (row_id pick) 1) w in
               inr (with_result (with_lockpickConsumed true (result w1)) w1)
           end) with
    | inl stopped => ret (Some stopped)
    | inr w1 =>
        (let* check :=
           Dice.skillCheck rnd
             (lockpick_check_params (fst (fst dt)) baseStats skills) in
         let r1 := result w1 in
         let w2 :=
           with_result
             (with_diceResults (diceResults r1 ++ [check])
                (with_checks (checks r1 ++ [("lockpicking"%string, check)]) r1)) w1 in
         let* w3 :=
           if Dice.passed check
           then apply_passed rnd loot_table "lockpicking" (snd (fst dt)) cur dungeon w2
           else ret w2 in
         let w4 := trap_handling "lockpicking" check cur w3 in
         ret (Some (award_xp (player_id player) "lockpicking" 10
                      (Dice.outcome check) w4)))
    end) (snd dt)).
  { subst out. unfold processSkillCheck. rewrite Hroom.
    cbn [String.eqb Ascii.eqb Bool.eqb].
    unfold bind at 1. fold dt.
    rewrite (bool_decide_eq_true_2 _ Hsome). cbn [andb].
    fold inventory. reflexivity. }
  split.
  - intros Hnone. rewrite Hout, Hnone. split; [reflexivity|].
    apply determine_dc_counter. exact Hsome.
  - intros pick Hpick. rewrite Hout, Hpick. cbv zeta.
    unfold bind, ret. cbn [fst snd].
    set (check := fst (Dice.skillCheck rnd _ (snd dt))).
    set (w1 := with_result _ (with_player_inventory _ w)).
    set (w2 := with_result _ w1).
    match goal with
    | |- context [trap_handling "lockpicking" check cur ?x] => set (w3 := x)
    end.
    set (w4 := trap_handling "lockpicking" check cur w3).
    set (w5 := award_xp _ _ _ _ w4).
    assert (G3 : same_gate w2 w3).
    { subst w3. destruct (Dice.passed check);
        [apply apply_passed_gate | apply same_gate_refl]. }
    assert (G5 : same_gate w2 w5).
    { eapply same_gate_trans; [exact G3|].
      eapply same_gate_trans; [apply trap_handling_gate | apply award_xp_gate]. }
    destruct G5 as (I & D & _ & L & N).
    exists w5. split; [reflexivity|].
    assert (Hinv : player_inventory w5
                   = removeItem (player_inventory w) (row_id pick) 1)
      by (rewrite I; reflexivity).
    split; [exact Hinv|]. split; [rewrite L; reflexivity|].
    split; [rewrite N; reflexivity|]. split; [rewrite D; reflexivity|].
    intros Hd. rewrite Hinv.
    apply find_pick_Some in Hpick as (Hin & Hname & Hq).
    subst inventory. unfold getInventory in Hin.
    apply list_elem_of_filter in Hin as [Hp Hin].
    apply removeItem_picks_held; assumption.
Qed.

End WithRandom.

(** Picking the locked chest of the sample world. *)
Lemma lockpick_consumes_pick_witness :
  rooms (floorMap sample_world) !! 0%nat = Some chest_room
  /\ targets_lock chest_room (floorMap sample_world)
  /\ (let rnd := fun _ : nat => 1 # 2 in
      let inventory := getInventory (player_inventory sample_world) 7 in
      let dt := determine_dc rnd "lockpicking" chest_room (floorMap sample_world)
                  FloorSpec.sample_dungeon 0%nat in
      let out :=
        processSkillCheck rnd [] (Some "lockpicking") (mkRunStats false false)
          (mkPlayer 7) None ∅ 0%nat FloorSpec.sample_dungeon sample_world 0%nat in
      (find_pick inventory = None ->
         out = (Some (with_result (with_noLockpick true (result sample_world))
                        sample_world), snd dt)
         /\ (snd dt = 0%nat
             \/ (snd dt = 1%nat
                 /\ exists n, find_adjacent_lock (floorMap sample_world)
                                (connections chest_room) = Some (0, n))))
      /\ (forall pick, find_pick inventory = Some pick ->
            exists w',
              fst out = Some w'
              /\ player_inventory w'
                 = removeItem (player_inventory sample_world) (row_id pick) 1
              /\ lockpickConsumed (result w') = true
              /\ noLockpick (result w') = noLockpick (result sample_world)
              /\ diceResults (result w')
                 = diceResults (result sample_world)
                   ++ [fst (Dice.skillCheck rnd
                              (lockpick_check_params (fst (fst dt)) None ∅)
                              (snd dt))]
              /\ (distinct_rows (player_inventory sample_world) ->
                  picks_held (player_inventory w') 7
                  = picks_held (player_inventory sample_world) 7 - 1))).
Proof.
  assert (Ht : targets_lock chest_room (floorMap sample_world)).
  { right. left. eexists. split; reflexivity. }
  split; [reflexivity|]. split; [exact Ht|].
  exact (lockpick_consumes_pick (fun _ => 1 # 2) [] (mkRunStats false false)
           (mkPlayer 7) None ∅ 0%nat FloorSpec.sample_dungeon sample_world
           0%nat chest_room eq_refl Ht).
Defined.

(** *** The lock of [processAction] *)

Section ProcessAction.

Variables (RunData Store Result : Type).
Variable turn :
  RunRow RunData -> string -> Db RunData Store -> (Error + Result) * Db RunData Store.

Lemma updateRunState_rows (db : Db RunData Store) (runId : Z) (st : RunStatus)
  (pending : option string) (r : RunRow RunData) :
  r ∈ active_runs _ _ (updateRunState _ _ db runId st pending) ->
  (run_id _ r = runId -> status _ r = st /\ pending_action_text _ r = pending)
  /\ (run_id _ r <> runId -> r ∈ active_runs _ _ db).
Proof.
  unfold updateRunState. cbn [active_runs].
  change (map ?f ?l) with (f <$> l).
  intros H. apply list_elem_of_fmap in H as (r0 & -> & Hr0).
  case_bool_decide as E; cbn; split; intros H; auto; contradiction.
Qed.

Lemma updateRunState_present (db : Db RunData Store) (runId : Z) (st : RunStatus)
  (pending : option string) (r : RunRow RunData) :
  r ∈ active_runs _ _ db -> run_id _ r = runId ->
  mkRunRow _ runId (run_player_id _ r) st pending (run_data _ r)
    ∈ active_runs _ _ (updateRunState _ _ db runId st pending).
Proof.
  intros Hr Hid. unfold updateRunState. cbn [active_runs].
  change (map ?f ?l) with (f <$> l).
  apply list_elem_of_fmap. exists r. split; [|exact Hr].
  rewrite (bool_decide_eq_true_2 _ Hid), Hid. reflexivity.
Qed.

(** C2. [processAction] rejects the request with an error, and leaves the
    database as it is, when the player has no run in progress or the run
    found is not [active].  Otherwise it sets the status of the run to
    [processing] (and records the pending action) before the turn is
    resolved; when the turn throws, the status is set back to [active],
    the pending action is cleared, and the error is passed on. *)
Theorem processAction_lock (playerId : Z) (actionText : string)
  (db : Db RunData Store) :
  (getActiveRun _ _ db playerId = None ->
     processAction _ _ _ turn playerId actionText db = (inl "No active run.", db))
  /\ (forall run, getActiveRun _ _ db playerId = Some run ->
        status _ run <> active ->
        processAction _ _ _ turn playerId actionText db
        = (inl "Run is not active.", db))
  /\ (forall run, getActiveRun _ _ db playerId = Some run ->
        status _ run = active ->
        let locked :=
          updateRunState _ _ db (run_id _ run) processing (Some actionText) in
        (exists r, r ∈ active_runs _ _ locked /\ run_id _ r = run_id _ run)
        /\ (forall r, r ∈ active_runs _ _ locked -> run_id _ r = run_id _ run ->
             status _ r = processing /\ pending_action_text _ r = Some actionText)
        /\ (forall res db', turn run actionText locked = (inr res, db') ->
              processAction _ _ _ turn playerId actionText db = (inr res, db'))
        /\ (forall err db', turn run actionText locked = (inl err, db') ->
              let restored := updateRunState _ _ db' (run_id _ run) active None in
              processAction _ _ _ turn playerId actionText db = (inl err, restored)
              /\ (forall r, r ∈ active_runs _ _ restored ->
                    run_id _ r = run_id _ run ->
                    status _ r = active /\ pending_action_text _ r = None)
              /\ (forall r, r ∈ active_runs _ _ db' -> run_id _ r = run_id _ run ->
                    exists r', r' ∈ active_runs _ _ restored
                               /\ run_id _ r' = run_id _ run
                               /\ status _ r' = active))).
Proof.
  split; [|split].
  - intros H. unfold processAction. rewrite H. reflexivity.
  - intros run H Hs. unfold processAction. rewrite H.
    rewrite (bool_decide_eq_true_2 _ Hs). reflexivity.
  - intros run H Hs locked.
    assert (Hn : ~ status _ run <> active) by (intros E; apply E; exact Hs).
    split; [|split; [|split]].
    + unfold getActiveRun in H. apply find_some in H as [Hin _].
      apply list_elem_of_In in Hin. eexists. split;
        [apply (updateRunState_present db _ processing (Some actionText) run Hin eq_refl)|].
      reflexivity.
    + intros r Hr Hid. apply updateRunState_rows in Hr as [Hr _]. auto.
    + intros res db' Ht. unfold processAction. rewrite H.
      rewrite (bool_decide_eq_false_2 _ Hn). fold locked. rewrite Ht. reflexivity.
    + intros err db' Ht restored. split; [|split].
      * unfold processAction. rewrite H.
        rewrite (bool_decide_eq_false_2 _ Hn). fold locked. rewrite Ht. reflexivity.
      * intros r Hr Hid. apply updateRunState_rows in Hr as [Hr _]. auto.
      * intros r Hr Hid. eexists. split;
          [apply (updateRunState_present db' _ active None r Hr Hid)|].
        split; reflexivity.
Qed.

End ProcessAction.

(** A run that is [active], a turn that throws: the error comes back and
    the run is [active] again with no pending action; a second request
    made while the run is [processing] is rejected. *)
Example processAction_restores :
  let db := mkDb unit unit [mkRunRow unit 5 7 active None tt] tt in
  let failing := fun (_ : RunRow unit) (_ : string) (d : Db unit unit) =>
                   (inl "disk full" : Error + unit, d) in
  processAction unit unit unit failing 7 "pick the lock" db
  = (inl "disk full", mkDb unit unit [mkRunRow unit 5 7 active None tt] tt)
  /\ processAction unit unit unit failing 7 "pick the lock"
       (mkDb unit unit [mkRunRow unit 5 7 processing (Some "go north") tt] tt)
     = (inl "Run is not active.",
        mkDb unit unit [mkRunRow unit 5 7 processing (Some "go north") tt] tt).
Proof. split; reflexivity. Qed.

End ActionProps.

(** * Further properties of dice.js *)

Module DiceFacts.

Import Dice DiceMoreSpec.

Lemma half_oracle : unit_interval (fun _ => 1 # 2).
Proof. intros n. split; [discriminate | reflexivity]. Defined.

Lemma rollMultiple_loop_S (rnd : nat -> Q) (n : nat) (sides : Z) (c : nat) :
  rollMultiple_loop rnd (S n) sides c
  = (fst (roll rnd sides c)
       :: fst (rollMultiple_loop rnd n sides (snd (roll rnd sides c))),
     snd (rollMultiple_loop rnd n sides (snd (roll rnd sides c)))).
Proof. reflexivity. Qed.

Lemma rollMultiple_loop_spec (rnd : nat -> Q) (count : nat) (sides : Z) (c : nat) :
  unit_interval rnd -> 0 < sides ->
  length (fst (rollMultiple_loop rnd count sides c)) = count
  /\ Forall (fun r => 1 <= r <= sides) (fst (rollMultiple_loop rnd count sides c))
  /\ snd (rollMultiple_loop rnd count sides c) = (c + count)%nat.
Proof.
  intros Hu Hs. revert c. induction count as [|n IH]; intros c.
  - cbn. split; [reflexivity|]. split; [constructor | lia].
  - rewrite rollMultiple_loop_S. cbn [fst snd].
    destruct (IH (snd (roll rnd sides c))) as (L & F & C).
    split; [cbn [length]; f_equal; exact L|].
    split; [constructor; [apply DiceProps.roll_bounds; assumption | exact F]|].
    rewrite C, DiceProps.roll_counter. lia.
Qed.

Lemma sum_bounds (rs : list Z) (lo hi acc : Z) :
  Forall (fun r => lo <= r <= hi) rs ->
  acc + Z.of_nat (length rs) * lo <= fold_left Z.add rs acc
  <= acc + Z.of_nat (length rs) * hi.
Proof.
  intros H. revert acc. induction H as [|r rs Hr _ IH]; intros acc; cbn [fold_left length].
  - lia.
  - specialize (IH (acc + r)). nia.
Qed.

Lemma rollMultiple_spec (rnd : nat -> Q) (count : nat) (sides : Z) (c : nat) :
  unit_interval rnd -> 0 < sides ->
  length (fst (fst (rollMultiple rnd count sides c))) = count
  /\ Forall (fun r => 1 <= r <= sides) (fst (fst (rollMultiple rnd count sides c)))
  /\ Z.of_nat count <= snd (fst (rollMultiple rnd count sides c))
     <= Z.of_nat count * sides
  /\ snd (rollMultiple rnd count sides c) = (c + count)%nat.
Proof.
  intros Hu Hs. unfold rollMultiple, bind, ret. cbn [fst snd].
  destruct (rollMultiple_loop_spec rnd count sides c Hu Hs) as (L & F & C).
  split; [exact L|]. split; [exact F|]. split; [|exact C].
  pose proof (sum_bounds _ 1 sides 0 F) as B. rewrite L in B. lia.
Qed.

(** The modifier of a stat is the floor of half its distance to 10: the
    stats [10 + 2k] and [11 + 2k] both give [k], below 10 as well as
    above (9 gives -1, not 0); and the modifier never decreases when the
    stat grows. *)
Theorem statModifier_steps (k : Z) :
  statModifier (10 + 2 * k) = k /\ statModifier (11 + 2 * k) = k
  /\ forall v w, v <= w -> statModifier v <= statModifier w.
Proof.
  unfold statModifier. split; [|split].
  - replace (10 + 2 * k - 10) with (k * 2) by lia. apply Z.div_mul. lia.
  - replace (11 + 2 * k - 10) with (1 + k * 2) by lia.
    rewrite Z.div_add by lia. reflexivity.
  - intros v w H. apply Z.div_le_mono; lia.
Qed.

(** The die of a skill check: the base roll is between 1 and 20; with
    advantage alone it is the higher of two rolls, with disadvantage
    alone the lower; with both flags or neither, a single die is
    rolled. *)
Theorem skillCheck_dice (rnd : nat -> Q) (p : SkillCheckParams) (c : nat) :
  unit_interval rnd ->
  let r := fst (skillCheck rnd p c) in
  let r1 := fst (roll rnd 20 c) in
  let r2 := fst (roll rnd 20 (S c)) in
  1 <= base_roll r <= 20
  /\ (advantage p = disadvantage p ->
      base_roll r = r1 /\ rolls (roll_details r) = [r1]
      /\ snd (skillCheck rnd p c) = S c)
  /\ (advantage p = true -> disadvantage p = false ->
      base_roll r = Z.max r1 r2 /\ rolls (roll_details r) = [r1; r2]
      /\ snd (skillCheck rnd p c) = S (S c))
  /\ (advantage p = false -> disadvantage p = true ->
      base_roll r = Z.min r1 r2 /\ rolls (roll_details r) = [r1; r2]
      /\ snd (skillCheck rnd p c) = S (S c)).
Proof.
  intros Hu r r1 r2.
  pose proof (DiceProps.roll_bounds rnd 20 c Hu ltac:(lia)) as B1.
  pose proof (DiceProps.roll_bounds rnd 20 (S c) Hu ltac:(lia)) as B2.
  fold r1 in B1. fold r2 in B2.
  subst r. unfold skillCheck, bind, ret. cbn [fst snd base_roll roll_details].
  unfold roll_d20.
  destruct (advantage p), (disadvantage p); cbn [andb negb];
    unfold bind, ret; cbn [fst snd rolls]; fold r1;
    rewrite ?DiceProps.roll_counter; fold r2;
    (split; [lia|]); (split; [intros E; try discriminate; auto|]);
    split; intros E1 E2; try discriminate; auto.
Qed.

Lemma skillCheck_dice_witness :
  unit_interval (fun _ => 1 # 2) /\
  let p := mkSkillCheckParams "stealth" 12 None ∅ 20 [] true false "flee" None in
  let r := fst (skillCheck (fun _ => 1 # 2) p 0%nat) in
  let r1 := fst (roll (fun _ => 1 # 2) 20 0%nat) in
  let r2 := fst (roll (fun _ => 1 # 2) 20 1%nat) in
  1 <= base_roll r <= 20
  /\ (advantage p = disadvantage p ->
      base_roll r = r1 /\ rolls (roll_details r) = [r1]
      /\ snd (skillCheck (fun _ => 1 # 2) p 0%nat) = 1%nat)
  /\ (advantage p = true -> disadvantage p = false ->
      base_roll r = Z.max r1 r2 /\ rolls (roll_details r) = [r1; r2]
      /\ snd (skillCheck (fun _ => 1 # 2) p 0%nat) = 2%nat)
  /\ (advantage p = false -> disadvantage p = true ->
      base_roll r = Z.min r1 r2 /\ rolls (roll_details r) = [r1; r2]
      /\ snd (skillCheck (fun _ => 1 # 2) p 0%nat) = 2%nat).
Proof.
  split; [exact half_oracle|].
  exact (skillCheck_dice (fun _ => 1 # 2)
           (mkSkillCheckParams "stealth" 12 None ∅ 20 [] true false "flee" None)
           0%nat half_oracle).
Defined.

(** When a check passes: on a base roll of at least the crit range, or
    else on a total within 2 of the DC unless the base roll is 1.  The
    [is_critical] flag marks exactly the critical successes, [is_fumble]
    the base rolls of 1; with a crit range above 1 a fumble never
    passes. *)
Theorem skillCheck_passed (rnd : nat -> Q) (p : SkillCheckParams) (c : nat) :
  let r := fst (skillCheck rnd p c) in
  (passed r = true <->
     critRange p <= base_roll r
     \/ (base_roll r <> 1 /\ p_dc p - 2 <= final_total r))
  /\ (is_critical r = true <-> outcome r = critical_success)
  /\ (is_fumble r = true <-> base_roll r = 1)
  /\ (1 < critRange p -> is_fumble r = true ->
      passed r = false /\ outcome r = critical_failure).
Proof.
  intros r. subst r. unfold skillCheck, bind, ret.
  cbn [fst snd passed outcome is_critical is_fumble base_roll final_total].
  set (b := fst (fst (roll_d20 rnd (advantage p) (disadvantage p) c))).
  set (t := b + _ + _ + _).
  destruct (Z.leb_spec (critRange p) b) as [H1|H1];
    destruct (Z.eqb_spec b 1) as [H2|H2];
    destruct (Z.leb_spec (p_dc p) t) as [H3|H3];
    destruct (Z.leb_spec (p_dc p - 2) t) as [H4|H4];
    cbn; repeat split; intros; try discriminate; try lia; try tauto;
    try (exfalso; lia); auto;
    match goal with
    | H : _ \/ _ |- _ => destruct H as [?|[? ?]]; try lia; try contradiction
    end.
Qed.

(** The accounting of a damage roll against a non-negative armor: when
    the damage after resistance is at least 1, the damage dealt and the
    armor reduction add up to it; when it is 0 or less, 1 damage is dealt
    all the same and no reduction is reported. *)
Theorem rollDamage_accounting (rnd : nat -> Q) (p : DamageParams) (c : nat) :
  (0 <= targetArmor p)%Q ->
  let r := fst (rollDamage rnd p c) in
  (0 <= armorReduced r)%Q
  /\ (1 <= mitigatedDamage r)%Q
  /\ (1 <= after_resistance p r ->
      (mitigatedDamage r + armorReduced r == inject_Z (after_resistance p r))%Q)
  /\ (after_resistance p r <= 0 ->
      (mitigatedDamage r == 1)%Q /\ (armorReduced r == 0)%Q).
Proof.
  intros Ha r. subst r. unfold after_resistance, rollDamage, bind, ret, Math_random.
  cbn [fst snd rawDamage mitigatedDamage armorReduced].
  set (raw := if isCritical p then _ else _).
  set (ar := Js.Math_round (inject_Z raw * resistanceMultiplier p)).
  assert (Hinj : (inject_Z (ar - 1) == inject_Z ar - 1)%Q).
  { unfold Z.sub. rewrite inject_Z_plus. reflexivity. }
  split; [apply Q.le_max_l|]. split; [apply Q.le_max_l|]. split.
  - intros H1.
    assert (H1' : (1 <= inject_Z ar)%Q)
      by (change 1%Q with (inject_Z 1); rewrite <- Zle_Qle; exact H1).
    destruct (Q.min_spec (targetArmor p) (inject_Z (ar - 1))) as [[Hm Em]|[Hm Em]];
      destruct (Q.max_spec 0 (Qmin (targetArmor p) (inject_Z (ar - 1)))) as [[Hx Ex]|[Hx Ex]];
      destruct (Q.max_spec 1 (inject_Z ar - targetArmor p)) as [[Hy Ey]|[Hy Ey]];
      rewrite Ex, Ey; rewrite ?Em in *; rewrite ?Hinj in *; lra.
  - intros H0.
    assert (H0' : (inject_Z ar <= 0)%Q)
      by (change 0%Q with (inject_Z 0); rewrite <- Zle_Qle; exact H0).
    destruct (Q.min_spec (targetArmor p) (inject_Z (ar - 1))) as [[Hm Em]|[Hm Em]];
      destruct (Q.max_spec 0 (Qmin (targetArmor p) (inject_Z (ar - 1)))) as [[Hx Ex]|[Hx Ex]];
      destruct (Q.max_spec 1 (inject_Z ar - targetArmor p)) as [[Hy Ey]|[Hy Ey]];
      rewrite Ex, Ey; rewrite ?Em in *; rewrite ?Hinj in *; split; lra.
Qed.

Lemma rollDamage_accounting_witness :
  (0 <= targetArmor (mkDamageParams 10 2 false 3 1))%Q /\
  let p := mkDamageParams 10 2 false 3 1 in
  let r := fst (rollDamage (fun _ => 1 # 2) p 0%nat) in
  (0 <= armorReduced r)%Q
  /\ (1 <= mitigatedDamage r)%Q
  /\ (1 <= after_resistance p r ->
      (mitigatedDamage r + armorReduced r == inject_Z (after_resistance p r))%Q)
  /\ (after_resistance p r <= 0 ->
      (mitigatedDamage r == 1)%Q /\ (armorReduced r == 0)%Q).
Proof.
  assert (H : (0 <= targetArmor (mkDamageParams 10 2 false 3 1))%Q)
    by discriminate.
  split; [exact H|].
  exact (rollDamage_accounting (fun _ => 1 # 2) (mkDamageParams 10 2 false 3 1)
           0%nat H).
Defined.

Lemma Math_round_mono (x y : Q) :
  (x <= y)%Q -> Js.Math_round x <= Js.Math_round y.
Proof. intros H. unfold Js.Math_round. apply Qfloor_resp_le. lra. Qed.

(** The variance of a damage roll: for a non-negative base damage plus
    weapon bonus [s], the damage before resistance lies between
    [round(0.8 s)] and [round(1.2 s)], doubled on a critical hit; it is
    never negative, and one random number is drawn. *)
Theorem rollDamage_variance (rnd : nat -> Q) (p : DamageParams) (c : nat) :
  unit_interval rnd ->
  (0 <= baseDamage p + weaponBonus p)%Q ->
  let s := (baseDamage p + weaponBonus p)%Q in
  let k := if isCritical p then 2 else 1 in
  k * Js.Math_round (s * (8 # 10)) <= rawDamage (fst (rollDamage rnd p c))
  <= k * Js.Math_round (s * (12 # 10))
  /\ 0 <= rawDamage (fst (rollDamage rnd p c))
  /\ snd (rollDamage rnd p c) = S c.
Proof.
  intros Hu Hs s k. unfold rollDamage, bind, ret, Math_random.
  cbn [fst snd rawDamage]. fold s.
  destruct (Hu c) as [U0 U1].
  set (v := ((8 # 10) + rnd c * (4 # 10))%Q).
  assert (Hlo : (s * (8 # 10) <= s * v)%Q).
  { rewrite (Qmult_comm s (8 # 10)), (Qmult_comm s v).
    apply Qmult_le_compat_r; [unfold v; lra | exact Hs]. }
  assert (Hhi : (s * v <= s * (12 # 10))%Q).
  { rewrite (Qmult_comm s (12 # 10)), (Qmult_comm s v).
    apply Qmult_le_compat_r; [unfold v; lra | exact Hs]. }
  apply Math_round_mono in Hlo, Hhi.
  assert (H0 : 0 <= Js.Math_round (s * (8 # 10))).
  { change 0 with (Js.Math_round 0). apply Math_round_mono.
    apply Qmult_le_0_compat; [exact Hs | discriminate]. }
  subst k. destruct (isCritical p); repeat split; lia.
Qed.

Lemma rollDamage_variance_witness :
  unit_interval (fun _ => 1 # 2)
  /\ (0 <= baseDamage (mkDamageParams 10 2 true 3 1)
           + weaponBonus (mkDamageParams 10 2 true 3 1))%Q
  /\ (let p := mkDamageParams 10 2 true 3 1 in
      let s := (baseDamage p + weaponBonus p)%Q in
      let k := if isCritical p then 2 else 1 in
      k * Js.Math_round (s * (8 # 10))
      <= rawDamage (fst (rollDamage (fun _ => 1 # 2) p 0%nat))
      <= k * Js.Math_round (s * (12 # 10))
      /\ 0 <= rawDamage (fst (rollDamage (fun _ => 1 # 2) p 0%nat))
      /\ snd (rollDamage (fun _ => 1 # 2) p 0%nat) = 1%nat).
Proof.
  assert (H : (0 <= baseDamage (mkDamageParams 10 2 true 3 1)
                    + weaponBonus (mkDamageParams 10 2 true 3 1))%Q)
    by discriminate.
  split; [exact half_oracle|]. split; [exact H|].
  exact (rollDamage_variance (fun _ => 1 # 2) (mkDamageParams 10 2 true 3 1)
           0%nat half_oracle H).
Defined.

Lemma floor_of_fraction (u : Q) (d : Z) :
  (0 <= u)%Q -> (u < 1)%Q ->
  (0 < d -> 0 <= Js.Math_floor (u * inject_Z d) <= d - 1)
  /\ (d <= 0 -> d <= Js.Math_floor (u * inject_Z d) <= 0).
Proof.
  intros U0 U1. unfold Js.Math_floor. split; intros Hd.
  - assert (Hd' : (0 < inject_Z d)%Q)
      by (change 0%Q with (inject_Z 0); rewrite <- Zlt_Qlt; exact Hd).
    split.
    + change 0 with (Qfloor 0). apply Qfloor_resp_le.
      apply Qmult_le_0_compat; lra.
    + assert (H : (u * inject_Z d < inject_Z d)%Q).
      { rewrite <- (Qmult_1_l (inject_Z d)) at 2. apply Qmult_lt_r; assumption. }
      pose proof (Qfloor_le (u * inject_Z d)) as F.
      assert (G : (inject_Z (Qfloor (u * inject_Z d)) < inject_Z d)%Q) by lra.
      rewrite <- Zlt_Qlt in G. lia.
  - assert (Hd' : (inject_Z d <= 0)%Q)
      by (change 0%Q with (inject_Z 0); rewrite <- Zle_Qle; exact Hd).
    split.
    + rewrite <- (Qfloor_Z d) at 1. apply Qfloor_resp_le.
      assert (H : ((1 - u) * - inject_Z d >= 0)%Q)
        by (apply Qmult_le_0_compat; lra).
      lra.
    + change 0 with (Qfloor 0). apply Qfloor_resp_le.
      assert (H : (u * - inject_Z d >= 0)%Q)
        by (apply Qmult_le_0_compat; lra).
      lra.
Qed.

Lemma randomDC_bounds (rnd : nat -> Q) (dcRange : DcRange) (c : nat) :
  unit_interval rnd ->
  (dc_min dcRange <= dc_max dcRange ->
   dc_min dcRange <= fst (randomDC rnd dcRange c) <= dc_max dcRange)
  /\ (dc_max dcRange < dc_min dcRange ->
      dc_max dcRange < fst (randomDC rnd dcRange c) <= dc_min dcRange)
  /\ snd (randomDC rnd dcRange c) = S c.
Proof.
  intros Hu. unfold randomDC, bind, ret, Math_random.
  cbn [fst snd]. destruct (Hu c) as [U0 U1].
  destruct (floor_of_fraction (rnd c) (dc_max dcRange - dc_min dcRange + 1) U0 U1)
    as [Hpos Hneg].
  split; [|split]; [intros H; specialize (Hpos ltac:(lia)); lia
                   |intros H; specialize (Hneg ltac:(lia)); lia
                   |reflexivity].
Qed.

(** The ranges of the dice.  [rollMultiple(count, sides)] returns
    [count] rolls, each between 1 and [sides], whose total lies between
    [count] and [count * sides], and draws [count] random numbers; so
    [rollStat()] is between 3 and 18.  [randomDC(dcRange)] stays within
    the range, bounds included, and draws one random number; on an
    inverted range ([max < min]) it returns a value above [max] and at
    most [min]. *)
Theorem dice_ranges (rnd : nat -> Q) (count : nat) (sides : Z)
  (dcRange : DcRange) (c : nat) :
  unit_interval rnd -> 0 < sides ->
  let out := fst (rollMultiple rnd count sides c) in
  let dc := fst (randomDC rnd dcRange c) in
  length (fst out) = count
  /\ Forall (fun r => 1 <= r <= sides) (fst out)
  /\ Z.of_nat count <= snd out <= Z.of_nat count * sides
  /\ snd (rollMultiple rnd count sides c) = (c + count)%nat
  /\ 3 <= fst (rollStat rnd c) <= 18
  /\ (dc_min dcRange <= dc_max dcRange ->
      dc_min dcRange <= dc <= dc_max dcRange)
  /\ (dc_max dcRange < dc_min dcRange ->
      dc_max dcRange < dc <= dc_min dcRange)
  /\ snd (randomDC rnd dcRange c) = S c.
Proof.
  intros Hu Hs out dc. subst out dc.
  destruct (rollMultiple_spec rnd count sides c Hu Hs) as (A & B & C & D).
  split; [exact A|]. split; [exact B|]. split; [exact C|]. split; [exact D|].
  split.
  - destruct (rollMultiple_spec rnd 3%nat 6 c Hu ltac:(lia)) as (_ & _ & E & _).
    unfold rollStat, bind, ret. cbn [fst snd]. lia.
  - apply randomDC_bounds. exact Hu.
Qed.

Lemma dice_ranges_witness :
  unit_interval (fun _ => 1 # 2) /\ 0 < 6 /\
  let out := fst (rollMultiple (fun _ => 1 # 2) 3 6 0%nat) in
  let dc := fst (randomDC (fun _ => 1 # 2) (mkDcRange 10 14) 0%nat) in
  length (fst out) = 3%nat
  /\ Forall (fun r => 1 <= r <= 6) (fst out)
  /\ Z.of_nat 3 <= snd out <= Z.of_nat 3 * 6
  /\ snd (rollMultiple (fun _ => 1 # 2) 3 6 0%nat) = (0 + 3)%nat
  /\ 3 <= fst (rollStat (fun _ => 1 # 2) 0%nat) <= 18
  /\ (dc_min (mkDcRange 10 14) <= dc_max (mkDcRange 10 14) ->
      dc_min (mkDcRange 10 14) <= dc <= dc_max (mkDcRange 10 14))
  /\ (dc_max (mkDcRange 10 14) < dc_min (mkDcRange 10 14) ->
      dc_max (mkDcRange 10 14) < dc <= dc_min (mkDcRange 10 14))
  /\ snd (randomDC (fun _ => 1 # 2) (mkDcRange 10 14) 0%nat) = 1%nat.
Proof.
  split; [exact half_oracle|]. split; [lia|].
  apply (dice_ranges (fun _ => 1 # 2) 3 6 (mkDcRange 10 14) 0%nat half_oracle).
  lia.
Defined.

(** *** Weighted draws *)

(** The weights of a pool, added from the right. *)
Lemma pool_total_from {A : Type} (pool : list (PoolEntry A)) (acc : Q) :
  (fold_left (fun sum entry => sum + weight entry) pool acc
   == acc + pool_total pool)%Q.
Proof.
  unfold pool_total. revert acc.
  induction pool as [|e pool IH]; intros acc; cbn [fold_left].
  - lra.
  - rewrite (IH (acc + weight e)%Q), (IH (0 + weight e)%Q). lra.
Qed.

Lemma pool_total_cons {A : Type} (e : PoolEntry A) (pool : list (PoolEntry A)) :
  (pool_total (e :: pool) == weight e + pool_total pool)%Q.
Proof.
  unfold pool_total at 1. cbn [fold_left]. rewrite pool_total_from. lra.
Qed.

Lemma Qleb_true (a b : Q) : Js.Qleb a b = true <-> (a <= b)%Q.
Proof. unfold Js.Qleb. apply Qle_bool_iff. Qed.

Lemma Qleb_false (a b : Q) : Js.Qleb a b = false <-> (b < a)%Q.
Proof.
  rewrite <- Bool.not_true_iff_false, Qleb_true. split; intros H; lra.
Qed.

(** A roll that does not exceed the total weight stops at some entry. *)
Lemma weighted_scan_stops {A : Type} (pool : list (PoolEntry A)) (roll : Q) :
  (roll <= pool_total pool)%Q -> pool <> [] ->
  is_Some (weighted_scan roll pool).
Proof.
  revert roll. induction pool as [|e pool IH]; intros roll Hr Hne; [congruence|].
  cbn [weighted_scan]. destruct (Js.Qleb (roll - weight e) 0) eqn:E; [eauto|].
  apply Qleb_false in E. rewrite pool_total_cons in Hr.
  apply IH; [lra|]. intros ->. unfold pool_total in Hr. cbn in Hr. lra.
Qed.

(** A positive roll over non-negative weights stops at an entry of
    positive weight. *)
Lemma weighted_scan_positive {A : Type} (pool : list (PoolEntry A)) (roll : Q)
  (x : A) :
  (0 < roll)%Q -> Forall (fun e => (0 <= weight e)%Q) pool ->
  weighted_scan roll pool = Some x ->
  exists e, e ∈ pool /\ item e = x /\ (0 < weight e)%Q.
Proof.
  revert roll. induction pool as [|e pool IH]; intros roll Hr Hw Hs; [discriminate|].
  cbn [weighted_scan] in Hs. apply Forall_cons in Hw as [We Hw].
  destruct (Js.Qleb (roll - weight e) 0) eqn:E.
  - injection Hs as <-. apply Qleb_true in E.
    exists e. split; [left|]. split; [reflexivity | lra].
  - apply Qleb_false in E.
    destruct (IH _ E Hw Hs) as (e' & Hin & Hi & Hp).
    exists e'. split; [right; exact Hin | auto].
Qed.

Lemma weightedRandom_cases {A : Type} (rnd : nat -> Q)
  (pool : list (PoolEntry A)) (c : nat) :
  ((pool_total pool <= 0)%Q -> weightedRandom rnd pool c = (None, c))
  /\ ((0 < pool_total pool)%Q ->
      exists e, e ∈ pool /\ weightedRandom rnd pool c = (Some (item e), S c)).
Proof.
  unfold weightedRandom. fold (pool_total pool). split; intros H.
  - apply Qleb_true in H. rewrite H. reflexivity.
  - apply Qleb_false in H. rewrite H. unfold bind, ret, Math_random. cbn [fst snd].
    destruct (weighted_scan (rnd c * pool_total pool) pool) as [x|] eqn:E.
    + destruct (LootProps.weighted_scan_in _ _ _ E) as (e & Hin & <-).
      exists e. split; [exact Hin | reflexivity].
    + destruct pool as [|e0 pool] using rev_ind.
      * apply Qleb_false in H. unfold pool_total in H. cbn in H. lra.
      * rewrite last_snoc. exists e0. split; [|reflexivity].
        apply elem_of_app. right. apply list_elem_of_singleton. reflexivity.
Qed.

Lemma weightedRandom_positive {A : Type} (rnd : nat -> Q)
  (pool : list (PoolEntry A)) (c : nat) :
  Forall (fun e => (0 <= weight e)%Q) pool ->
  (0 < pool_total pool)%Q ->
  (0 < rnd c)%Q -> (rnd c < 1)%Q ->
  exists e, e ∈ pool /\ (0 < weight e)%Q
    /\ fst (weightedRandom rnd pool c) = Some (item e).
Proof.
  intros Hw Ht U0 U1. unfold weightedRandom. fold (pool_total pool).
  pose proof Ht as Hf. apply Qleb_false in Hf. rewrite Hf.
  unfold bind, ret, Math_random. cbn [fst snd].
  assert (Hroll : (0 < rnd c * pool_total pool)%Q)
    by (apply Qmult_lt_0_compat; assumption).
  assert (Hle : (rnd c * pool_total pool <= pool_total pool)%Q).
  { rewrite <- (Qmult_1_l (pool_total pool)) at 2.
    apply Qmult_le_compat_r; lra. }
  assert (Hne : pool <> []).
  { intros ->. unfold pool_total in Ht. cbn in Ht. lra. }
  destruct (weighted_scan_stops pool _ Hle Hne) as [x Hx]. rewrite Hx.
  destruct (weighted_scan_positive pool _ x Hroll Hw Hx) as (e & Hin & <- & Hp).
  exists e. auto.
Qed.

(** [weightedRandom(pool)]: when the total weight is 0 or less (an empty
    pool included) the result is [null] and no random number is drawn;
    otherwise one number is drawn and the result is the item of an entry
    of the pool.  Over non-negative weights, a draw in the open interval
    (0, 1) never selects an entry of weight 0; a draw of exactly 0
    selects the first entry, whatever its weight. *)
Theorem weightedRandom_selection {A : Type} (rnd : nat -> Q)
  (pool : list (PoolEntry A)) (c : nat) :
  ((pool_total pool <= 0)%Q -> weightedRandom rnd pool c = (None, c))
  /\ ((0 < pool_total pool)%Q ->
      exists e, e ∈ pool /\ weightedRandom rnd pool c = (Some (item e), S c))
  /\ (Forall (fun e => (0 <= weight e)%Q) pool -> (0 < pool_total pool)%Q ->
      (0 < rnd c)%Q -> (rnd c < 1)%Q ->
      exists e, e ∈ pool /\ (0 < weight e)%Q
        /\ fst (weightedRandom rnd pool c) = Some (item e))
  /\ (Forall (fun e => (0 <= weight e)%Q) pool -> (0 < pool_total pool)%Q ->
      (rnd c == 0)%Q ->
      fst (weightedRandom rnd pool c) = item <$> head pool).
Proof.
  destruct (weightedRandom_cases rnd pool c) as [A1 A2].
  split; [exact A1|]. split; [exact A2|].
  split; [apply weightedRandom_positive|].
  intros Hw Ht U0. unfold weightedRandom. fold (pool_total pool).
  pose proof Ht as Hf. apply Qleb_false in Hf. rewrite Hf.
  unfold bind, ret, Math_random. cbn [fst snd].
  destruct pool as [|e pool]; [unfold pool_total in Ht; cbn in Ht; lra|].
  cbn [weighted_scan head fmap option_fmap option_map].
  apply Forall_cons in Hw as [We _].
  assert (E : Js.Qleb (rnd c * pool_total (e :: pool) - weight e) 0 = true).
  { apply Qleb_true. rewrite U0. lra. }
  rewrite E. reflexivity.
Qed.

Lemma weightedRandom_selection_witness :
  let pool := [mkPoolEntry 0 "a"; mkPoolEntry 1 "b"] in
  let rnd := fun _ : nat => 1 # 2 in
  ((pool_total pool <= 0)%Q -> weightedRandom rnd pool 0%nat = (None, 0%nat))
  /\ ((0 < pool_total pool)%Q ->
      exists e, e ∈ pool /\ weightedRandom rnd pool 0%nat = (Some (item e), 1%nat))
  /\ (Forall (fun e => (0 <= weight e)%Q) pool -> (0 < pool_total pool)%Q ->
      (0 < rnd 0%nat)%Q -> (rnd 0%nat < 1)%Q ->
      exists e, e ∈ pool /\ (0 < weight e)%Q
        /\ fst (weightedRandom rnd pool 0%nat) = Some (item e))
  /\ (Forall (fun e => (0 <= weight e)%Q) pool -> (0 < pool_total pool)%Q ->
      (rnd 0%nat == 0)%Q ->
      fst (weightedRandom rnd pool 0%nat) = item <$> head pool).
Proof.
  exact (weightedRandom_selection (fun _ => 1 # 2)
           [mkPoolEntry 0 "a"; mkPoolEntry 1 "b"] 0%nat).
Defined.

(** With weights 0 and 1, a draw of one half selects the second entry
    and a draw of 0 the first, of weight 0. *)
Example weightedRandom_zero_draw :
  fst (weightedRandom (fun _ => 1 # 2)
         [mkPoolEntry 0 "a"; mkPoolEntry 1 "b"] 0%nat) = Some "b"
  /\ fst (weightedRandom (fun _ => 0%Q)
            [mkPoolEntry 0 "a"; mkPoolEntry 1 "b"] 0%nat) = Some "a".
Proof. split; reflexivity. Qed.

End DiceFacts.

(** * Further properties of floor-generator.js *)

Module FloorFacts.

Import Dice FloorGenerator FloorSpec LayoutSpec.

(** ** Room types *)

Lemma room_type_pool_total (f : Z) :
  (0 < DiceMoreSpec.pool_total (room_type_pool f))%Q.
Proof. unfold room_type_pool. destruct (2 <=? f); reflexivity. Qed.

Lemma room_type_pool_items (f : Z) (e : PoolEntry RoomType) :
  e ∈ room_type_pool f -> item e ∈ interior_types.
Proof.
  intros Hin. apply list_elem_of_In in Hin. apply list_elem_of_In.
  unfold room_type_pool in Hin.
  destruct (2 <=? f); vm_compute in Hin;
    repeat (destruct Hin as [<-|Hin]; [vm_compute; tauto|]); contradiction.
Qed.

Lemma pickRoomType_cases (rnd : nat -> Q) (f i total : Z) (c : nat) :
  exists t, pickRoomType rnd f i total c = (Some t, S c) /\ t ∈ interior_types.
Proof.
  unfold pickRoomType.
  destruct (DiceFacts.weightedRandom_cases rnd (room_type_pool f) c) as [_ H].
  destruct (H (room_type_pool_total f)) as (e & Hin & ->).
  exists (item e). split; [reflexivity|]. apply (room_type_pool_items f e Hin).
Qed.

(** [pickRoomType] always returns one of the five interior types, never
    [null] and never [boss], whatever the random number it draws. *)
Theorem pickRoomType_interior (rnd : nat -> Q) (f i total : Z) (c : nat) :
  exists t, pickRoomType rnd f i total c = (Some t, S c)
    /\ t ∈ interior_types /\ t <> ty_boss.
Proof.
  destruct (pickRoomType_cases rnd f i total c) as (t & E & Hin).
  exists t. split; [exact E|]. split; [exact Hin|].
  intros ->. apply list_elem_of_In in Hin. vm_compute in Hin.
  repeat (destruct Hin as [Hin|Hin]; [discriminate|]). contradiction.
Qed.

(** ** What [createRoom] puts in a room *)

Section Created.

Variable rnd : nat -> Q.

Lemma createRoom_static (a : RoomArgs) (c : nat) :
  let r := fst (createRoom rnd a c) in
  is_cleared r = false /\ connections r = []
  /\ is_exit r = a_isExit a /\ is_boss_room r = a_isBossRoom a.
Proof. repeat split. Qed.

Lemma createRoom_lock (a : RoomArgs) (c : nat) :
  let r := fst (createRoom rnd a c) in
  (a_type a = Some ty_locked ->
   exists k, lock r
     = Some (mkLock
               (fst (randomDC rnd
                       (mkDcRange (dc_min (a_dcRange a) + 2)
                          (dc_max (a_dcRange a) + 2)) k))
               false false))
  /\ (a_type a <> Some ty_locked -> lock r = None).
Proof.
  unfold createRoom, bind, ret. cbn [fst snd lock]. unfold type_is.
  destruct (bool_decide_reflect (a_type a = Some ty_locked)) as [E|E];
    split; intros H; try contradiction; cbn [fst snd]; eauto.
Qed.

Lemma createRoom_rest (a : RoomArgs) (c : nat) :
  unit_interval rnd ->
  let r := fst (createRoom rnd a c) in
  (a_type a = Some ty_rest ->
   exists rs, rest r = Some rs
     /\ ((2 # 10) <= heal_percent rs)%Q /\ (heal_percent rs < (35 # 100))%Q)
  /\ (a_type a <> Some ty_rest -> rest r = None).
Proof.
  intros Hu. unfold createRoom, bind, ret. cbn [fst snd rest]. unfold type_is.
  destruct (bool_decide_reflect (a_type a = Some ty_rest)) as [E|E];
    split; intros H; try contradiction; cbn [fst snd]; [|reflexivity].
  unfold Math_random. cbn [fst snd]. eexists. split; [reflexivity|].
  cbn [heal_percent].
  match goal with |- context [rnd ?k] => destruct (Hu k) as [U0 U1] end.
  split; lra.
Qed.

Lemma generateTrap_fields (dcRange : DcRange) (c : nat) :
  unit_interval rnd ->
  let t := fst (generateTrap rnd dcRange c) in
  is_triggered t = false /\ is_disarmed t = false
  /\ trap_dc t = fst (randomDC rnd dcRange (S c))
  /\ exists tt, tt ∈ traps /\ trap_name t = tt_name tt
       /\ trap_damage t = tt_damage tt /\ trap_effect t = tt_effect tt.
Proof.
  intros Hu. unfold generateTrap, bind, ret, Math_random. cbn [fst snd].
  split; [reflexivity|]. split; [reflexivity|]. split; [reflexivity|].
  destruct (Hu c) as [U0 U1].
  destruct (DiceFacts.floor_of_fraction (rnd c) (Z.of_nat (length traps)) U0 U1)
    as [Hpos _].
  specialize (Hpos ltac:(cbn; lia)).
  set (idx := Js.Math_floor (rnd c * inject_Z (Z.of_nat (length traps)))) in *.
  destruct (Z.ltb_spec idx 0) as [H|H]; [lia|].
  assert (Hlt : (Z.to_nat idx < length traps)%nat) by (cbn in Hpos |- *; lia).
  destruct (lookup_lt_is_Some_2 _ _ Hlt) as [tt Htt]. rewrite Htt.
  exists tt. split; [eapply list_elem_of_lookup_2; exact Htt|].
  cbn. auto.
Qed.

Lemma createRoom_trap (a : RoomArgs) (c : nat) :
  let r := fst (createRoom rnd a c) in
  (a_type a = Some ty_trap ->
   exists k, trap r = Some (fst (generateTrap rnd (a_dcRange a) k)))
  /\ (a_type a <> Some ty_trap -> trap r = None).
Proof.
  unfold createRoom, bind, ret. cbn [fst snd trap]. unfold type_is.
  destruct (bool_decide_reflect (a_type a = Some ty_trap)) as [E|E].
  - rewrite E. split; [intros _|intros H; contradiction].
    cbn [bool_decide decide_rel andb fst snd]. eexists. reflexivity.
  - split; [intros H; contradiction|intros _].
    destruct (bool_decide (a_type a = Some ty_standard) && negb (a_isEntrance a));
      [|destruct (bool_decide (a_type a = Some ty_boss))]; cbn [fst snd];
      try reflexivity.
    match goal with |- context [Js.Qltb ?u ?q] => destruct (Js.Qltb u q) end;
      reflexivity.
Qed.

Lemma createRoom_chest (a : RoomArgs) (c : nat) :
  let r := fst (createRoom rnd a c) in
  (a_type a = Some ty_treasure -> is_Some (chest r))
  /\ (forall ch, chest r = Some ch ->
        (a_type a = Some ty_treasure
         \/ (a_type a = Some ty_standard /\ a_isEntrance a = false))
        /\ is_opened ch = false /\ is_looted ch = false
        /\ (is_locked ch = true <-> is_Some (chest_lock_dc ch))
        /\ (forall dc, chest_lock_dc ch = Some dc ->
              exists k, dc = fst (randomDC rnd (a_dcRange a) k))).
Proof.
  unfold createRoom, bind, ret. cbn [fst snd chest]. unfold type_is.
  destruct (bool_decide_reflect (a_type a = Some ty_treasure)) as [E|E].
  - match goal with |- context [Js.Qltb ?u ?q] => destruct (Js.Qltb u q) end;
      cbn [fst snd]; (split; [intros _; eauto|]);
      intros ch H; injection H as <-;
      cbn [is_opened is_looted is_locked chest_lock_dc];
      (split; [auto|]); (split; [reflexivity|]); (split; [reflexivity|]); split.
    + split; eauto.
    + intros dc H. injection H as <-. eauto.
    + split; intros H; [discriminate | destruct H; discriminate].
    + intros dc H. discriminate.
  - split; [intros H; contradiction|].
    destruct (bool_decide_reflect (a_type a = Some ty_standard)) as [S|S];
      destruct (a_isEntrance a); cbn [andb negb fst snd];
      try (intros ch H; discriminate).
    match goal with |- context [Js.Qltb ?u ?q] => destruct (Js.Qltb u q) end;
      cbn [fst snd]; intros ch H; [|discriminate].
    injection H as <-. cbn [is_opened is_looted is_locked chest_lock_dc].
    (split; [auto|]). (split; [reflexivity|]). (split; [reflexivity|]). split.
    + split; intros H; [discriminate | destruct H; discriminate].
    + intros dc H. discriminate.
Qed.

End Created.

(** ** Enemies *)

Section Spawning.

Variable rnd : nat -> Q.

Lemma Math_round_integer (n : Z) : Js.Math_round (inject_Z n * 1) = n.
Proof.
  unfold Js.Math_round.
  pose proof (Qfloor_le (inject_Z n * 1 + (1 # 2))) as Hle.
  pose proof (Qlt_floor (inject_Z n * 1 + (1 # 2))) as Hlt.
  set (z := Qfloor (inject_Z n * 1 + (1 # 2))) in *.
  assert (A : (inject_Z z < inject_Z (n + 1))%Q).
  { rewrite inject_Z_plus. change (inject_Z 1) with 1%Q. lra. }
  assert (B : (inject_Z n < inject_Z (z + 1))%Q) by lra.
  rewrite <- Zlt_Qlt in A, B. lia.
Qed.

Lemma createEnemyInstance_fields (rule : EnemyRule) (tier : Z) (isBoss : bool)
  (c : nat) :
  let e := fst (createEnemyInstance rnd rule tier isBoss c) in
  is_dead e = false /\ hp_current e = hp_max e /\ awareness e = "idle"
  /\ e_enemy_id e = enemy_id rule /\ is_boss e = isBoss
  /\ snd (createEnemyInstance rnd rule tier isBoss c) = S c.
Proof. repeat split. Qed.

Lemma createEnemyInstance_spawned (rules : list EnemyRule) (rule : EnemyRule)
  (tier : Z) (isBoss : bool) (c : nat) :
  rule ∈ rules ->
  spawned rules (fst (createEnemyInstance rnd rule tier isBoss c)).
Proof.
  intros Hin. unfold spawned.
  destruct (createEnemyInstance_fields rule tier isBoss c) as (A & B & C & D & _).
  repeat split; auto. exists rule. auto.
Qed.

(** At difficulty tier 1 or below an enemy has the base statistics of
    its rule, unscaled; at every tier it starts alive, idle and at full
    health, and its instance tag is between 1 and 10000. *)
Theorem createEnemyInstance_base (rule : EnemyRule) (tier : Z) (isBoss : bool)
  (c : nat) :
  unit_interval rnd ->
  let e := fst (createEnemyInstance rnd rule tier isBoss c) in
  (tier <= 1 ->
   hp_max e = base_hp rule /\ damage e = base_damage rule
   /\ armor e = base_armor rule)
  /\ hp_current e = hp_max e /\ is_dead e = false /\ awareness e = "idle"
  /\ is_boss e = isBoss /\ 1 <= instance_tag e <= 10000.
Proof.
  intros Hu e. subst e. split.
  - intros Ht. unfold createEnemyInstance, bind, ret.
    cbn [fst snd hp_max damage armor].
    replace (Z.max 0 (tier - 1)) with 0 by lia.
    cbn [Qpower]. rewrite !Math_round_integer. auto.
  - split; [reflexivity|]. split; [reflexivity|]. split; [reflexivity|].
    split; [reflexivity|].
    apply (DiceProps.roll_bounds rnd 10000 c Hu). lia.
Qed.

Lemma spawn_pool_items (rules : list EnemyRule) (e : PoolEntry EnemyRule) :
  e ∈ spawn_pool rules -> item e ∈ rules.
Proof.
  unfold spawn_pool. intros H.
  change (e ∈ (fun r => mkPoolEntry (inject_Z (spawn_weight r)) r) <$> rules) in H.
  apply list_elem_of_fmap in H as (r & -> & Hr). exact Hr.
Qed.

Lemma spawn_pool_total (rules : list EnemyRule) :
  Forall (fun r => 0 < spawn_weight r) rules ->
  (0 <= DiceMoreSpec.pool_total (spawn_pool rules))%Q
  /\ (rules <> [] -> (0 < DiceMoreSpec.pool_total (spawn_pool rules))%Q).
Proof.
  induction 1 as [|r rules Hr _ [IH _]].
  - split; [discriminate | congruence].
  - unfold spawn_pool. cbn [map]. fold (spawn_pool rules).
    rewrite DiceFacts.pool_total_cons. cbn [weight].
    assert (0 < inject_Z (spawn_weight r))%Q
      by (change 0%Q with (inject_Z 0); rewrite <- Zlt_Qlt; exact Hr).
    split; [|intros _]; lra.
Qed.

Lemma spawn_loop_S (n : nat) (rules : list EnemyRule) (tier : Z) (c : nat) :
  spawn_loop rnd (S n) rules tier c
  = let rule := weightedRandom rnd (spawn_pool rules) c in
    let here :=
      (match fst rule with
       | Some r => let* e := createEnemyInstance rnd r tier false in ret [e]
       | None => ret []
       end) (snd rule) in
    let more := spawn_loop rnd n rules tier (snd here) in
    (fst here ++ fst more, snd more).
Proof. reflexivity. Qed.

Lemma spawn_loop_spec (n : nat) (rules : list EnemyRule) (tier : Z) (c : nat) :
  let es := fst (spawn_loop rnd n rules tier c) in
  (length es <= n)%nat
  /\ Forall (fun e => spawned rules e /\ is_boss e = false) es
  /\ ((0 < DiceMoreSpec.pool_total (spawn_pool rules))%Q -> length es = n).
Proof.
  revert c. induction n as [|n IH]; intros c.
  - cbn. split; [lia|]. split; [constructor | reflexivity].
  - rewrite spawn_loop_S. cbv zeta. cbn [fst snd].
    destruct (DiceFacts.weightedRandom_cases rnd (spawn_pool rules) c)
      as [Hnone Hsome].
    destruct (Qlt_le_dec 0 (DiceMoreSpec.pool_total (spawn_pool rules)))
      as [Hpos|Hneg].
    + destruct (Hsome Hpos) as (e & Hin & ->). cbn [fst snd].
      unfold bind, ret. cbn [fst snd].
      match goal with
      | |- context [spawn_loop rnd n rules tier ?k] =>
          destruct (IH k) as (L & F & X)
      end.
      specialize (X Hpos). cbn [app length].
      split; [lia|]. split; [|intros _; lia].
      constructor; [|exact F]. split; [|reflexivity].
      apply createEnemyInstance_spawned, spawn_pool_items, Hin.
    + rewrite (Hnone Hneg). cbn [fst snd]. unfold ret. cbn [fst snd app].
      destruct (IH c) as (L & F & X).
      split; [lia|]. split; [exact F|]. intros H. lra.
Qed.

Lemma regular_rules_spec (rules : list EnemyRule) :
  let regularRules :=
    filter (fun r => rule_is_boss r = 0 /\ 0 < spawn_weight r) rules in
  Forall (fun r => 0 < spawn_weight r) regularRules
  /\ (forall r, r ∈ regularRules -> r ∈ rules)
  /\ (forall r, r ∈ rules -> regular_rule r -> regularRules <> []).
Proof.
  cbv zeta. split; [|split].
  - apply Forall_forall. intros r Hr. apply list_elem_of_filter in Hr. tauto.
  - intros r Hr. apply list_elem_of_filter in Hr. tauto.
  - intros r Hr Hreg Hnil.
    assert (Hin : r ∈ filter (fun r => rule_is_boss r = 0 /\ 0 < spawn_weight r) rules)
      by (apply list_elem_of_filter; split; assumption).
    rewrite Hnil in Hin. inversion Hin.
Qed.

Lemma spawned_more (rules rules' : list EnemyRule) (e : Enemy) :
  (forall r, r ∈ rules -> r ∈ rules') -> spawned rules e -> spawned rules' e.
Proof.
  intros Hsub (A & B & C & rule & Hin & E). repeat split; auto.
  exists rule. auto.
Qed.

Lemma spawnEnemies_regular (rules : list EnemyRule) (f tier : Z) (c : nat) :
  unit_interval rnd ->
  let es := fst (spawnEnemies rnd rules f tier false c) in
  Forall (fun e => spawned rules e /\ is_boss e = false) es
  /\ (length es <= 2)%nat
  /\ (f <= 1 -> (length es <= 1)%nat)
  /\ (1 <= f -> (exists r, r ∈ rules /\ regular_rule r) -> (1 <= length es)%nat)
  /\ ((forall r, r ∈ rules -> ~ regular_rule r) -> es = []).
Proof.
  intros Hu. unfold spawnEnemies.
  destruct (regular_rules_spec rules) as (Hw & Hsub & Hne).
  set (regularRules := filter _ rules) in *.
  destruct regularRules as [|r0 rest] eqn:E.
  - cbn. split; [constructor|]. split; [lia|]. split; [lia|].
    split; [|reflexivity].
    intros _ (r & Hr & Hreg). exfalso. apply (Hne r Hr Hreg). reflexivity.
  - unfold bind, Math_random. cbn [fst snd]. destruct (Hu c) as [U0 U1].
    destruct (DiceFacts.floor_of_fraction (rnd c) (Z.min 2 f) U0 U1)
      as [Fpos Fneg].
    set (fl := Js.Math_floor (rnd c * inject_Z (Z.min 2 f))) in *.
    assert (Hfl : (0 < Z.min 2 f /\ 0 <= fl <= Z.min 2 f - 1)
                  \/ (Z.min 2 f <= 0 /\ Z.min 2 f <= fl <= 0)).
    { destruct (Z_lt_le_dec 0 (Z.min 2 f)) as [H|H]; [left | right]; auto. }
    clear Fpos Fneg.
    destruct (spawn_loop_spec (Z.to_nat (1 + fl)) (r0 :: rest) tier (S c))
      as (L & F & X).
    destruct (spawn_pool_total (r0 :: rest) Hw) as [_ Hpos].
    specialize (X (Hpos ltac:(discriminate))).
    split.
    { eapply Forall_impl; [exact F|]. intros e [He Hb]. split; [|exact Hb].
      eapply spawned_more; [|exact He]. exact Hsub. }
    split; [lia|]. split; [intros Hf; lia|]. split; [intros Hf _; lia|].
    intros Hno. exfalso. apply (Hno r0).
    + apply Hsub. left.
    + assert (Hin : r0 ∈ filter (fun r => rule_is_boss r = 0 /\ 0 < spawn_weight r) rules).
      { fold regularRules. rewrite E. left. }
      apply list_elem_of_filter in Hin. exact (proj1 Hin).
Qed.

Lemma boss_adds (rules : list EnemyRule) (tier : Z) (bossL : list Enemy)
  (k : nat) :
  unit_interval rnd ->
  Forall (spawned rules) bossL -> (length bossL <= 1)%nat ->
  Forall (fun e => is_boss e = true) bossL ->
  let es :=
    fst ((let* u := Math_random rnd in
          if Js.Qltb u (1 # 2) then
            let regularRules :=
              filter (fun r => rule_is_boss r = 0 /\ 0 < spawn_weight r) rules in
            let* addCount := roll rnd 2 in
            let* adds := spawn_loop rnd (Z.to_nat addCount) regularRules tier in
            ret (bossL ++ adds)
          else ret bossL) k) in
  Forall (spawned rules) es
  /\ (length es <= 3)%nat
  /\ (forall i e, es !! i = Some e -> is_boss e = true -> i = 0%nat)
  /\ (bossL <> [] -> exists e, es !! 0%nat = Some e /\ is_boss e = true).
Proof.
  intros Hu Hs Hl Hb.
  destruct (regular_rules_spec rules) as (_ & Hsub & _).
  unfold bind at 1, Math_random. cbn [fst snd].
  assert (Hhead : bossL <> [] ->
            exists e, bossL !! 0%nat = Some e /\ is_boss e = true).
  { destruct bossL as [|e0 l]; [congruence|]. intros _. exists e0.
    split; [reflexivity|]. apply Forall_cons in Hb. tauto. }
  assert (Honly : forall i e, bossL !! i = Some e -> i = 0%nat).
  { intros i e Hi. apply lookup_lt_Some in Hi. lia. }
  destruct (Js.Qltb (rnd k) (1 # 2)).
  - unfold bind, ret. cbn [fst snd].
    pose proof (DiceProps.roll_bounds rnd 2 (S k) Hu ltac:(lia)) as R.
    set (n := fst (roll rnd 2 (S k))) in *.
    match goal with
    | |- context [spawn_loop rnd (Z.to_nat n) ?rr tier ?k'] =>
        destruct (spawn_loop_spec (Z.to_nat n) rr tier k') as (L & F & _);
        set (adds := fst (spawn_loop rnd (Z.to_nat n) rr tier k')) in *
    end.
    assert (Fs : Forall (spawned rules) adds).
    { eapply Forall_impl; [exact F|]. intros e [He _].
      eapply spawned_more; [|exact He]. exact Hsub. }
    split; [apply Forall_app; auto|].
    split; [rewrite length_app; lia|]. split.
    + intros i e Hi Hboss. apply lookup_app_Some in Hi as [Hi|[_ Hi]].
      * eapply Honly; eauto.
      * exfalso. rewrite Forall_forall in F.
        destruct (F e (list_elem_of_lookup_2 _ _ _ Hi)) as [_ Hnb]. congruence.
    + intros Hne. destruct (Hhead Hne) as (e & He & Hbe). exists e.
      split; [apply lookup_app_l_Some; exact He | exact Hbe].
  - unfold ret. cbn [fst snd].
    split; [exact Hs|]. split; [lia|]. split; [|exact Hhead].
    intros i e Hi _. eapply Honly; eauto.
Qed.

Lemma spawnEnemies_boss (rules : list EnemyRule) (f tier : Z) (c : nat) :
  unit_interval rnd ->
  let es := fst (spawnEnemies rnd rules f tier true c) in
  Forall (spawned rules) es
  /\ (length es <= 3)%nat
  /\ (forall k e, es !! k = Some e -> is_boss e = true -> k = 0%nat)
  /\ (forall b, b ∈ rules -> rule_is_boss b = 1 ->
        exists e, es !! 0%nat = Some e /\ is_boss e = true).
Proof.
  intros Hu. unfold spawnEnemies.
  set (bossRules := filter (fun r => rule_is_boss r = 1) rules).
  assert (Hb : forall r, r ∈ bossRules -> r ∈ rules).
  { intros r Hr. apply list_elem_of_filter in Hr. tauto. }
  assert (Hsome : forall b, b ∈ rules -> rule_is_boss b = 1 -> bossRules <> []).
  { intros b Hin Hboss Hnil.
    assert (H : b ∈ bossRules) by (apply list_elem_of_filter; auto).
    rewrite Hnil in H. inversion H. }
  destruct bossRules as [|b0 rest].
  - destruct (boss_adds rules tier [] c Hu) as (A & B & C & _);
      [constructor | cbn; lia | constructor |].
    split; [exact A|]. split; [exact B|]. split; [exact C|].
    intros b Hin Hboss. exfalso. exact (Hsome b Hin Hboss eq_refl).
  - destruct (boss_adds rules tier
                [fst (createEnemyInstance rnd b0 tier true c)]
                (snd (createEnemyInstance rnd b0 tier true c)) Hu)
      as (A & B & C & D).
    + constructor; [|constructor].
      apply createEnemyInstance_spawned, Hb. left.
    + cbn. lia.
    + constructor; [reflexivity | constructor].
    + split; [exact A|]. split; [exact B|]. split; [exact C|].
      intros b _ _. apply D. discriminate.
Qed.

(** [spawnEnemies]: every enemy spawned is alive, idle, at full health
    and an instance of one of the rules.  A regular room gets at most 2
    regular enemies (at most 1 on floor 1 and below), at least 1 from
    floor 1 on when some rule is eligible, and none when no rule is.  A
    boss room gets at most 3 enemies, of which only the first can be a
    boss, and it is one whenever a boss rule exists. *)
Theorem spawnEnemies_caps (rules : list EnemyRule) (f tier : Z)
  (isBossRoom : bool) (c : nat) :
  unit_interval rnd ->
  let es := fst (spawnEnemies rnd rules f tier isBossRoom c) in
  Forall (spawned rules) es
  /\ (isBossRoom = false ->
      (length es <= 2)%nat
      /\ Forall (fun e => is_boss e = false) es
      /\ (f <= 1 -> (length es <= 1)%nat)
      /\ (1 <= f -> (exists r, r ∈ rules /\ regular_rule r) ->
          (1 <= length es)%nat)
      /\ ((forall r, r ∈ rules -> ~ regular_rule r) -> es = []))
  /\ (isBossRoom = true ->
      (length es <= 3)%nat
      /\ (forall k e, es !! k = Some e -> is_boss e = true -> k = 0%nat)
      /\ (forall b, b ∈ rules -> rule_is_boss b = 1 ->
            exists e, es !! 0%nat = Some e /\ is_boss e = true)).
Proof.
  intros Hu es. subst es. destruct isBossRoom.
  - destruct (spawnEnemies_boss rules f tier c Hu) as (A & B & C & D).
    split; [exact A|]. split; [discriminate|]. intros _. auto.
  - destruct (spawnEnemies_regular rules f tier c Hu) as (A & B & C & D & E).
    split; [eapply Forall_impl; [exact A|]; intros e [He _]; exact He|].
    split; [|discriminate]. intros _.
    split; [exact B|].
    split; [eapply Forall_impl; [exact A|]; intros e [_ He]; exact He|].
    auto.
Qed.

End Spawning.

Lemma createEnemyInstance_base_witness :
  unit_interval (fun _ => 1 # 2)
  /\ (let rule := mkEnemyRule 7 "Rat" 0 5 12 3 1 None ∅ 5 1 4 in
      let e := fst (createEnemyInstance (fun _ => 1 # 2) rule 1 false 0%nat) in
      (1 <= 1 ->
       hp_max e = base_hp rule /\ damage e = base_damage rule
       /\ armor e = base_armor rule)
      /\ hp_current e = hp_max e /\ is_dead e = false /\ awareness e = "idle"
      /\ is_boss e = false /\ 1 <= instance_tag e <= 10000).
Proof.
  split; [exact DiceFacts.half_oracle|].
  exact (createEnemyInstance_base (fun _ => 1 # 2) (mkEnemyRule 7 "Rat" 0 5 12 3 1 None ∅ 5 1 4)
           1 false 0%nat DiceFacts.half_oracle).
Defined.

Lemma spawnEnemies_caps_witness :
  unit_interval (fun _ => 1 # 2)
  /\ (let rules := [mkEnemyRule 7 "Rat" 0 5 12 3 1 None ∅ 5 1 4] in
      let es := fst (spawnEnemies (fun _ => 1 # 2) rules 1 1 false 0%nat) in
      Forall (spawned rules) es
      /\ (false = false ->
          (length es <= 2)%nat
          /\ Forall (fun e => is_boss e = false) es
          /\ (1 <= 1 -> (length es <= 1)%nat)
          /\ (1 <= 1 -> (exists r, r ∈ rules /\ regular_rule r) ->
              (1 <= length es)%nat)
          /\ ((forall r, r ∈ rules -> ~ regular_rule r) -> es = []))
      /\ (false = true ->
          (length es <= 3)%nat
          /\ (forall k e, es !! k = Some e -> is_boss e = true -> k = 0%nat)
          /\ (forall b, b ∈ rules -> rule_is_boss b = 1 ->
                exists e, es !! 0%nat = Some e /\ is_boss e = true))).
Proof.
  split; [exact DiceFacts.half_oracle|].
  exact (spawnEnemies_caps (fun _ => 1 # 2) [mkEnemyRule 7 "Rat" 0 5 12 3 1 None ∅ 5 1 4]
           1 1 false 0%nat DiceFacts.half_oracle).
Defined.

Lemma createRoom_enemies (rnd : nat -> Q) (a : RoomArgs) (c : nat) :
  unit_interval rnd ->
  let es := enemies (fst (createRoom rnd a c)) in
  Forall (spawned (a_enemyRules a)) es
  /\ (es <> [] ->
      (a_type a = Some ty_standard /\ a_isEntrance a = false)
      \/ a_type a = Some ty_trap \/ a_type a = Some ty_boss)
  /\ (a_type a <> Some ty_boss ->
      (length es <= 2)%nat /\ Forall (fun e => is_boss e = false) es)
  /\ (a_type a = Some ty_boss ->
      (length es <= 3)%nat
      /\ forall k e, es !! k = Some e -> is_boss e = true -> k = 0%nat).
Proof.
  intros Hu. unfold createRoom, bind, ret, Math_random. cbn [fst snd enemies].
  set (tier := difficulty_tier (a_dungeon a)).
  assert (Hreg : forall k,
            let es := fst (spawnEnemies rnd (a_enemyRules a) (a_floorNumber a)
                             tier false k) in
            Forall (spawned (a_enemyRules a)) es
            /\ (length es <= 2)%nat /\ Forall (fun e => is_boss e = false) es).
  { intros k. destruct (spawnEnemies_regular rnd (a_enemyRules a)
                          (a_floorNumber a) tier k Hu) as (A & B & _).
    split; [eapply Forall_impl; [exact A|]; intros e [He _]; exact He|].
    split; [exact B|]. eapply Forall_impl; [exact A|]. intros e [_ He]. exact He. }
  assert (Hnil : Forall (spawned (a_enemyRules a)) []
                 /\ (length (@nil Enemy) <= 2)%nat
                 /\ Forall (fun e : Enemy => is_boss e = false) [])
    by (split; [constructor|]; split; [cbn; lia | constructor]).
  unfold type_is.
  destruct (bool_decide_reflect (a_type a = Some ty_standard)) as [Es|Es].
  - destruct (a_isEntrance a) eqn:Ee; cbn [andb negb].
    + destruct (bool_decide_reflect (a_type a = Some ty_trap)) as [Et|Et];
        [congruence|].
      destruct (bool_decide_reflect (a_type a = Some ty_boss)) as [Eb|Eb];
        [congruence|].
      unfold ret. cbn [fst snd]. destruct Hnil as (A & B & C).
      split; [exact A|]. split; [congruence|]. split; [auto | congruence].
    + unfold bind, ret, Math_random. cbn [fst snd].
      destruct (Js.Qltb (rnd c) (6 # 10)); cbn [fst snd].
      * destruct (Hreg (S c)) as (A & B & C).
        split; [exact A|]. split; [auto|]. split; [auto | congruence].
      * destruct Hnil as (A & B & C).
        split; [exact A|]. split; [congruence|]. split; [auto | congruence].
  - cbn [andb].
    destruct (bool_decide_reflect (a_type a = Some ty_trap)) as [Et|Et].
    + unfold bind, ret, Math_random. cbn [fst snd].
      destruct (Js.Qltb (rnd c) (3 # 10)); cbn [fst snd].
      * destruct (Hreg (S c)) as (A & B & C).
        split; [exact A|]. split; [auto|]. split; [auto | congruence].
      * destruct Hnil as (A & B & C).
        split; [exact A|]. split; [congruence|]. split; [auto | congruence].
    + destruct (bool_decide_reflect (a_type a = Some ty_boss)) as [Eb|Eb].
      * unfold bind, ret. cbn [fst snd].
        destruct (spawnEnemies_boss rnd (a_enemyRules a) (a_floorNumber a)
                    tier c Hu) as (A & B & C & _).
        split; [exact A|]. split; [auto|]. split; [contradiction | auto].
      * unfold ret. cbn [fst snd]. destruct Hnil as (A & B & C).
        split; [exact A|]. split; [congruence|]. split; [auto | contradiction].
Qed.

(** ** The generation of connections leaves the content of rooms alone *)

Lemma fmap_alter_same {A B : Type} (g : A -> B) (f : A -> A) (i : nat)
  (l : list A) :
  (forall x, g (f x) = g x) -> g <$> alter f i l = g <$> l.
Proof.
  intros H. apply list_eq. intros j. rewrite !list_lookup_fmap.
  destruct (decide (i = j)) as [->|Hne].
  - rewrite list_lookup_alter_eq. destruct (l !! j); cbn; [rewrite H|]; reflexivity.
  - rewrite list_lookup_alter_ne by exact Hne. reflexivity.
Qed.

Lemma content_push (n : Z) (r : Room) : content (push_connection n r) = content r.
Proof. reflexivity. Qed.

Lemma content_accessible (b : bool) (r : Room) :
  content (set_is_accessible b r) = content r.
Proof. reflexivity. Qed.

Lemma link_step_content (rs : list Room) (i : nat) :
  content <$> link_step rs i = content <$> rs.
Proof.
  unfold link_step.
  destruct (rs !! i) as [from|]; [|reflexivity].
  destruct (rs !! S i) as [to|]; [|reflexivity].
  repeat match goal with
         | |- context [if ?b then _ else _] => destruct b
         end;
    rewrite ?fmap_alter_same; auto using content_push, content_accessible.
Qed.

Lemma link_loop_content (rs : list Room) (l : list nat) :
  content <$> foldl link_step rs l = content <$> rs.
Proof.
  revert rs. induction l as [|i l IH]; intros rs; [reflexivity|].
  cbn [foldl]. rewrite IH. apply link_step_content.
Qed.

Lemma branch_step_content (rnd : nat -> Q) (rs : list Room) (i c : nat) :
  content <$> fst (branch_step rnd rs i c) = content <$> rs.
Proof.
  unfold branch_step, bind, ret, Math_random. cbn [fst snd].
  repeat match goal with
         | |- context [if ?b then _ else _] => destruct b
         | |- context [match ?o with Some _ => _ | None => _ end] => destruct o
         end;
    cbn [fst snd]; rewrite ?fmap_alter_same; auto using content_push.
Qed.

Lemma branch_loop_content (rnd : nat -> Q) (l : list nat) (rs : list Room)
  (c : nat) :
  content <$> fst (foldM (branch_step rnd) l rs c) = content <$> rs.
Proof.
  revert rs c. induction l as [|i l IH]; intros rs c; [reflexivity|].
  rewrite LootProps.foldM_cons. unfold bind. rewrite IH.
  apply branch_step_content.
Qed.

Lemma generateConnections_content (rnd : nat -> Q) (rs : list Room) (c : nat) :
  content <$> fst (generateConnections rnd rs c) = content <$> rs.
Proof.
  unfold generateConnections.
  rewrite branch_loop_content, fmap_alter_same by apply content_accessible.
  apply link_loop_content.
Qed.

(** ** The rooms that [generateFloor] creates *)

Section Shape.

Variable rnd : nat -> Q.

Lemma middleRooms_S (n : nat) (i roomCount : Z) (d : Dungeon) (f : Z)
  (rules : list EnemyRule) (c : nat) :
  middleRooms rnd (S n) i roomCount d f rules c
  = let picked := pickRoomType rnd f i roomCount c in
    let ty :=
      if (i =? 2) && type_is (fst picked) ty_locked then Some ty_standard
      else fst picked in
    let room :=
      createRoom rnd
        (mkRoomArgs i ty (dc_range d) f rules false d false false)
        (snd picked) in
    let more := middleRooms rnd n (i + 1) roomCount d f rules (snd room) in
    (fst room :: fst more, snd more).
Proof. reflexivity. Qed.

#[local] Opaque createRoom.

Lemma middleRooms_created (count : nat) (i roomCount : Z) (d : Dungeon)
  (f : Z) (rules : list EnemyRule) (c k : nat) (m : Room) :
  fst (middleRooms rnd count i roomCount d f rules c) !! k = Some m ->
  exists ty c',
    m = fst (createRoom rnd (interior_args d f rules (i + Z.of_nat k) ty) c')
    /\ ty ∈ interior_types /\ (i + Z.of_nat k = 2 -> ty <> ty_locked).
Proof.
  revert i c k. induction count as [|n IH]; intros i c k; [discriminate|].
  rewrite middleRooms_S. cbv zeta.
  destruct (pickRoomType_cases rnd f i roomCount c) as (t & -> & Hin).
  cbn [fst snd]. destruct k as [|k].
  - intros H. apply (inj Some) in H. subst m.
    replace (i + Z.of_nat 0) with i by lia. unfold interior_args, type_is.
    destruct (Z.eqb_spec i 2) as [E|E];
      destruct (bool_decide_reflect (Some t = Some ty_locked)) as [L|L];
      cbn [andb].
    + exists ty_standard, (S c). split; [reflexivity|].
      split; [left | discriminate].
    + exists t, (S c). split; [reflexivity|]. split; [exact Hin|].
      intros _ ->. apply L. reflexivity.
    + exists t, (S c). split; [reflexivity|]. split; [exact Hin|].
      intros H. contradiction.
    + exists t, (S c). split; [reflexivity|]. split; [exact Hin|].
      intros H. contradiction.
  - intros H. change (fst (middleRooms rnd n (i + 1) roomCount d f rules
                             (snd (createRoom rnd
                                (mkRoomArgs i
                                   (if (i =? 2) && type_is (Some t) ty_locked
                                    then Some ty_standard else Some t)
                                   (dc_range d) f rules false d false false)
                                (S c)))) !! k = Some m) in H.
    destruct (IH _ _ _ H) as (ty & c' & E & Hty & Hl).
    exists ty, c'. replace (i + Z.of_nat (S k)) with (i + 1 + Z.of_nat k) by lia.
    auto.
Qed.

(** The rooms of a generated floor are the rooms that [createRoom]
    returns for the entrance, the interior rooms and the final room,
    connected. *)
Lemma generateFloor_shape (d : Dungeon) (f : Z) (fin : bool)
  (rules : list EnemyRule) (c : nat) :
  exists (c1 c3 c4 : nat) (middle : list Room),
    rooms (fst (generateFloor rnd d f fin rules c))
    = fst (generateConnections rnd
             (fst (createRoom rnd (entrance_args d f rules) c1)
                :: middle
                ++ [fst (createRoom rnd
                           (final_args d f rules (roomCount_of rnd f c) fin) c3)])
             c4)
    /\ length middle = Z.to_nat (roomCount_of rnd f c - 2)
    /\ forall k m, middle !! k = Some m ->
         exists ty c',
           m = fst (createRoom rnd
                      (interior_args d f rules (2 + Z.of_nat k) ty) c')
           /\ ty ∈ interior_types /\ (k = 0%nat -> ty <> ty_locked).
Proof.
  unfold generateFloor, bind, ret. cbn [fst snd rooms].
  fold (roomCount_of rnd f c). fold (entrance_args d f rules).
  set (c1 := snd (roll rnd 3 c)).
  set (c2 := snd (createRoom rnd (entrance_args d f rules) c1)).
  set (mid := middleRooms rnd (Z.to_nat (roomCount_of rnd f c - 2)) 2
                (roomCount_of rnd f c) d f rules c2).
  exists c1, (snd mid).
  exists (snd (createRoom rnd (final_args d f rules (roomCount_of rnd f c) fin)
                 (snd mid))).
  exists (fst mid).
  split; [destruct fin; reflexivity|].
  split; [apply FloorProps.middleRooms_length|].
  intros k m Hm. subst mid.
  destruct (middleRooms_created _ _ _ _ _ _ _ _ _ Hm) as (ty & c' & E & Hty & Hl).
  exists ty, c'. split; [exact E|]. split; [exact Hty|].
  intros ->. apply Hl. reflexivity.
Qed.

(** How the room at index [i] of a generated floor was created. *)
Lemma generateFloor_created (d : Dungeon) (f : Z) (fin : bool)
  (rules : list EnemyRule) (c i : nat) (r : Room) :
  let fm := fst (generateFloor rnd d f fin rules c) in
  rooms fm !! i = Some r ->
  exists a c',
    content r = content (fst (createRoom rnd a c'))
    /\ ((i = 0%nat /\ a = entrance_args d f rules
         /\ (1 < length (rooms fm))%nat)
        \/ (exists ty, a = interior_args d f rules (Z.of_nat i + 1) ty
              /\ ty ∈ interior_types /\ (i = 1%nat -> ty <> ty_locked)
              /\ (0 < i)%nat /\ (S i < length (rooms fm))%nat)
        \/ (S i = length (rooms fm) /\ (0 < i)%nat
            /\ a = final_args d f rules (roomCount_of rnd f c) fin)).
Proof.
  intros fm Hr. subst fm.
  destruct (generateFloor_shape d f fin rules c)
    as (c1 & c3 & c4 & middle & Heq & Hlen & Hmid).
  assert (Hl : length (rooms (fst (generateFloor rnd d f fin rules c)))
               = S (length middle + 1)).
  { rewrite Heq, FloorProps.generateConnections_length. cbn [length].
    rewrite length_app. reflexivity. }
  rewrite Hl.
  assert (Hc : content <$> rooms (fst (generateFloor rnd d f fin rules c))
               = content <$> (fst (createRoom rnd (entrance_args d f rules) c1)
                    :: middle
                    ++ [fst (createRoom rnd
                               (final_args d f rules (roomCount_of rnd f c) fin)
                               c3)])).
  { rewrite Heq. apply generateConnections_content. }
  assert (Hi : (content <$> rooms (fst (generateFloor rnd d f fin rules c))) !! i
               = Some (content r)).
  { rewrite list_lookup_fmap, Hr. reflexivity. }
  rewrite Hc, list_lookup_fmap in Hi.
  destruct i as [|i].
  - cbn in Hi. apply (inj Some) in Hi.
    exists (entrance_args d f rules), c1. split; [symmetry; exact Hi|]. left.
    split; [reflexivity|]. split; [reflexivity | lia].
  - cbn [lookup list_lookup] in Hi.
    change (content <$> (middle ++ [fst (createRoom rnd
                               (final_args d f rules (roomCount_of rnd f c) fin)
                               c3)]) !! i = Some (content r)) in Hi.
    destruct ((middle ++ [fst (createRoom rnd
                               (final_args d f rules (roomCount_of rnd f c) fin)
                               c3)]) !! i) as [m|] eqn:Hm; [|discriminate].
    cbn in Hi. apply (inj Some) in Hi.
    apply lookup_app_Some in Hm as [Hm|[Hge Hm]].
    + destruct (Hmid _ _ Hm) as (ty & c' & -> & Hty & Hk).
      exists (interior_args d f rules (Z.of_nat (S i) + 1) ty), c'.
      replace (Z.of_nat (S i) + 1) with (2 + Z.of_nat i) by lia.
      split; [symmetry; exact Hi|]. right. left. exists ty.
      split; [reflexivity|]. split; [exact Hty|].
      apply lookup_lt_Some in Hm.
      split; [intros E; apply Hk; lia | lia].
    + apply list_lookup_singleton_Some in Hm as [Hz <-].
      exists (final_args d f rules (roomCount_of rnd f c) fin), c3.
      split; [symmetry; exact Hi|]. right. right.
      split; [lia|]. split; [lia | reflexivity].
Qed.

End Shape.

Lemma content_fields (r r0 : Room) :
  content r = content r0 ->
  room_number r = room_number r0 /\ type r = type r0
  /\ is_cleared r = is_cleared r0 /\ enemies r = enemies r0
  /\ trap r = trap r0 /\ chest r = chest r0 /\ lock r = lock r0
  /\ rest r = rest r0 /\ is_exit r = is_exit r0
  /\ is_boss_room r = is_boss_room r0.
Proof.
  intros H.
  split; [exact (f_equal room_number H)|]. split; [exact (f_equal type H)|].
  split; [exact (f_equal is_cleared H)|]. split; [exact (f_equal enemies H)|].
  split; [exact (f_equal trap H)|]. split; [exact (f_equal chest H)|].
  split; [exact (f_equal lock H)|]. split; [exact (f_equal rest H)|].
  split; [exact (f_equal is_exit H) | exact (f_equal is_boss_room H)].
Qed.

(** The layout of a generated floor: no room starts cleared; the last
    room, and only it, is the boss room on the final floor (of type
    [boss]) and the exit on any other floor (of type [standard]); every
    other room has one of the five interior types; the room after the
    entrance is never of type [locked]; and the rooms are numbered from 1
    in order. *)
Theorem generateFloor_layout (rnd : nat -> Q) (d : Dungeon) (f : Z)
  (fin : bool) (rules : list EnemyRule) (c : nat) :
  unit_interval rnd -> 1 <= f ->
  let fm := fst (generateFloor rnd d f fin rules c) in
  forall i r, rooms fm !! i = Some r ->
    room_number r = Z.of_nat i + 1
    /\ is_cleared r = false
    /\ (S i = length (rooms fm) ->
        type r = Some (if fin then ty_boss else ty_standard)
        /\ is_boss_room r = fin /\ is_exit r = negb fin)
    /\ (S i <> length (rooms fm) ->
        is_boss_room r = false /\ is_exit r = false
        /\ exists t, type r = Some t /\ t ∈ interior_types)
    /\ (i = 1%nat -> type r <> Some ty_locked).
Proof.
  intros Hu Hf fm i r Hr.
  destruct (FloorProps.generateFloor_lookup rnd d f fin rules c Hu Hf) as [_ Hnum].
  destruct (Hnum i r Hr) as [Hn _].
  destruct (generateFloor_created rnd d f fin rules c i r Hr)
    as (a & c' & Hc & Hcase).
  destruct (content_fields _ _ Hc) as (_ & Ht & Hcl & _ & _ & _ & _ & _ & He & Hb).
  destruct (createRoom_static rnd a c') as (S1 & _ & S3 & S4).
  rewrite FloorProps.createRoom_type in Ht.
  fold fm in Hcase.
  split; [exact Hn|]. split; [congruence|].
  rewrite Ht, He, Hb, S3, S4.
  destruct Hcase as [(-> & -> & Hlen)|[(ty & -> & Hty & Hk & Hpos & Hlt)|(Hlast & Hpos & ->)]].
  - unfold entrance_args. cbn [a_type a_isExit a_isBossRoom].
    split; [intros H; lia|]. split; [|discriminate].
    intros _. split; [reflexivity|]. split; [reflexivity|].
    exists ty_standard. split; [reflexivity | left].
  - unfold interior_args. cbn [a_type a_isExit a_isBossRoom].
    split; [intros H; lia|]. split.
    + intros _. split; [reflexivity|]. split; [reflexivity|]. exists ty. auto.
    + intros E H. injection H as ->. exact (Hk E eq_refl).
  - unfold final_args.
    split; [|split; [intros H; contradiction|]]; destruct fin;
      cbn [a_type a_isExit a_isBossRoom negb]; auto; intros _; discriminate.
Qed.

Lemma generateFloor_layout_witness :
  unit_interval (fun _ => 1 # 2) /\ 1 <= 1
  /\ (let fm := fst (generateFloor (fun _ => 1 # 2) sample_dungeon 1 false []
                       0%nat) in
      forall i r, rooms fm !! i = Some r ->
        room_number r = Z.of_nat i + 1
        /\ is_cleared r = false
        /\ (S i = length (rooms fm) ->
            type r = Some (if false then ty_boss else ty_standard)
            /\ is_boss_room r = false /\ is_exit r = negb false)
        /\ (S i <> length (rooms fm) ->
            is_boss_room r = false /\ is_exit r = false
            /\ exists t, type r = Some t /\ t ∈ interior_types)
        /\ (i = 1%nat -> type r <> Some ty_locked)).
Proof.
  assert (H : 1 <= 1) by lia.
  split; [exact DiceFacts.half_oracle|]. split; [exact H|].
  exact (generateFloor_layout (fun _ => 1 # 2) sample_dungeon 1 false [] 0%nat
           DiceFacts.half_oracle H).
Defined.

Lemma createRoom_contents (rnd : nat -> Q) (a : RoomArgs) (c : nat) :
  unit_interval rnd ->
  let r := fst (createRoom rnd a c) in
  let lo := dc_min (a_dcRange a) in
  let hi := dc_max (a_dcRange a) in
  (forall l, lock r = Some l ->
     type r = Some ty_locked /\ is_picked l = false /\ requires_key l = false
     /\ (lo <= hi -> lo + 2 <= lock_dc l <= hi + 2))
  /\ (type r = Some ty_locked -> is_Some (lock r))
  /\ (forall t, trap r = Some t ->
        type r = Some ty_trap /\ is_triggered t = false /\ is_disarmed t = false
        /\ (lo <= hi -> lo <= trap_dc t <= hi)
        /\ exists tt, tt ∈ traps /\ trap_name t = tt_name tt
             /\ trap_damage t = tt_damage tt /\ trap_effect t = tt_effect tt)
  /\ (type r = Some ty_trap -> is_Some (trap r))
  /\ (forall rs, rest r = Some rs ->
        type r = Some ty_rest
        /\ ((2 # 10) <= heal_percent rs)%Q /\ (heal_percent rs < (35 # 100))%Q)
  /\ (type r = Some ty_rest -> is_Some (rest r))
  /\ (forall ch, chest r = Some ch ->
        (type r = Some ty_treasure
         \/ (type r = Some ty_standard /\ a_isEntrance a = false))
        /\ is_opened ch = false /\ is_looted ch = false
        /\ (is_locked ch = true <-> is_Some (chest_lock_dc ch))
        /\ (forall dc, chest_lock_dc ch = Some dc -> lo <= hi -> lo <= dc <= hi))
  /\ (type r = Some ty_treasure -> is_Some (chest r)).
Proof.
  intros Hu r lo hi. subst r lo hi. rewrite FloorProps.createRoom_type.
  destruct (createRoom_lock rnd a c) as [L1 L2].
  destruct (createRoom_trap rnd a c) as [T1 T2].
  destruct (createRoom_rest rnd a c Hu) as [R1 R2].
  destruct (createRoom_chest rnd a c) as [C1 C2].
  split; [|split; [|split; [|split; [|split; [|split; [|split]]]]]].
  - intros l Hl. destruct (decide (a_type a = Some ty_locked)) as [E|E].
    + destruct (L1 E) as [k Hk]. rewrite Hk in Hl. injection Hl as <-.
      cbn [is_picked requires_key lock_dc].
      split; [exact E|]. split; [reflexivity|]. split; [reflexivity|].
      intros Hle.
      destruct (DiceFacts.randomDC_bounds rnd
                  (mkDcRange (dc_min (a_dcRange a) + 2) (dc_max (a_dcRange a) + 2))
                  k Hu) as [B _].
      cbn [dc_min dc_max] in B. apply B. lia.
    + rewrite (L2 E) in Hl. discriminate.
  - intros E. destruct (L1 E) as [k ->]. eauto.
  - intros t Ht. destruct (decide (a_type a = Some ty_trap)) as [E|E].
    + destruct (T1 E) as [k Hk]. rewrite Hk in Ht. apply (inj Some) in Ht.
      subst t.
      destruct (generateTrap_fields rnd (a_dcRange a) k Hu) as (A & B & D & X).
      split; [exact E|]. split; [exact A|]. split; [exact B|]. split; [|exact X].
      intros Hle. rewrite D.
      destruct (DiceFacts.randomDC_bounds rnd (a_dcRange a) (S k) Hu) as [Bd _].
      apply Bd. exact Hle.
    + rewrite (T2 E) in Ht. discriminate.
  - intros E. destruct (T1 E) as [k ->]. eauto.
  - intros rs Hrs. destruct (decide (a_type a = Some ty_rest)) as [E|E].
    + destruct (R1 E) as (rs' & Hrs' & A & B). rewrite Hrs' in Hrs.
      injection Hrs as <-. auto.
    + rewrite (R2 E) in Hrs. discriminate.
  - intros E. destruct (R1 E) as (rs & -> & _). eauto.
  - intros ch Hch. destruct (C2 ch Hch) as (A & B & D & E & F).
    split; [exact A|].
    split; [exact B|]. split; [exact D|]. split; [exact E|].
    intros dc Hdc Hle. destruct (F dc Hdc) as [k ->].
    destruct (DiceFacts.randomDC_bounds rnd (a_dcRange a) k Hu) as [Bd _].
    apply Bd. exact Hle.
  - exact C1.
Qed.

Lemma generateFloor_created_args (rnd : nat -> Q) (d : Dungeon) (f : Z)
  (fin : bool) (rules : list EnemyRule) (c i : nat) (r : Room) :
  let fm := fst (generateFloor rnd d f fin rules c) in
  rooms fm !! i = Some r ->
  exists a c',
    content r = content (fst (createRoom rnd a c'))
    /\ a_dcRange a = dc_range d /\ a_enemyRules a = rules
    /\ (i = 0%nat -> a_type a = Some ty_standard /\ a_isEntrance a = true)
    /\ (S i <> length (rooms fm) -> a_type a <> Some ty_boss)
    /\ (fin = false -> a_type a <> Some ty_boss).
Proof.
  intros fm Hr.
  destruct (generateFloor_created rnd d f fin rules c i r Hr)
    as (a & c' & Hc & Hcase).
  fold fm in Hcase. exists a, c'. split; [exact Hc|].
  destruct Hcase as [(-> & -> & Hlen)|[(ty & -> & Hty & Hk & Hpos & Hlt)|(Hlast & Hpos & ->)]].
  - repeat split; try discriminate; reflexivity.
  - assert (Hnb : ty <> ty_boss).
    { intros ->. apply list_elem_of_In in Hty. vm_compute in Hty.
      repeat (destruct Hty as [Hty|Hty]; [discriminate|]). contradiction. }
    unfold interior_args. cbn [a_dcRange a_enemyRules a_type a_isEntrance].
    split; [reflexivity|]. split; [reflexivity|]. split; [lia|].
    split; intros _ H; injection H as ->; contradiction.
  - unfold final_args.
    destruct fin; cbn [a_dcRange a_enemyRules a_type a_isEntrance];
      (split; [reflexivity|]); (split; [reflexivity|]); (split; [lia|]);
      split; intros H; try contradiction; discriminate.
Qed.

(** What the rooms of a generated floor hold.  A room has a lock exactly
    when it is of type [locked], a trap exactly when of type [trap], a
    rest site exactly when of type [rest]; every treasure room has a
    chest, and a chest is only found in a treasure room or a standard
    room other than the entrance.  Locks start unpicked, traps untriggered
    and armed, chests closed and unlooted, locked exactly when they carry
    a DC.  A trap is one of the five templates.  A rest site heals at
    least 20% and less than 35%.  When the DC range of the dungeon is
    ordered, trap and chest DCs lie within it and lock DCs within the
    range shifted by 2. *)
Theorem generateFloor_contents (rnd : nat -> Q) (d : Dungeon) (f : Z)
  (fin : bool) (rules : list EnemyRule) (c : nat) :
  unit_interval rnd ->
  let fm := fst (generateFloor rnd d f fin rules c) in
  let lo := dc_min (dc_range d) in
  let hi := dc_max (dc_range d) in
  forall i r, rooms fm !! i = Some r ->
    (forall l, lock r = Some l ->
       type r = Some ty_locked /\ is_picked l = false /\ requires_key l = false
       /\ (lo <= hi -> lo + 2 <= lock_dc l <= hi + 2))
    /\ (type r = Some ty_locked -> is_Some (lock r))
    /\ (forall t, trap r = Some t ->
          type r = Some ty_trap /\ is_triggered t = false
          /\ is_disarmed t = false
          /\ (lo <= hi -> lo <= trap_dc t <= hi)
          /\ exists tt, tt ∈ traps /\ trap_name t = tt_name tt
               /\ trap_damage t = tt_damage tt /\ trap_effect t = tt_effect tt)
    /\ (type r = Some ty_trap -> is_Some (trap r))
    /\ (forall rs, rest r = Some rs ->
          type r = Some ty_rest
          /\ ((2 # 10) <= heal_percent rs)%Q /\ (heal_percent rs < (35 # 100))%Q)
    /\ (type r = Some ty_rest -> is_Some (rest r))
    /\ (forall ch, chest r = Some ch ->
          (type r = Some ty_treasure \/ type r = Some ty_standard)
          /\ i <> 0%nat
          /\ is_opened ch = false /\ is_looted ch = false
          /\ (is_locked ch = true <-> is_Some (chest_lock_dc ch))
          /\ (forall dc, chest_lock_dc ch = Some dc -> lo <= hi -> lo <= dc <= hi))
    /\ (type r = Some ty_treasure -> is_Some (chest r)).
Proof.
  intros Hu fm lo hi i r Hr. subst lo hi.
  destruct (generateFloor_created_args rnd d f fin rules c i r Hr)
    as (a & c' & Hc & Hrange & _ & Hent & _).
  destruct (content_fields _ _ Hc)
    as (_ & Ht & _ & _ & Htr & Hch & Hl & Hrs & _ & _).
  pose proof (createRoom_contents rnd a c' Hu) as P. cbv zeta in P.
  rewrite Hrange in P. rewrite Ht, Htr, Hch, Hl, Hrs.
  destruct P as (P1 & P2 & P3 & P4 & P5 & P6 & P7 & P8).
  split; [exact P1|]. split; [exact P2|]. split; [exact P3|].
  split; [exact P4|]. split; [exact P5|]. split; [exact P6|].
  split; [|exact P8].
  intros ch H. destruct (P7 ch H) as (A & B & C & D & E).
  split; [tauto|]. split; [|auto].
  intros ->. destruct (Hent eq_refl) as [Ty En].
  rewrite FloorProps.createRoom_type in A.
  destruct A as [A|[_ A]]; congruence.
Qed.

Lemma generateFloor_contents_witness :
  unit_interval (fun _ => 1 # 2)
  /\ (let fm := fst (generateFloor (fun _ => 1 # 2) sample_dungeon 1 false []
                       0%nat) in
      let lo := dc_min (dc_range sample_dungeon) in
      let hi := dc_max (dc_range sample_dungeon) in
      forall i r, rooms fm !! i = Some r ->
        (forall l, lock r = Some l ->
           type r = Some ty_locked /\ is_picked l = false
           /\ requires_key l = false
           /\ (lo <= hi -> lo + 2 <= lock_dc l <= hi + 2))
        /\ (type r = Some ty_locked -> is_Some (lock r))
        /\ (forall t, trap r = Some t ->
              type r = Some ty_trap /\ is_triggered t = false
              /\ is_disarmed t = false
              /\ (lo <= hi -> lo <= trap_dc t <= hi)
              /\ exists tt, tt ∈ traps /\ trap_name t = tt_name tt
                   /\ trap_damage t = tt_damage tt
                   /\ trap_effect t = tt_effect tt)
        /\ (type r = Some ty_trap -> is_Some (trap r))
        /\ (forall rs, rest r = Some rs ->
              type r = Some ty_rest
              /\ ((2 # 10) <= heal_percent rs)%Q
              /\ (heal_percent rs < (35 # 100))%Q)
        /\ (type r = Some ty_rest -> is_Some (rest r))
        /\ (forall ch, chest r = Some ch ->
              (type r = Some ty_treasure \/ type r = Some ty_standard)
              /\ i <> 0%nat
              /\ is_opened ch = false /\ is_looted ch = false
              /\ (is_locked ch = true <-> is_Some (chest_lock_dc ch))
              /\ (forall dc, chest_lock_dc ch = Some dc -> lo <= hi ->
                    lo <= dc <= hi))
        /\ (type r = Some ty_treasure -> is_Some (chest r))).
Proof.
  split; [exact DiceFacts.half_oracle|].
  exact (generateFloor_contents (fun _ => 1 # 2) sample_dungeon 1 false [] 0%nat
           DiceFacts.half_oracle).
Defined.

(** The enemies of a generated floor: every enemy is alive, idle, at
    full health and an instance of one of the rules of the floor.  The
    entrance and the rooms of type [treasure], [rest] and [locked] hold
    none.  Every room but the last holds at most 2 enemies, none of them a
    boss; the last room holds at most 3, and only its first enemy can be
    a boss; off the final floor the last room is like the others. *)
Theorem generateFloor_enemies (rnd : nat -> Q) (d : Dungeon) (f : Z)
  (fin : bool) (rules : list EnemyRule) (c : nat) :
  unit_interval rnd ->
  let fm := fst (generateFloor rnd d f fin rules c) in
  forall i r, rooms fm !! i = Some r ->
    Forall (spawned rules) (enemies r)
    /\ (enemies r <> [] ->
        i <> 0%nat
        /\ (type r = Some ty_standard \/ type r = Some ty_trap
            \/ type r = Some ty_boss))
    /\ (S i <> length (rooms fm) \/ fin = false ->
        (length (enemies r) <= 2)%nat
        /\ Forall (fun e => is_boss e = false) (enemies r))
    /\ (length (enemies r) <= 3)%nat
    /\ (forall k e, enemies r !! k = Some e -> is_boss e = true -> k = 0%nat).
Proof.
  intros Hu fm i r Hr.
  destruct (generateFloor_created_args rnd d f fin rules c i r Hr)
    as (a & c' & Hc & _ & Hrules & Hent & Hnl & Hnf).
  fold fm in Hnl.
  destruct (content_fields _ _ Hc) as (_ & Ht & _ & He & _).
  pose proof (createRoom_enemies rnd a c' Hu) as P. cbv zeta in P.
  rewrite Hrules in P. rewrite Ht, He, FloorProps.createRoom_type.
  destruct P as (P1 & P2 & P3 & P4).
  split; [exact P1|]. split; [|split; [|split]].
  - intros Hne. destruct (P2 Hne) as [[A B]|[A|A]].
    + split; [|auto]. intros ->. destruct (Hent eq_refl). congruence.
    + split; [|auto]. intros ->. destruct (Hent eq_refl). congruence.
    + split; [|auto]. intros ->. destruct (Hent eq_refl). congruence.
  - intros [H|H]; apply P3; auto.
  - destruct (decide (a_type a = Some ty_boss)) as [E|E].
    + apply P4. exact E.
    + destruct (P3 E). lia.
  - intros k e Hk Hb. destruct (decide (a_type a = Some ty_boss)) as [E|E].
    + destruct (P4 E) as [_ X]. eapply X; eauto.
    + destruct (P3 E) as [_ X]. rewrite Forall_forall in X.
      specialize (X e (list_elem_of_lookup_2 _ _ _ Hk)). congruence.
Qed.

Lemma generateFloor_enemies_witness :
  unit_interval (fun _ => 1 # 2)
  /\ (let rules := [mkEnemyRule 7 "Rat" 0 5 12 3 1 None ∅ 5 1 4] in
      let fm := fst (generateFloor (fun _ => 1 # 2) sample_dungeon 1 false
                       rules 0%nat) in
      forall i r, rooms fm !! i = Some r ->
        Forall (spawned rules) (enemies r)
        /\ (enemies r <> [] ->
            i <> 0%nat
            /\ (type r = Some ty_standard \/ type r = Some ty_trap
                \/ type r = Some ty_boss))
        /\ (S i <> length (rooms fm) \/ false = false ->
            (length (enemies r) <= 2)%nat
            /\ Forall (fun e => is_boss e = false) (enemies r))
        /\ (length (enemies r) <= 3)%nat
        /\ (forall k e, enemies r !! k = Some e -> is_boss e = true ->
              k = 0%nat)).
Proof.
  split; [exact DiceFacts.half_oracle|].
  exact (generateFloor_enemies (fun _ => 1 # 2) sample_dungeon 1 false
           [mkEnemyRule 7 "Rat" 0 5 12 3 1 None ∅ 5 1 4] 0%nat
           DiceFacts.half_oracle).
Defined.

(** ** Connections go both ways *)

(** Adding the connection between the rooms at indices [a] and [b], in
    both directions (or nothing, when [P] does not hold), keeps the
    numbering and keeps the connections mutual. *)
Lemma linked_add_edge (P : Prop) (a b : nat) (rs rs' : list Room) :
  numbered rs -> linked rs ->
  (P -> a <> b /\ (a < length rs)%nat /\ (b < length rs)%nat) ->
  length rs' = length rs ->
  (forall k r', rs' !! k = Some r' ->
     exists r, rs !! k = Some r /\ room_number r' = room_number r
       /\ forall x, x ∈ connections r' <->
             x ∈ connections r
             \/ (P /\ ((k = a /\ x = Z.of_nat b + 1)
                       \/ (k = b /\ x = Z.of_nat a + 1)))) ->
  numbered rs' /\ linked rs'.
Proof.
  intros Hn Hl HP Hlen Hrel.
  assert (Hn' : numbered rs').
  { intros k r' Hk. destruct (Hrel k r' Hk) as (r & Hr & N & _).
    rewrite N. apply Hn. exact Hr. }
  split; [exact Hn'|].
  assert (Hat : forall j, (j < length rs)%nat ->
            exists rj rj', rs !! j = Some rj /\ rs' !! j = Some rj'
              /\ room_number rj' = Z.of_nat j + 1
              /\ forall x, x ∈ connections rj' <->
                    x ∈ connections rj
                    \/ (P /\ ((j = a /\ x = Z.of_nat b + 1)
                              \/ (j = b /\ x = Z.of_nat a + 1)))).
  { intros j Hj.
    destruct (lookup_lt_is_Some_2 rs' j ltac:(lia)) as [rj' Hrj'].
    destruct (Hrel j rj' Hrj') as (rj & Hrj & N & C).
    exists rj, rj'. split; [exact Hrj|]. split; [exact Hrj'|].
    split; [apply Hn'; exact Hrj' | exact C]. }
  intros i ri' x Hi Hx.
  destruct (Hrel i ri' Hi) as (ri & Hri & Ni & Ci).
  pose proof (Hn i ri Hri) as Nri.
  apply Ci in Hx. destruct Hx as [Hx|[HPp [[-> ->]|[-> ->]]]].
  - destruct (Hl i ri x Hri Hx) as (j & rj & Hrj & Nj & Hji & Hback).
    destruct (Hat j (lookup_lt_Some _ _ _ Hrj)) as (rj0 & rj' & Hrj0 & Hrj' & Nj' & Cj).
    assert (rj0 = rj) by congruence. subst rj0.
    exists j, rj'. split; [exact Hrj'|].
    split; [rewrite Nj', <- Nj; symmetry; apply Hn; exact Hrj|].
    split; [exact Hji|]. apply Cj. left. rewrite Ni. exact Hback.
  - destruct (HP HPp) as (Hab & Ha & Hb).
    destruct (Hat b Hb) as (rb & rb' & Hrb & Hrb' & Nb' & Cb).
    exists b, rb'. split; [exact Hrb'|]. split; [exact Nb'|].
    split; [auto|]. apply Cb. right. split; [exact HPp|]. right.
    split; [reflexivity | lia].
  - destruct (HP HPp) as (Hab & Ha & Hb).
    destruct (Hat a Ha) as (ra & ra' & Hra & Hra' & Na' & Ca).
    exists a, ra'. split; [exact Hra'|]. split; [exact Na'|].
    split; [auto|]. apply Ca. right. split; [exact HPp|]. left.
    split; [reflexivity | lia].
Qed.

Lemma elem_of_push (x n : Z) (r : Room) :
  x ∈ connections (push_connection n r) <-> x ∈ connections r \/ x = n.
Proof.
  unfold push_connection. cbn [connections set_connections].
  rewrite elem_of_app, list_elem_of_singleton. reflexivity.
Qed.

Lemma link_step_linked (rs : list Room) (i : nat) :
  numbered rs -> linked rs ->
  numbered (link_step rs i) /\ linked (link_step rs i).
Proof.
  intros Hn Hl. unfold link_step.
  destruct (rs !! i) as [from|] eqn:Hfrom; [|auto].
  destruct (rs !! S i) as [to|] eqn:Hto; [|auto].
  pose proof (Hn _ _ Hfrom) as Nf. pose proof (Hn _ _ Hto) as Nt.
  set (f1 := fun r : Room =>
               if bool_decide (room_number to ∈ connections from) then r
               else push_connection (room_number to) r).
  set (f2 := fun r : Room =>
               if bool_decide (room_number from ∈ connections to) then r
               else push_connection (room_number from) r).
  set (f3 := fun r : Room =>
               if type_is (type to) ty_locked then r
               else set_is_accessible false r).
  assert (Heq : (let rs1 :=
                   if bool_decide (room_number to ∈ connections from) then rs
                   else alter (push_connection (room_number to)) i rs in
                 let rs2 :=
                   if bool_decide (room_number from ∈ connections to) then rs1
                   else alter (push_connection (room_number from)) (S i) rs1 in
                 if type_is (type to) ty_locked then rs2
                 else alter (set_is_accessible false) (S i) rs2)
                = alter f3 (S i) (alter f2 (S i) (alter f1 i rs))).
  { subst f1 f2 f3. cbv zeta.
    destruct (bool_decide (room_number to ∈ connections from));
      destruct (bool_decide (room_number from ∈ connections to));
      destruct (type_is (type to) ty_locked); cbv beta iota;
      rewrite ?(list_alter_id (fun r : Room => r)) by reflexivity;
      reflexivity. }
  cbv zeta in Heq. rewrite Heq. clear Heq.
  apply (linked_add_edge True i (S i) rs); auto.
  - intros _. apply lookup_lt_Some in Hfrom, Hto. lia.
  - rewrite !length_alter. reflexivity.
  - intros k r' Hk.
    assert (C3 : forall r, room_number (f3 r) = room_number r
                           /\ connections (f3 r) = connections r).
    { intros r. unfold f3. generalize (type_is (type to) ty_locked).
      intros []; split; reflexivity. }
    assert (C2 : forall r, room_number (f2 r) = room_number r).
    { intros r. unfold f2.
      generalize (bool_decide (room_number from ∈ connections to)).
      intros []; reflexivity. }
    assert (C1 : forall r, room_number (f1 r) = room_number r).
    { intros r. unfold f1.
      generalize (bool_decide (room_number to ∈ connections from)).
      intros []; reflexivity. }
    assert (E1 : forall x, x ∈ connections (f1 from) <->
                   x ∈ connections from \/ x = room_number to).
    { intros x. unfold f1.
      pose proof (bool_decide_spec (room_number to ∈ connections from)) as B.
      revert B. generalize (bool_decide (room_number to ∈ connections from)).
      intros [] B.
      - split; [auto|]. intros [H|H]; [exact H | subst x; apply B; exact I].
      - apply elem_of_push. }
    assert (E2 : forall x, x ∈ connections (f2 to) <->
                   x ∈ connections to \/ x = room_number from).
    { intros x. unfold f2.
      pose proof (bool_decide_spec (room_number from ∈ connections to)) as B.
      revert B. generalize (bool_decide (room_number from ∈ connections to)).
      intros [] B.
      - split; [auto|]. intros [H|H]; [exact H | subst x; apply B; exact I].
      - apply elem_of_push. }
    clearbody f1 f2 f3.
    destruct (decide (k = i)) as [->|Hki];
      [|destruct (decide (k = S i)) as [->|Hks]].
    + rewrite !list_lookup_alter_ne, list_lookup_alter_eq, Hfrom in Hk by lia.
      cbn in Hk. injection Hk as <-.
      exists from. split; [exact Hfrom|]. split; [apply C1|].
      intros x. rewrite E1, Nt. split.
      * intros [H|H]; [left; exact H | right; split; [exact I|]; left; auto].
      * intros [H|[_ [[_ H]|[H _]]]]; [auto | auto | lia].
    + rewrite !list_lookup_alter_eq, list_lookup_alter_ne, Hto in Hk by lia.
      cbn in Hk. injection Hk as <-.
      exists to. split; [exact Hto|].
      destruct (C3 (f2 to)) as [-> ->]. split; [apply C2|].
      intros x. rewrite E2, Nf. split.
      * intros [H|H]; [left; exact H | right; split; [exact I|]; right; auto].
      * intros [H|[_ [[H _]|[_ H]]]]; [auto | lia | auto].
    + rewrite !list_lookup_alter_ne in Hk by auto.
      exists r'. split; [exact Hk|]. split; [reflexivity|].
      intros x. split; [auto|]. intros [H|[_ [[H _]|[H _]]]]; [auto | | ];
        contradiction.
Qed.

Lemma link_loop_linked (l : list nat) (rs : list Room) :
  numbered rs -> linked rs ->
  numbered (foldl link_step rs l) /\ linked (foldl link_step rs l).
Proof.
  revert rs. induction l as [|i l IH]; intros rs Hn Hl; [auto|].
  cbn [foldl]. destruct (link_step_linked rs i Hn Hl). apply IH; assumption.
Qed.

Lemma neutral_alter_linked (f : Room -> Room) (i : nat) (rs : list Room) :
  (forall r, room_number (f r) = room_number r
             /\ connections (f r) = connections r) ->
  numbered rs -> linked rs ->
  numbered (alter f i rs) /\ linked (alter f i rs).
Proof.
  intros Hf Hn Hl.
  apply (linked_add_edge False 0%nat 0%nat rs); auto.
  - contradiction.
  - apply length_alter.
  - intros k r' Hk. destruct (decide (k = i)) as [->|Hne].
    + rewrite list_lookup_alter_eq in Hk.
      destruct (rs !! i) as [r|]; [|discriminate]. cbn in Hk. injection Hk as <-.
      exists r. destruct (Hf r) as [-> ->]. split; [reflexivity|].
      split; [reflexivity|]. intros x. tauto.
    + rewrite list_lookup_alter_ne in Hk by auto.
      exists r'. split; [exact Hk|]. split; [reflexivity|]. intros x. tauto.
Qed.

Lemma branch_step_linked (rnd : nat -> Q) (rs : list Room) (i c : nat) :
  unit_interval rnd -> numbered rs -> linked rs ->
  numbered (fst (branch_step rnd rs i c))
  /\ linked (fst (branch_step rnd rs i c)).
Proof.
  intros Hu Hn Hl. unfold branch_step, bind, ret, Math_random. cbn [fst snd].
  destruct (Js.Qltb (rnd c) (2 # 10)); [|auto]. cbn [fst snd].
  set (len := Z.of_nat (length rs)).
  set (m := Z.min 2 (len - Z.of_nat i - 2)).
  set (target := Z.of_nat i + 2 + Js.Math_floor (rnd (S c) * inject_Z m)).
  destruct (Z.ltb_spec target len) as [Hlt|Hge]; [|auto].
  destruct (rs !! i) as [ri|] eqn:Hri; [|auto].
  unfold room_at. destruct (Z.ltb_spec target 0) as [Hneg|Hpos]; [auto|].
  destruct (rs !! Z.to_nat target) as [rt|] eqn:Hrt; [|auto].
  cbn [fst].
  pose proof (Hn _ _ Hri) as Ni. pose proof (Hn _ _ Hrt) as Nt.
  destruct (Hu (S c)) as [V0 V1].
  destruct (DiceFacts.floor_of_fraction (rnd (S c)) m V0 V1) as [Fpos Fneg].
  assert (Hti : Z.to_nat target <> i).
  { apply lookup_lt_Some in Hri.
    destruct (Z_lt_le_dec 0 m) as [Hm|Hm].
    - specialize (Fpos Hm). subst target. lia.
    - specialize (Fneg Hm). subst target m len. lia. }
  apply (linked_add_edge True i (Z.to_nat target) rs); auto.
  - intros _. apply lookup_lt_Some in Hri, Hrt. auto.
  - rewrite !length_alter. reflexivity.
  - intros k r' Hk.
    destruct (decide (k = i)) as [->|Hki];
      [|destruct (decide (k = Z.to_nat target)) as [->|Hkt]].
    + rewrite list_lookup_alter_ne, list_lookup_alter_eq, Hri in Hk by auto.
      cbn in Hk. injection Hk as <-.
      exists ri. split; [exact Hri|]. split; [reflexivity|].
      intros x. rewrite elem_of_push, Nt. split.
      * intros [H|H]; [left; exact H | right; split; [exact I|]; left; auto].
      * intros [H|[_ [[_ H]|[H _]]]]; [auto | auto | congruence].
    + rewrite list_lookup_alter_eq, list_lookup_alter_ne, Hrt in Hk by auto.
      cbn in Hk. injection Hk as <-.
      exists rt. split; [exact Hrt|]. split; [reflexivity|].
      intros x. rewrite elem_of_push, Ni. split.
      * intros [H|H]; [left; exact H | right; split; [exact I|]; right; auto].
      * intros [H|[_ [[H _]|[_ H]]]]; [auto | congruence | auto].
    + rewrite !list_lookup_alter_ne in Hk by auto.
      exists r'. split; [exact Hk|]. split; [reflexivity|].
      intros x. split; [auto|]. intros [H|[_ [[H _]|[H _]]]]; [auto | | ];
        contradiction.
Qed.

Lemma branch_loop_linked (rnd : nat -> Q) (l : list nat) (rs : list Room)
  (c : nat) :
  unit_interval rnd -> numbered rs -> linked rs ->
  numbered (fst (foldM (branch_step rnd) l rs c))
  /\ linked (fst (foldM (branch_step rnd) l rs c)).
Proof.
  intros Hu. revert rs c. induction l as [|i l IH]; intros rs c Hn Hl; [auto|].
  rewrite LootProps.foldM_cons.
  destruct (branch_step_linked rnd rs i c Hu Hn Hl). apply IH; assumption.
Qed.

Lemma generateConnections_linked (rnd : nat -> Q) (rs : list Room) (c : nat) :
  unit_interval rnd -> numbered rs -> linked rs ->
  numbered (fst (generateConnections rnd rs c))
  /\ linked (fst (generateConnections rnd rs c)).
Proof.
  intros Hu Hn Hl. unfold generateConnections.
  destruct (link_loop_linked (seq 0 (length rs - 1)) rs Hn Hl) as [Hn1 Hl1].
  destruct (neutral_alter_linked (set_is_accessible true) 0%nat _
              ltac:(intros r; split; reflexivity) Hn1 Hl1) as [Hn2 Hl2].
  apply branch_loop_linked; assumption.
Qed.

(** The connections of a generated floor are mutual: every entry of the
    connections of a room is the number of another room of the floor,
    which lists the room in turn; no room is connected to itself. *)
Theorem generateFloor_connections_mutual (rnd : nat -> Q) (d : Dungeon)
  (f : Z) (fin : bool) (rules : list EnemyRule) (c : nat) :
  unit_interval rnd -> 1 <= f ->
  let fm := fst (generateFloor rnd d f fin rules c) in
  forall r x, r ∈ rooms fm -> x ∈ connections r ->
    x <> room_number r
    /\ exists r', r' ∈ rooms fm /\ room_number r' = x
         /\ room_number r ∈ connections r'.
Proof.
  intros Hu Hf fm r x Hr Hx. subst fm.
  destruct (generateFloor_shape rnd d f fin rules c)
    as (c1 & c3 & c4 & middle & Heq & Hlen & Hmid).
  destruct (FloorProps.roomCount_of_bounds rnd f c Hu Hf) as [_ Hge].
  set (pre := fst (createRoom rnd (entrance_args d f rules) c1)
                :: middle
                ++ [fst (createRoom rnd
                           (final_args d f rules (roomCount_of rnd f c) fin) c3)])
    in *.
  assert (Hpre : forall i r0, pre !! i = Some r0 ->
            room_number r0 = Z.of_nat i + 1 /\ connections r0 = []).
  { intros i r0 Hi. subst pre. destruct i as [|i].
    - cbn in Hi. injection Hi as <-. split; reflexivity.
    - cbn [lookup list_lookup] in Hi.
      change ((middle ++ [fst (createRoom rnd
                                 (final_args d f rules (roomCount_of rnd f c) fin)
                                 c3)]) !! i = Some r0) in Hi.
      apply lookup_app_Some in Hi as [Hi|[Hi1 Hi2]].
      + destruct (Hmid _ _ Hi) as (ty & c' & -> & _).
        split; [|reflexivity].
        rewrite FloorProps.createRoom_number. cbn. lia.
      + apply list_lookup_singleton_Some in Hi2 as [Hz <-].
        split; [|reflexivity].
        rewrite FloorProps.createRoom_number.
        destruct fin; cbn [final_args a_room_number]; lia. }
  assert (Hn : numbered pre) by (intros i r0 Hi; apply (Hpre i r0 Hi)).
  assert (Hl : linked pre).
  { intros i r0 y Hi Hy. destruct (Hpre i r0 Hi) as [_ E]. rewrite E in Hy.
    inversion Hy. }
  destruct (generateConnections_linked rnd pre c4 Hu Hn Hl) as [Hn' Hl'].
  rewrite <- Heq in Hn', Hl'.
  apply list_elem_of_lookup_1 in Hr as [i Hi].
  destruct (Hl' i r x Hi Hx) as (j & rj & Hj & Nj & Hji & Hback).
  split.
  - rewrite <- Nj, (Hn' _ _ Hj), (Hn' _ _ Hi). lia.
  - exists rj. split; [eapply list_elem_of_lookup_2; exact Hj | auto].
Qed.

Lemma generateFloor_connections_mutual_witness :
  unit_interval (fun _ => 1 # 2) /\ 1 <= 1
  /\ (let fm := fst (generateFloor (fun _ => 1 # 2) sample_dungeon 1 false []
                       0%nat) in
      forall r x, r ∈ rooms fm -> x ∈ connections r ->
        x <> room_number r
        /\ exists r', r' ∈ rooms fm /\ room_number r' = x
             /\ room_number r ∈ connections r').
Proof.
  assert (H : 1 <= 1) by lia.
  split; [exact DiceFacts.half_oracle|]. split; [exact H|].
  exact (generateFloor_connections_mutual (fun _ => 1 # 2) sample_dungeon 1
           false [] 0%nat DiceFacts.half_oracle H).
Defined.

(** ** Clearing and unlocking twice *)

Lemma after_clear_twice (n : Z) (conns : list Z) (r : Room) :
  after_clear n conns (after_clear n conns r) = after_clear n conns r
  /\ connections (after_clear n conns r) = connections r
  /\ forall m, room_number r = m -> m ∈ conns ->
       opens [m] (after_clear n conns r) = false.
Proof.
  unfold after_clear, opens.
  destruct (bool_decide_reflect (room_number r = n)) as [En|En];
    destruct (bool_decide_reflect (room_number r ∈ conns)) as [Ec|Ec];
    destruct (is_accessible r) eqn:Ea;
    destruct (type_is (type r) ty_locked) eqn:Et;
    cbn [andb negb room_number is_accessible type set_is_accessible
         set_is_cleared connections];
    rewrite ?Ea, ?Et, ?(bool_decide_eq_true_2 _ En),
      ?(bool_decide_eq_false_2 _ En), ?(bool_decide_eq_true_2 _ Ec),
      ?(bool_decide_eq_false_2 _ Ec);
    cbn [andb negb room_number is_accessible type set_is_accessible
         set_is_cleared connections];
    rewrite ?Ea, ?Et; cbn [andb negb];
    (split; [reflexivity|]); (split; [reflexivity|]);
    intros m Hm Hin; rewrite ?andb_false_r; try reflexivity;
    subst m; contradiction.
Qed.

Lemma floor_map_eq (fm fm' : FloorMap) : rooms fm = rooms fm' -> fm = fm'.
Proof. destruct fm, fm'. cbn. intros ->. reflexivity. Qed.

(** Clearing a room a second time changes nothing and reports no newly
    accessible room. *)
Theorem clearRoom_idempotent (fm : FloorMap) (n : Z) :
  distinct_numbers (rooms fm) ->
  clearRoom (fst (clearRoom fm n)) n = (fst (clearRoom fm n), []).
Proof.
  intros Hd. destruct (find_room (rooms fm) n) as [[i room]|] eqn:Hfind.
  - destruct (FloorProps.clearRoom_rooms fm n i room Hd Hfind) as (H1 & _ & _).
    set (fm1 := fst (clearRoom fm n)) in *.
    set (conns := connections room) in *.
    destruct (FloorProps.find_room_Some _ _ _ _ Hfind) as [Hr Hn].
    assert (Hd1 : distinct_numbers (rooms fm1)).
    { rewrite H1. apply FloorProps.distinct_numbers_fmap; [|exact Hd].
      intros r. apply FloorProps.after_clear_number. }
    assert (Hfind1 : find_room (rooms fm1) n = Some (i, after_clear n conns room)).
    { apply FloorProps.find_room_distinct; [exact Hd1| |].
      - rewrite H1, list_lookup_fmap, Hr. reflexivity.
      - rewrite FloorProps.after_clear_number. exact Hn. }
    destruct (FloorProps.clearRoom_rooms fm1 n i _ Hd1 Hfind1) as (H2 & H3 & _).
    destruct (after_clear_twice n conns room) as (_ & Hc & _).
    rewrite Hc in H2, H3. fold conns in H2, H3.
    assert (Hrooms : rooms (fst (clearRoom fm1 n)) = rooms fm1).
    { rewrite H2, H1, <- list_fmap_compose. apply list_fmap_ext.
      intros j r _. apply after_clear_twice. }
    assert (Hnone : snd (clearRoom fm1 n) = []).
    { destruct (snd (clearRoom fm1 n)) as [|m l] eqn:E; [reflexivity|exfalso].
      destruct (proj1 (H3 m) ltac:(left)) as (Hm & r & Hin & Hrn & Ho).
      rewrite H1 in Hin. apply list_elem_of_fmap in Hin as (r0 & -> & Hin0).
      rewrite FloorProps.after_clear_number in Hrn.
      destruct (after_clear_twice n conns r0) as (_ & _ & X).
      rewrite (X m Hrn Hm) in Ho. discriminate. }
    destruct (clearRoom fm1 n) as [fm2 l] eqn:E. cbn [fst snd] in *.
    subst l. f_equal. apply floor_map_eq. exact Hrooms.
  - rewrite (FloorProps.clearRoom_missing fm n Hfind). cbn [fst].
    apply FloorProps.clearRoom_missing. exact Hfind.
Qed.

Lemma clearRoom_idempotent_witness :
  distinct_numbers (rooms sample_map)
  /\ clearRoom (fst (clearRoom sample_map 1)) 1
     = (fst (clearRoom sample_map 1), []).
Proof.
  split; [exact FloorProps.sample_map_distinct|].
  exact (clearRoom_idempotent sample_map 1 FloorProps.sample_map_distinct).
Defined.

Lemma unlockRoom_get (fm : FloorMap) (n : Z) (r : Room) :
  distinct_numbers (rooms fm) -> getCurrentRoom fm n = Some r ->
  getCurrentRoom (unlockRoom fm n) n
  = Some (set_lock (pick_lock <$> lock r) (set_is_accessible true r)).
Proof.
  intros Hd Hr. unfold getCurrentRoom in *.
  rewrite (FloorProps.unlockRoom_rooms fm n Hd), FloorProps.find_room_fmap
    by (intros x; apply FloorProps.after_unlock_number).
  destruct (find_room (rooms fm) n) as [[i r0]|] eqn:E; [|discriminate].
  cbn in Hr. injection Hr as ->. cbn. unfold after_unlock.
  rewrite bool_decide_eq_true_2; [reflexivity|].
  apply (FloorProps.find_room_Some _ _ _ _ E).
Qed.

(** [unlockRoom] marks the room accessible and its lock, if any, picked,
    whatever the type of the room, and leaves every other room as it
    was; on a number that no room carries it does nothing; unlocking
    twice is unlocking once. *)
Theorem unlockRoom_effect (fm : FloorMap) (n : Z) :
  distinct_numbers (rooms fm) ->
  (forall r, getCurrentRoom fm n = Some r ->
     getCurrentRoom (unlockRoom fm n) n
     = Some (set_lock (pick_lock <$> lock r) (set_is_accessible true r)))
  /\ (forall m, m <> n ->
        getCurrentRoom (unlockRoom fm n) m = getCurrentRoom fm m)
  /\ (getCurrentRoom fm n = None -> unlockRoom fm n = fm)
  /\ unlockRoom (unlockRoom fm n) n = unlockRoom fm n.
Proof.
  intros Hd.
  pose proof (FloorProps.unlockRoom_rooms fm n Hd) as H1.
  assert (Hd1 : distinct_numbers (rooms (unlockRoom fm n))).
  { rewrite H1. apply FloorProps.distinct_numbers_fmap; [|exact Hd].
    intros r. apply FloorProps.after_unlock_number. }
  assert (Hget : forall m,
            getCurrentRoom (unlockRoom fm n) m
            = after_unlock n <$> getCurrentRoom fm m).
  { intros m. unfold getCurrentRoom.
    rewrite H1, FloorProps.find_room_fmap
      by (intros r; apply FloorProps.after_unlock_number).
    destruct (find_room (rooms fm) m) as [[i r]|]; reflexivity. }
  assert (Hnum : forall m r, getCurrentRoom fm m = Some r -> room_number r = m).
  { intros m r. unfold getCurrentRoom.
    destruct (find_room (rooms fm) m) as [[i r0]|] eqn:E; [|discriminate].
    intros [= <-]. apply (FloorProps.find_room_Some _ _ _ _ E). }
  split; [|split; [|split]].
  - intros r Hr. rewrite Hget, Hr. cbn. unfold after_unlock.
    rewrite bool_decide_eq_true_2 by (eapply Hnum; eauto). reflexivity.
  - intros m Hm. rewrite Hget.
    destruct (getCurrentRoom fm m) as [r|] eqn:E; [|reflexivity]. cbn.
    unfold after_unlock.
    rewrite bool_decide_eq_false_2; [reflexivity|].
    rewrite (Hnum m r E). exact Hm.
  - unfold getCurrentRoom, unlockRoom.
    destruct (find_room (rooms fm) n) as [[i r]|]; [discriminate | reflexivity].
  - apply floor_map_eq.
    rewrite (FloorProps.unlockRoom_rooms _ n Hd1), H1, <- list_fmap_compose.
    apply list_fmap_ext. intros j r _. unfold compose, after_unlock.
    destruct (bool_decide_reflect (room_number r = n)) as [E|E].
    + cbn [room_number set_lock set_is_accessible].
      rewrite bool_decide_eq_true_2 by exact E.
      cbn [lock set_lock set_is_accessible].
      destruct (lock r) as [l|]; reflexivity.
    + rewrite bool_decide_eq_false_2 by exact E. reflexivity.
Qed.

Lemma unlockRoom_effect_witness :
  distinct_numbers (rooms sample_map)
  /\ (forall r, getCurrentRoom sample_map 3 = Some r ->
        getCurrentRoom (unlockRoom sample_map 3) 3
        = Some (set_lock (pick_lock <$> lock r) (set_is_accessible true r)))
  /\ (forall m, m <> 3 ->
        getCurrentRoom (unlockRoom sample_map 3) m = getCurrentRoom sample_map m)
  /\ (getCurrentRoom sample_map 3 = None -> unlockRoom sample_map 3 = sample_map)
  /\ unlockRoom (unlockRoom sample_map 3) 3 = unlockRoom sample_map 3.
Proof.
  split; [exact FloorProps.sample_map_distinct|].
  exact (unlockRoom_effect sample_map 3 FloorProps.sample_map_distinct).
Defined.

End FloorFacts.

(** * Further properties of loot.js *)

Module LootFacts.

Import Loot LootSpec LootMoreSpec.

Lemma eligible_true (context : Context) (r : LootRule) :
  eligible context r = true <->
  checkCondition r context = true /\ checkPerception r context = true.
Proof.
  unfold eligible, checkPerception.
  destruct (checkCondition r context); cbn [negb];
    destruct (truthy (requires_perception r)); cbn [negb andb];
    [destruct (_ <=? _)| | |]; cbn; intuition congruence.
Qed.

Lemma guaranteed_step_adds (context : Context) (drops : list Drop)
  (rule : LootRule) :
  guaranteed_step context drops rule = drops
  \/ (guaranteed_step context drops rule
      = drops ++ [makeDrop rule (requires_perception rule)]
      /\ eligible context rule = true).
Proof.
  unfold guaranteed_step, eligible.
  destruct (checkCondition rule context); [|left; reflexivity]. cbn [negb].
  destruct (truthy (requires_perception rule) && negb (checkPerception rule context));
    [left | right]; auto.
Qed.

Lemma guaranteed_loop_adds (context : Context) (rules : list LootRule)
  (drops : list Drop) :
  exists g,
    foldl (guaranteed_step context) drops rules = drops ++ g
    /\ (length g <= length rules)%nat
    /\ forall d, d ∈ g ->
         exists rule, rule ∈ rules /\ eligible context rule = true
           /\ d = makeDrop rule (requires_perception rule).
Proof.
  revert drops. induction rules as [|r rules IH]; intros drops.
  - exists []. cbn. rewrite app_nil_r. split; [reflexivity|].
    split; [lia|]. intros d H. inversion H.
  - cbn [foldl].
    destruct (guaranteed_step_adds context drops r) as [->|[-> He]].
    + destruct (IH drops) as (g & E & L & P). exists g.
      split; [exact E|]. split; [cbn; lia|].
      intros d Hd. destruct (P d Hd) as (rule & Hin & X).
      exists rule. split; [right; exact Hin | exact X].
    + destruct (IH (drops ++ [makeDrop r (requires_perception r)]))
        as (g & E & L & P).
      exists (makeDrop r (requires_perception r) :: g).
      split; [rewrite E, <- app_assoc; reflexivity|].
      split; [cbn; lia|].
      intros d Hd. apply elem_of_cons in Hd as [->|Hd].
      * exists r. split; [left|]. auto.
      * destruct (P d Hd) as (rule & Hin & X).
        exists rule. split; [right; exact Hin | exact X].
Qed.

Section WithRandom.

Variable rnd : nat -> Q.

Lemma weighted_step_counter (eligibleWeighted : list LootRule)
  (drops : list Drop) (i c : nat) :
  (c <= snd (weighted_step rnd eligibleWeighted drops i c) <= S c)%nat.
Proof.
  unfold weighted_step, bind. cbn [fst snd].
  destruct (DiceFacts.weightedRandom_cases rnd (loot_pool eligibleWeighted) c)
    as [Hnone Hsome].
  destruct (Qlt_le_dec 0 (DiceMoreSpec.pool_total (loot_pool eligibleWeighted)))
    as [Hpos|Hneg].
  - destruct (Hsome Hpos) as (e & _ & ->). cbn [fst snd].
    destruct (has_item_id drops (item_id (Dice.item e))); cbn; lia.
  - rewrite (Hnone Hneg). cbn. lia.
Qed.

Lemma weighted_loop_counter (eligibleWeighted : list LootRule)
  (steps : list nat) (drops : list Drop) (c : nat) :
  (c <= snd (foldM (weighted_step rnd eligibleWeighted) steps drops c)
   <= c + length steps)%nat.
Proof.
  revert drops c. induction steps as [|i steps IH]; intros drops c.
  - cbn. lia.
  - rewrite LootProps.foldM_cons.
    pose proof (weighted_step_counter eligibleWeighted drops i c) as H1.
    match goal with
    | |- context [foldM _ steps ?g ?k] => pose proof (IH g k) as H2
    end.
    cbn [length]. lia.
Qed.

Lemma resolveLoot_explained (table : list LootRule) (sourceType : SourceType)
  (sourceId : Z) (context : Context) (c : nat) :
  (forall d, d ∈ fst (resolveLoot rnd table sourceType sourceId context c) ->
     explained table sourceType sourceId context d)
  /\ (length (fst (resolveLoot rnd table sourceType sourceId context c))
      <= length (guaranteed_rules table sourceType sourceId)
         + rollCount_of sourceType)%nat
  /\ (c <= snd (resolveLoot rnd table sourceType sourceId context c)
      <= c + rollCount_of sourceType)%nat.
Proof.
  unfold resolveLoot, guaranteed_rules.
  set (rules := getLootRulesForSource table sourceType sourceId).
  assert (Hrules : forall r, r ∈ rules ->
            r ∈ table /\ source_type r = sourceType /\ source_id r = sourceId).
  { intros r Hr. apply list_elem_of_filter in Hr. tauto. }
  destruct rules as [|r0 rest] eqn:Erules.
  { cbn. split; [intros d H; inversion H|]. split; lia. }
  rewrite <- Erules in *. clear Erules r0 rest.
  set (guaranteedRules := filter (fun r => drop_type r = guaranteed) rules).
  set (weightedRules := filter (fun r => drop_type r = weighted) rules).
  set (eligibleWeighted := filter (fun r => eligible context r = true) weightedRules).
  destruct (guaranteed_loop_adds context guaranteedRules []) as (g & Eg & Lg & Pg).
  cbn [app] in Eg. rewrite Eg.
  assert (Hg : forall d, d ∈ g -> explained table sourceType sourceId context d).
  { intros d Hd. destruct (Pg d Hd) as (rule & Hin & He & ->).
    apply list_elem_of_filter in Hin as [Hdt Hin].
    destruct (Hrules rule Hin) as (A & B & C).
    apply eligible_true in He as [He1 He2].
    exists rule. repeat split; auto. }
  assert (Hw : forall r, r ∈ eligibleWeighted ->
            explained table sourceType sourceId context
              (makeDrop r (requires_perception r))).
  { intros r Hr. apply list_elem_of_filter in Hr as [He Hr].
    apply list_elem_of_filter in Hr as [Hdt Hin].
    destruct (Hrules r Hin) as (A & B & C).
    apply eligible_true in He as [He1 He2].
    exists r. repeat split; auto. }
  destruct eligibleWeighted as [|e0 erest] eqn:Ee.
  { cbn [ret fst snd]. split; [exact Hg|]. split; lia. }
  rewrite <- Ee in *. clear Ee e0 erest.
  destruct (LootProps.weighted_loop rnd eligibleWeighted
              (seq 0 (rollCount_of sourceType)) g c)
    as (w & Ew & Lw & Pw & _).
  rewrite Ew. rewrite length_seq in Lw.
  split; [|split].
  - intros d Hd. apply elem_of_app in Hd as [Hd|Hd]; [auto|].
    destruct (Pw d Hd) as (r & Hr & ->). auto.
  - rewrite length_app. lia.
  - pose proof (weighted_loop_counter eligibleWeighted
                  (seq 0 (rollCount_of sourceType)) g c) as H.
    rewrite length_seq in H. exact H.
Qed.

End WithRandom.

(** Every drop that [resolveLoot] returns is explained by a rule of the
    source: a guaranteed or weighted rule whose condition holds and which
    the perception of the player reveals; rules of type [conditional] or
    [never], rules of other sources and hidden loot never drop, and the
    quantity is always 1.  The drops number at most the guaranteed rules
    of the source plus the weighted draws (2 for a chest or a boss, 1
    otherwise), and at most that many random numbers are drawn. *)
Theorem resolveLoot_provenance (rnd : nat -> Q) (table : list LootRule)
  (sourceType : SourceType) (sourceId : Z) (context : Context) (c : nat) :
  let out := resolveLoot rnd table sourceType sourceId context c in
  (forall d, d ∈ fst out ->
     explained table sourceType sourceId context d /\ quantity d = 1)
  /\ (length (fst out)
      <= length (guaranteed_rules table sourceType sourceId)
         + rollCount_of sourceType)%nat
  /\ (c <= snd out <= c + rollCount_of sourceType)%nat.
Proof.
  intros out. subst out.
  destruct (resolveLoot_explained rnd table sourceType sourceId context c)
    as (A & B & C).
  split; [|split; [exact B | exact C]].
  intros d Hd. split; [apply A; exact Hd|].
  destruct (A d Hd) as (rule & _ & _ & _ & _ & _ & _ & ->). reflexivity.
Qed.

Lemma rollGoldDrop_bounds (rnd : nat -> Q) (min max : Z) (c : nat) :
  unit_interval rnd ->
  (max <= min -> rollGoldDrop rnd min max c = (min, c))
  /\ (min < max ->
      min <= fst (rollGoldDrop rnd min max c) <= max
      /\ snd (rollGoldDrop rnd min max c) = S c).
Proof.
  intros Hu. unfold rollGoldDrop. split; intros H.
  - destruct (Z.leb_spec max min); [reflexivity | lia].
  - destruct (Z.leb_spec max min); [lia|].
    unfold bind, ret, Math_random. cbn [fst snd]. destruct (Hu c) as [U0 U1].
    destruct (DiceFacts.floor_of_fraction (rnd c) (max - min + 1) U0 U1)
      as [Hpos _].
    specialize (Hpos ltac:(lia)). split; [lia | reflexivity].
Qed.

(** [rollGoldDrop(min, max)] returns [min] without drawing when
    [max <= min], and otherwise draws one number and returns a value
    between [min] and [max], bounds included. *)
Theorem rollGoldDrop_range (rnd : nat -> Q) (min max : Z) (c : nat) :
  unit_interval rnd ->
  (max <= min -> rollGoldDrop rnd min max c = (min, c))
  /\ (min < max ->
      min <= fst (rollGoldDrop rnd min max c) <= max
      /\ snd (rollGoldDrop rnd min max c) = S c).
Proof. apply rollGoldDrop_bounds. Qed.

Lemma rollGoldDrop_range_witness :
  unit_interval (fun _ => 1 # 2)
  /\ (40 <= 15 -> rollGoldDrop (fun _ => 1 # 2) 15 40 0%nat = (15, 0%nat))
  /\ (15 < 40 ->
      15 <= fst (rollGoldDrop (fun _ => 1 # 2) 15 40 0%nat) <= 40
      /\ snd (rollGoldDrop (fun _ => 1 # 2) 15 40 0%nat) = 1%nat).
Proof.
  split; [exact DiceFacts.half_oracle|].
  exact (rollGoldDrop_range (fun _ => 1 # 2) 15 40 0%nat DiceFacts.half_oracle).
Defined.

End LootFacts.

(** * Further properties of combat.js *)

Module CombatFacts.

Import FloorGenerator Combat ActionProcessor Equipment.

(** [damageEnemy] on any target of the room: the damage dealt is the
    damage after resistance less the armor, and at least 1; the health
    of the target drops by it, but not below 0; the target dies exactly
    when its health reaches 0 (a target that was dead already stays dead,
    and is reported as dying again); no other enemy changes.  When the
    target survives, nothing else happens: no loot, gold or experience,
    no random number drawn, and the combat flag stays as it was. *)
Theorem damageEnemy_hit (rnd : nat -> Q) (table : list Loot.LootRule)
  (target : nat) (damage : Q) (damageType : string) (st : RoomState)
  (enemy : Enemy) (c : nat) :
  rs_enemies st !! target = Some enemy ->
  let dealt :=
    Z.max 1
      (Js.Math_round (damage * default 1%Q (resistances enemy !! damageType))
       - armor enemy) in
  exists st' res,
    fst (damageEnemy rnd table target damage damageType st c) = Some (st', res)
    /\ damageDealt res = dealt /\ 1 <= dealt /\ 0 <= armorReduced res
    /\ enemyDied res = (hp_current enemy - dealt <=? 0)
    /\ rs_enemies st' !! target
       = Some (set_is_dead (is_dead enemy || enemyDied res)
                 (set_hp_current (Z.max 0 (hp_current enemy - dealt)) enemy))
    /\ (forall k, k <> target -> rs_enemies st' !! k = rs_enemies st !! k)
    /\ round_number st' = round_number st
    /\ (enemyDied res = false ->
        is_combat_active st' = is_combat_active st
        /\ loot res = [] /\ goldDrop res = 0 /\ xpReward res = 0
        /\ snd (damageEnemy rnd table target damage damageType st c) = c).
Proof.
  intros He dealt. unfold damageEnemy. rewrite He. fold dealt.
  destruct (Z.leb_spec (hp_current enemy - dealt) 0) as [Hk|Hs].
  - unfold bind, ret. cbn [fst snd].
    eexists _, _. split; [reflexivity|].
    cbn [damageDealt armorReduced enemyDied loot goldDrop xpReward].
    split; [reflexivity|]. split; [lia|]. split; [lia|].
    split; [reflexivity|]. split; [|split; [|split]].
    + destruct (all_dead _);
        cbn [rs_enemies set_enemies set_is_combat_active];
        rewrite !list_lookup_alter_eq, He; cbn;
        rewrite orb_true_r; replace (Z.max 0 (hp_current enemy - dealt)) with 0 by lia;
        reflexivity.
    + intros k Hne.
      destruct (all_dead _);
        cbn [rs_enemies set_enemies set_is_combat_active];
        rewrite !list_lookup_alter_ne by auto; reflexivity.
    + destruct (all_dead _); reflexivity.
    + discriminate.
  - unfold ret. cbn [fst snd].
    eexists _, _. split; [reflexivity|].
    cbn [damageDealt armorReduced enemyDied loot goldDrop xpReward].
    split; [reflexivity|]. split; [lia|]. split; [lia|].
    split; [reflexivity|]. split; [|split; [|split]].
    + cbn [rs_enemies set_enemies]. rewrite list_lookup_alter_eq, He. cbn.
      rewrite orb_false_r.
      replace (Z.max 0 (hp_current enemy - dealt)) with (hp_current enemy - dealt)
        by lia.
      reflexivity.
    + intros k Hne. cbn [rs_enemies set_enemies].
      rewrite list_lookup_alter_ne by auto. reflexivity.
    + reflexivity.
    + intros _. repeat split.
Qed.

Lemma damageEnemy_hit_witness :
  rs_enemies CombatSpec.sample_room_state !! 1%nat
  = Some (CombatSpec.sample_enemy 10 false)
  /\ (let st := CombatSpec.sample_room_state in
      let enemy := CombatSpec.sample_enemy 10 false in
      let dealt :=
        Z.max 1
          (Js.Math_round (3 * default 1%Q (resistances enemy !! "slashing"))
           - armor enemy) in
      exists st' res,
        fst (damageEnemy (fun _ => 1 # 2) [] 1%nat 3 "slashing" st 0%nat)
        = Some (st', res)
        /\ damageDealt res = dealt /\ 1 <= dealt /\ 0 <= armorReduced res
        /\ enemyDied res = (hp_current enemy - dealt <=? 0)
        /\ rs_enemies st' !! 1%nat
           = Some (set_is_dead (is_dead enemy || enemyDied res)
                     (set_hp_current (Z.max 0 (hp_current enemy - dealt)) enemy))
        /\ (forall k, k <> 1%nat -> rs_enemies st' !! k = rs_enemies st !! k)
        /\ round_number st' = round_number st
        /\ (enemyDied res = false ->
            is_combat_active st' = is_combat_active st
            /\ loot res = [] /\ goldDrop res = 0 /\ xpReward res = 0
            /\ snd (damageEnemy (fun _ => 1 # 2) [] 1%nat 3 "slashing" st 0%nat)
               = 0%nat)).
Proof.
  assert (H : rs_enemies CombatSpec.sample_room_state !! 1%nat
              = Some (CombatSpec.sample_enemy 10 false)) by reflexivity.
  split; [exact H|].
  exact (damageEnemy_hit (fun _ => 1 # 2) [] 1%nat 3 "slashing"
           CombatSpec.sample_room_state (CombatSpec.sample_enemy 10 false)
           0%nat H).
Defined.

(** ** Experience *)

Lemma Math_round_nonneg (x : Q) : (0 <= x)%Q -> 0 <= Js.Math_round x.
Proof.
  intros H. change 0 with (Js.Math_round 0). apply DiceFacts.Math_round_mono.
  exact H.
Qed.

Lemma lookup_map {A B : Type} (f : A -> B) (l : list A) (i : nat) :
  map f l !! i = f <$> l !! i.
Proof. exact (list_lookup_fmap f l i). Qed.

Lemma find_map_same {A : Type} (P : A -> bool) (f : A -> A) (l : list A) :
  (forall x, P (f x) = P x) ->
  List.find P (map f l) = option_map f (List.find P l).
Proof.
  intros H. induction l as [|x l IH]; [reflexivity|].
  cbn [map List.find]. rewrite H. destruct (P x); [reflexivity | exact IH].
Qed.

(** [distributeXp]: at least 1 experience point is granted, whatever the
    base amount and the outcome.  When the player has no row for the
    skill, nothing changes and nothing is reported.  Otherwise the row
    gains the points; its level becomes the level of the formula
    [min(100, floor(sqrt(xp / 10)) + 1)] when that is higher and stays
    otherwise, so a level never decreases; the true level moves by the
    same amount; the rows of other skills and players are unchanged; and
    one entry is reported, a level-up exactly when the level rose. *)
Theorem distributeXp_levels (table : list SkillRow) (playerId : Z)
  (skillName : string) (baseXp : Z) (outcome : Dice.Outcome) :
  let out := distributeXp table playerId skillName baseXp outcome in
  let xp := xp_amount baseXp outcome in
  1 <= xp
  /\ length (fst out) = length table
  /\ (forall i r, table !! i = Some r ->
        is_skill_row playerId skillName r = false -> fst out !! i = Some r)
  /\ (List.find (is_skill_row playerId skillName) table = None ->
      out = (table, []))
  /\ (forall row, List.find (is_skill_row playerId skillName) table = Some row ->
        exists row',
          List.find (is_skill_row playerId skillName) (fst out) = Some row'
          /\ sk_xp row' = sk_xp row + xp
          /\ sk_level row'
             = Z.max (sk_level row)
                 (Z.min 100 (Z.sqrt ((sk_xp row + xp) / 10) + 1))
          /\ sk_true_level row' - sk_true_level row
             = sk_level row' - sk_level row
          /\ snd out
             = [mkXpEntry skillName xp
                  (if sk_level row <? sk_level row'
                   then Some (sk_level row, sk_level row') else None)]).
Proof.
  intros out xp. subst out. unfold distributeXp. fold xp.
  set (P := is_skill_row playerId skillName).
  set (f1 := fun r => if P r
                      then mkSkillRow (sk_player_id r) (sk_skill_name r)
                             (sk_level r) (sk_xp r + xp) (sk_true_level r)
                      else r).
  assert (Hf1 : forall r, P (f1 r) = P r).
  { intros r. unfold f1. destruct (P r) eqn:E; [|exact E]. exact E. }
  split; [unfold xp, xp_amount; lia|].
  destruct (List.find P table) as [skill|] eqn:Hfind.
  - set (newLevel := Z.min 100 (Z.sqrt ((sk_xp skill + xp) / 10) + 1)).
    set (f2 := fun r => if P r
                        then mkSkillRow (sk_player_id r) (sk_skill_name r)
                               newLevel (sk_xp r)
                               (sk_true_level r + (newLevel - sk_level skill))
                        else r).
    assert (Hf2 : forall r, P (f2 r) = P r).
    { intros r. unfold f2. destruct (P r) eqn:E; [|exact E]. exact E. }
    assert (HP : P skill = true).
    { apply List.find_some in Hfind. tauto. }
    destruct (Z.ltb_spec (sk_level skill) newLevel) as [Hup|Hsame];
      cbn [fst snd].
    + split; [rewrite !length_map; reflexivity|]. split; [|split; [discriminate|]].
      * intros i r Hr Hnot. rewrite !lookup_map, Hr. cbn.
        unfold f1. rewrite Hnot. unfold f2. rewrite Hnot. reflexivity.
      * intros row [= <-]. exists (f2 (f1 skill)).
        rewrite !find_map_same, Hfind by assumption.
        split; [reflexivity|].
        unfold f2. rewrite Hf1, HP. unfold f1. rewrite HP.
        cbn [sk_xp sk_level sk_true_level].
        split; [reflexivity|]. split; [lia|]. split; [lia|].
        destruct (Z.ltb_spec (sk_level skill) newLevel); [reflexivity | lia].
    + split; [rewrite !length_map; reflexivity|]. split; [|split; [discriminate|]].
      * intros i r Hr Hnot. rewrite !lookup_map, Hr. cbn.
        unfold f1. rewrite Hnot. reflexivity.
      * intros row [= <-]. exists (f1 skill).
        rewrite !find_map_same, Hfind by assumption.
        split; [reflexivity|].
        unfold f1. rewrite HP. cbn [sk_xp sk_level sk_true_level].
        split; [reflexivity|]. split; [fold newLevel; lia|]. split; [lia|].
        destruct (Z.ltb_spec (sk_level skill) (sk_level skill));
          [lia | reflexivity].
  - cbn [fst snd]. split; [reflexivity|]. split; [auto|].
    split; [reflexivity | discriminate].
Qed.

(** ** Equipment *)

Lemma armor_from (items : list EquippedItem) (acc : Z) :
  fold_left (fun total item => total + armor_of item) items acc
  = acc + calculatePlayerArmor items.
Proof.
  unfold calculatePlayerArmor. revert acc.
  induction items as [|x l IH]; intros acc; cbn [fold_left]; [lia|].
  rewrite (IH (acc + armor_of x)), (IH (0 + armor_of x)). lia.
Qed.

Lemma armor_cons (x : EquippedItem) (l : list EquippedItem) :
  calculatePlayerArmor (x :: l) = armor_of x + calculatePlayerArmor l.
Proof. unfold calculatePlayerArmor at 1. cbn [fold_left]. apply armor_from. Qed.

Lemma armor_app (a b : list EquippedItem) :
  calculatePlayerArmor (a ++ b) = calculatePlayerArmor a + calculatePlayerArmor b.
Proof.
  induction a as [|x a IH]; [reflexivity|].
  cbn [app]. rewrite !armor_cons, IH. lia.
Qed.

Lemma armor_permutation (a b : list EquippedItem) :
  a ≡ₚ b -> calculatePlayerArmor a = calculatePlayerArmor b.
Proof.
  induction 1 as [|x a b _ IH|x y a|a b c _ IH1 _ IH2].
  - reflexivity.
  - rewrite !armor_cons, IH. reflexivity.
  - rewrite !armor_cons. lia.
  - congruence.
Qed.

Lemma resistance_from (t : string) (items : list EquippedItem) (acc : Q) :
  (fold_left
     (fun multiplier item =>
        match resistance_of t item with
        | Some v => multiplier * v
        | None => multiplier
        end) items acc
   == acc
      * fold_left
          (fun multiplier item =>
             match resistance_of t item with
             | Some v => multiplier * v
             | None => multiplier
             end) items 1)%Q.
Proof.
  revert acc. induction items as [|x l IH]; intros acc; cbn [fold_left].
  - ring.
  - destruct (resistance_of t x) as [v|].
    + rewrite (IH (acc * v)%Q), (IH (1 * v)%Q). ring.
    + apply IH.
Qed.

Lemma resistance_app (a b : list EquippedItem) (t : option string) :
  (calculatePlayerResistance (a ++ b) t
   == calculatePlayerResistance a t * calculatePlayerResistance b t)%Q.
Proof.
  unfold calculatePlayerResistance. destruct t as [t|]; [|reflexivity].
  destruct (String.eqb t ""); [reflexivity|].
  rewrite fold_left_app. apply resistance_from.
Qed.

Lemma find_first_weapon (pre post : list EquippedItem) (w : EquippedItem) :
  Forall (fun i => is_weapon i = false) pre -> is_weapon w = true ->
  List.find is_weapon (pre ++ w :: post) = Some w.
Proof.
  intros Hpre Hw. induction Hpre as [|x pre Hx _ IH]; cbn [app List.find].
  - rewrite Hw. reflexivity.
  - rewrite Hx. exact IH.
Qed.

Lemma find_no_weapon (items : list EquippedItem) :
  Forall (fun i => is_weapon i = false) items ->
  List.find is_weapon items = None.
Proof.
  induction 1 as [|x l Hx _ IH]; [reflexivity|].
  cbn [List.find]. rewrite Hx. exact IH.
Qed.

(** The armor of the player adds up over the equipped items, whatever
    their order; the resistance to a damage type multiplies up over
    them, and is 1 when no damage type is given. *)
Theorem equipment_totals (a b : list EquippedItem) (t : option string) :
  calculatePlayerArmor (a ++ b) = calculatePlayerArmor a + calculatePlayerArmor b
  /\ (a ≡ₚ b -> calculatePlayerArmor a = calculatePlayerArmor b)
  /\ (calculatePlayerResistance (a ++ b) t
      == calculatePlayerResistance a t * calculatePlayerResistance b t)%Q
  /\ calculatePlayerResistance a None = 1%Q
  /\ calculatePlayerResistance a (Some ""%string) = 1%Q.
Proof.
  split; [apply armor_app|]. split; [apply armor_permutation|].
  split; [apply resistance_app|]. split; reflexivity.
Qed.

(** The three weapon helpers read the first equipped weapon and ignore
    any other: with no weapon equipped they give a bonus of 0, a crit
    range of 20 and the damage type [blunt]; the crit range is never 0
    and the damage type never empty. *)
Theorem weapon_helpers (a b : list EquippedItem) :
  (Forall (fun i => is_weapon i = false) a ->
   getWeaponDamageBonus a = 0 /\ getWeaponCritRange a = 20
   /\ getWeaponDamageType a = "blunt"%string)
  /\ (forall w, Forall (fun i => is_weapon i = false) a -> is_weapon w = true ->
        getWeaponDamageBonus (a ++ w :: b) = getWeaponDamageBonus [w]
        /\ getWeaponCritRange (a ++ w :: b) = Js.or_opt (eq_base_crit_range w) 20
        /\ getWeaponDamageType (a ++ w :: b) = getWeaponDamageType [w])
  /\ getWeaponCritRange a <> 0
  /\ getWeaponDamageType a <> ""%string.
Proof.
  split; [|split; [|split]].
  - intros H. unfold getWeaponDamageBonus, getWeaponCritRange, getWeaponDamageType.
    rewrite (find_no_weapon a H). auto.
  - intros w Ha Hw.
    unfold getWeaponDamageBonus, getWeaponCritRange, getWeaponDamageType.
    rewrite (find_first_weapon a b w Ha Hw). cbn [List.find]. rewrite Hw. auto.
  - unfold getWeaponCritRange. destruct (List.find is_weapon a) as [w|]; [|lia].
    unfold Js.or_opt, Js.or_num. destruct (eq_base_crit_range w) as [x|]; [|lia].
    destruct (Z.eqb_spec x 0); lia.
  - unfold getWeaponDamageType.
    destruct (List.find is_weapon a) as [w|]; [|discriminate].
    destruct (eq_damage_type w) as [d|]; [|discriminate].
    destruct (String.eqb_spec d ""); [discriminate | assumption].
Qed.

(** A sword behind a shield: the sword decides, the shield adds its
    armor. *)
Example equipment_sample :
  let shield := mkEquippedItem "armor" (Some (mkMods (Some 2) None ∅)) None None in
  let sword :=
    mkEquippedItem "weapon" (Some (mkMods None (Some 3) ∅)) (Some 19)
      (Some "slashing"%string) in
  calculatePlayerArmor [shield; sword] = 2
  /\ getWeaponDamageBonus [shield; sword] = 3
  /\ getWeaponCritRange [shield; sword] = 19
  /\ getWeaponDamageType [shield; sword] = "slashing"%string.
Proof. repeat split. Qed.

End CombatFacts.

(** * Further properties of the action processor *)

Module TurnFacts.

Import FloorGenerator Combat ActionProcessor Turn TurnSpec ActionSpec.

(** ** Status effects *)

Lemma poison_damage_from (effects : list StatusEffect) (acc : Z) :
  fold_left
    (fun poisonDmg effect =>
       if is_poison effect
       then poisonDmg + Js.or_opt (se_damage_per_tick effect) 2
       else poisonDmg)
    effects acc
  = acc + foldr (fun e a => tick_damage e + a) 0 effects.
Proof.
  revert acc. induction effects as [|e l IH]; intros acc; cbn [fold_left foldr].
  - lia.
  - rewrite IH. unfold tick_damage. destruct (is_poison e); lia.
Qed.

Lemma tick_damage_sum_nonneg (effects : list StatusEffect) :
  Forall (fun e => 0 <= tick_damage e) effects ->
  0 <= foldr (fun e a => tick_damage e + a) 0 effects.
Proof. induction 1; cbn [foldr]; lia. Qed.

(** One tick, when no effect has a negative damage. *)
Lemma tick_once (s : Ticking) :
  Forall (fun e => 0 <= tick_damage e) (status_effects s) ->
  status_effects (tickStatusEffects s)
  = filter (fun e => ~ se_duration e <= 0) (decrement <$> status_effects s)
  /\ tk_hpChange (tickStatusEffects s)
     = tk_hpChange s - foldr (fun e a => tick_damage e + a) 0 (status_effects s)
  /\ tk_updatedPlayerHp (tickStatusEffects s)
     = tk_updatedPlayerHp s
       - foldr (fun e a => tick_damage e + a) 0 (status_effects s)
  /\ statusEffectsRemoved (tickStatusEffects s)
     = statusEffectsRemoved s
       ++ filter (fun e => se_duration e <= 0) (decrement <$> status_effects s).
Proof.
  intros Hnn. unfold tickStatusEffects.
  destruct (status_effects s) as [|e0 l] eqn:E.
  - cbn. rewrite E, app_nil_r. repeat split; lia.
  - rewrite <- E in *. clear E e0 l.
    cbn [status_effects tk_hpChange tk_updatedPlayerHp statusEffectsRemoved].
    unfold poison_damage. rewrite poison_damage_from.
    pose proof (tick_damage_sum_nonneg _ Hnn) as Hsum.
    set (dmg := foldr _ 0 (status_effects s)) in *.
    split; [reflexivity|].
    destruct (Z.ltb_spec 0 (0 + dmg)); repeat split; lia.
Qed.

Lemma after_ticks_filter (n : nat) (effects : list StatusEffect) :
  filter (fun e => ~ se_duration e <= 0)
    (decrement <$>
       filter (fun e => ~ se_duration e <= 0) (after_ticks n <$> effects))
  = filter (fun e => ~ se_duration e <= 0) (after_ticks (S n) <$> effects).
Proof.
  induction effects as [|e l IH]; [reflexivity|].
  rewrite !fmap_cons.
  assert (Hd : decrement (after_ticks n e) = after_ticks (S n) e).
  { unfold decrement, after_ticks. cbn [se_type se_duration se_damage_per_tick se_source].
    f_equal. lia. }
  destruct (decide (~ se_duration (after_ticks n e) <= 0)) as [H|H].
  - rewrite (filter_cons_True (fun e : StatusEffect => ~ se_duration e <= 0) _ _ H), fmap_cons, Hd.
    destruct (decide (~ se_duration (after_ticks (S n) e) <= 0)) as [H'|H'].
    + rewrite !(filter_cons_True (fun e : StatusEffect => ~ se_duration e <= 0) _ _ H'), IH. reflexivity.
    + rewrite !(filter_cons_False (fun e : StatusEffect => ~ se_duration e <= 0) _ _ H'), IH. reflexivity.
  - rewrite (filter_cons_False (fun e : StatusEffect => ~ se_duration e <= 0) _ _ H).
    assert (H' : ~ ~ se_duration (after_ticks (S n) e) <= 0).
    { cbn [after_ticks se_duration] in *. lia. }
    rewrite (filter_cons_False (fun e : StatusEffect => ~ se_duration e <= 0) _ _ H'). exact IH.
Qed.

Lemma after_one_tick (effects : list StatusEffect) :
  decrement <$> effects = after_ticks 1 <$> effects.
Proof. apply list_fmap_ext. intros i e _. reflexivity. Qed.

Lemma live_damage (n : nat) (effects : list StatusEffect) :
  (1 <= n)%nat ->
  foldr (fun e a => tick_damage e + a) 0
    (filter (fun e => ~ se_duration e <= 0) (after_ticks n <$> effects))
  = poison_total (S n) effects - poison_total n effects.
Proof.
  intros Hn. induction effects as [|e l IH]; [reflexivity|].
  rewrite fmap_cons. unfold poison_total in *. cbn [foldr].
  assert (Ht : tick_damage (after_ticks n e) = tick_damage e) by reflexivity.
  destruct (decide (~ se_duration (after_ticks n e) <= 0)) as [H|H].
  - rewrite (filter_cons_True (fun e : StatusEffect => ~ se_duration e <= 0) _ _ H). cbn [foldr]. rewrite IH, Ht.
    assert (E : ticks_within (S n) e = ticks_within n e + 1).
    { unfold ticks_within. cbn [after_ticks se_duration] in H. lia. }
    rewrite E, Z.mul_add_distr_l. lia.
  - rewrite (filter_cons_False (fun e : StatusEffect => ~ se_duration e <= 0) _ _ H). rewrite IH.
    assert (E : ticks_within (S n) e = ticks_within n e).
    { unfold ticks_within. cbn [after_ticks se_duration] in H. lia. }
    rewrite E. lia.
Qed.

Lemma first_damage (effects : list StatusEffect) :
  foldr (fun e a => tick_damage e + a) 0 effects = poison_total 1 effects.
Proof.
  induction effects as [|e l IH]; [reflexivity|].
  unfold poison_total in *. cbn [foldr]. rewrite IH.
  assert (E : ticks_within 1 e = 1) by (unfold ticks_within; lia).
  rewrite E. lia.
Qed.

Lemma filter_damage_nonneg (P : StatusEffect -> Prop)
  `{!forall e, Decision (P e)} (f : StatusEffect -> StatusEffect)
  (effects : list StatusEffect) :
  (forall e, tick_damage (f e) = tick_damage e) ->
  Forall (fun e => 0 <= tick_damage e) effects ->
  Forall (fun e => 0 <= tick_damage e) (filter P (f <$> effects)).
Proof.
  intros Hf Hnn. apply Forall_forall. intros e He.
  apply list_elem_of_filter in He as [_ He].
  apply list_elem_of_fmap in He as (e0 & -> & He0).
  rewrite Hf. rewrite Forall_forall in Hnn. apply Hnn. exact He0.
Qed.

Lemma ticks_course (s : Ticking) (n : nat) :
  Forall (fun e => 0 <= tick_damage e) (status_effects s) ->
  status_effects (ticks (S n) s)
  = filter (fun e => ~ se_duration e <= 0) (after_ticks (S n) <$> status_effects s)
  /\ tk_hpChange (ticks (S n) s)
     = tk_hpChange s - poison_total (S n) (status_effects s)
  /\ tk_updatedPlayerHp (ticks (S n) s)
     = tk_updatedPlayerHp s - poison_total (S n) (status_effects s).
Proof.
  intros Hnn. induction n as [|n (IH1 & IH2 & IH3)].
  - change (ticks 1 s) with (tickStatusEffects s).
    destruct (tick_once s Hnn) as (A & B & C & _).
    rewrite A, B, C, first_damage, after_one_tick. auto.
  - change (ticks (S (S n)) s) with (tickStatusEffects (ticks (S n) s)).
    set (sn := ticks (S n) s) in *.
    assert (Hnn' : Forall (fun e => 0 <= tick_damage e) (status_effects sn)).
    { rewrite IH1. apply filter_damage_nonneg; [reflexivity | exact Hnn]. }
    destruct (tick_once sn Hnn') as (A & B & C & _).
    rewrite A, B, C, IH1, IH2, IH3, after_ticks_filter.
    rewrite (live_damage (S n)) by lia.
    split; [reflexivity|]. split; lia.
Qed.

(** The course of status effects over the actions of a run.  One tick
    decrements every effect, drops those whose duration reaches 0 and
    reports them in [statusEffectsRemoved], so every effect that remains
    has a positive duration.  Over [n] ticks (with no negative damage
    amount) an effect of duration [d] is ticked [max(1, d)] times, the
    tick on which it expires included: the health of the player falls by
    the damage of each poison times the number of its ticks, and the
    effects that remain are those of duration above [n], with [n] turns
    less to run. *)
Theorem tickStatusEffects_course (s : Ticking) (n : nat) :
  Forall (fun e => 0 <= tick_damage e) (status_effects s) ->
  (1 <= n)%nat ->
  status_effects (ticks n s)
  = filter (fun e => ~ se_duration e <= 0) (after_ticks n <$> status_effects s)
  /\ Forall (fun e => 1 <= se_duration e) (status_effects (ticks n s))
  /\ tk_hpChange (ticks n s) = tk_hpChange s - poison_total n (status_effects s)
  /\ tk_updatedPlayerHp (ticks n s)
     = tk_updatedPlayerHp s - poison_total n (status_effects s)
  /\ statusEffectsRemoved (tickStatusEffects s)
     = statusEffectsRemoved s
       ++ filter (fun e => se_duration e <= 0) (decrement <$> status_effects s).
Proof.
  intros Hnn Hn. destruct n as [|n]; [lia|].
  destruct (ticks_course s n Hnn) as (A & B & C).
  split; [exact A|]. split; [|split; [exact B|split; [exact C|]]].
  - rewrite A. apply Forall_forall. intros e He.
    apply list_elem_of_filter in He as [He _]. lia.
  - apply (tick_once s Hnn).
Qed.

Lemma tickStatusEffects_course_witness :
  Forall (fun e => 0 <= tick_damage e) (status_effects sample_ticking)
  /\ (1 <= 3)%nat
  /\ status_effects (ticks 3 sample_ticking)
     = filter (fun e => ~ se_duration e <= 0)
         (after_ticks 3 <$> status_effects sample_ticking)
  /\ Forall (fun e => 1 <= se_duration e) (status_effects (ticks 3 sample_ticking))
  /\ tk_hpChange (ticks 3 sample_ticking)
     = tk_hpChange sample_ticking
       - poison_total 3 (status_effects sample_ticking)
  /\ tk_updatedPlayerHp (ticks 3 sample_ticking)
     = tk_updatedPlayerHp sample_ticking
       - poison_total 3 (status_effects sample_ticking)
  /\ statusEffectsRemoved (tickStatusEffects sample_ticking)
     = statusEffectsRemoved sample_ticking
       ++ filter (fun e => se_duration e <= 0)
            (decrement <$> status_effects sample_ticking).
Proof.
  assert (H1 : Forall (fun e => 0 <= tick_damage e)
                 (status_effects sample_ticking)).
  { repeat constructor; vm_compute; discriminate. }
  assert (H2 : (1 <= 3)%nat) by lia.
  split; [exact H1|]. split; [exact H2|].
  exact (tickStatusEffects_course sample_ticking 3 H1 H2).
Defined.

(** The poison of the sample state runs for three ticks of 2 damage: the
    player ends at 14 of 20, with no effect left. *)
Example ticks_sample :
  tk_updatedPlayerHp (ticks 3 sample_ticking) = 14
  /\ status_effects (ticks 3 sample_ticking) = []
  /\ length (statusEffectsRemoved (ticks 3 sample_ticking)) = 2%nat.
Proof. vm_compute. auto. Qed.

(** ** Poison does not stack *)

Lemma alter_middle {A : Type} (f : A -> A) (l1 l2 : list A) (x : A) :
  alter f (length l1) (l1 ++ x :: l2) = l1 ++ f x :: l2.
Proof. induction l1 as [|y l1 IH]; cbn; [reflexivity | f_equal; exact IH]. Qed.

Lemma filter_none {A : Type} (P : A -> Prop) `{!forall x, Decision (P x)}
  (l : list A) :
  Forall (fun x => ~ P x) l -> filter P l = [].
Proof.
  induction 1 as [|x l Hx _ IH]; [reflexivity|].
  rewrite (filter_cons_False P x l Hx). exact IH.
Qed.

Lemma list_find_split {A : Type} (P : A -> Prop) `{!forall x, Decision (P x)}
  (l : list A) (i : nat) (x : A) :
  list_find P l = Some (i, x) ->
  exists l1 l2, l = l1 ++ x :: l2 /\ length l1 = i /\ P x
    /\ Forall (fun y => ~ P y) l1.
Proof.
  intros Hf. apply list_find_Some in Hf as (Hi & Hx & Hbefore).
  exists (take i l), (drop (S i) l).
  split; [symmetry; apply take_drop_middle; exact Hi|].
  split; [apply length_take_le; apply lookup_lt_Some in Hi; lia|].
  split; [exact Hx|].
  apply Forall_forall. intros y Hy.
  apply list_elem_of_lookup_1 in Hy as [j Hj].
  pose proof (lookup_lt_Some _ _ _ Hj) as Hlt.
  rewrite length_take in Hlt. rewrite lookup_take_lt in Hj by lia.
  eapply Hbefore; [exact Hj | lia].
Qed.

(** The poison of an enemy attack never stacks on a poison of the same
    source: afterwards the source has as many poison effects as before,
    or one when it had none; its first poison runs for the longer of the
    old duration and the new one (5 turns when the attack gives none);
    the effects of other sources and kinds are left as they were. *)
Theorem applyPoison_no_stack (effects : list StatusEffect) (source : string)
  (duration : option Z) :
  let effects' := applyPoison effects source duration in
  let fresh := Js.or_opt duration 5 in
  length (poison_from source effects')
  = Nat.max 1 (length (poison_from source effects))
  /\ (exists e, head (poison_from source effects') = Some e
        /\ se_duration e
           = match head (poison_from source effects) with
             | Some old => Z.max (se_duration old) fresh
             | None => fresh
             end)
  /\ (forall other, other <> source ->
        poison_from other effects' = poison_from other effects)
  /\ filter (fun e => is_poison e = false) effects'
     = filter (fun e => is_poison e = false) effects.
Proof.
  intros effects' fresh. subst effects'. unfold applyPoison. fold fresh.
  set (P := fun e => is_poison e = true /\ se_source e = source).
  unfold poison_from. fold P.
  destruct (list_find P effects) as [[i x]|] eqn:Hfind.
  - destruct (list_find_split P effects i x Hfind)
      as (l1 & l2 & -> & <- & Hx & Hl1).
    rewrite alter_middle.
    set (x' := mkStatusEffect (se_type x) (Z.max (se_duration x) fresh)
                 (se_damage_per_tick x) (se_source x)).
    assert (Hx' : P x') by exact Hx.
    rewrite !filter_app, (filter_none P l1 Hl1).
    rewrite (filter_cons_True P x' l2 Hx'), (filter_cons_True P x l2 Hx).
    cbn [app length head]. split; [lia|].
    split; [exists x'; split; reflexivity|]. split.
    + intros other Hne.
      assert (Hn : ~ (is_poison x = true /\ se_source x = other)).
      { intros [_ E]. destruct Hx as [_ E']. congruence. }
      rewrite ?filter_app.
      rewrite (filter_cons_False _ x' l2 Hn), (filter_cons_False _ x l2 Hn).
      reflexivity.
    + rewrite ?filter_app.
      assert (Hn : ~ is_poison x = false).
      { destruct Hx as [E _]. rewrite E. discriminate. }
      rewrite (filter_cons_False _ x' l2 Hn), (filter_cons_False _ x l2 Hn).
      reflexivity.
  - apply list_find_None in Hfind.
    rewrite filter_app, (filter_none P effects Hfind).
    set (x := mkStatusEffect "poison" fresh (Some 2) source).
    assert (Hx : P x) by (split; reflexivity).
    rewrite (filter_cons_True P x [] Hx). cbn [app length head filter].
    split; [reflexivity|]. split; [exists x; split; reflexivity|]. split.
    + intros other Hne.
      assert (Hn : ~ (is_poison x = true /\ se_source x = other)).
      { intros [_ E]. apply Hne. symmetry. exact E. }
      rewrite ?filter_app, (filter_cons_False _ x [] Hn). apply app_nil_r.
    + assert (Hn : ~ is_poison x = false) by discriminate.
      rewrite ?filter_app, (filter_cons_False _ x [] Hn). apply app_nil_r.
Qed.

(** ** Rest *)

(** Outside a rest room, or in a rest room without a rest site,
    [processRest] does nothing.  At a rest site with a non-negative heal
    fraction, a player whose health is between 0 and the maximum is
    healed by the rounded fraction of the maximum, capped at the
    maximum; [hpChange] grows by the whole amount, capped or not; and
    on a turn with no other change of health the value that
    [applyResults] stores is the one that [processRest] reported. *)
Theorem processRest_heals (player : Vitals) (currentRoom : Room)
  (r : ActionResult) :
  (type currentRoom <> Some ty_rest \/ rest currentRoom = None ->
   processRest player currentRoom r = (r, None))
  /\ (forall rs, type currentRoom = Some ty_rest -> rest currentRoom = Some rs ->
        (0 <= heal_percent rs)%Q ->
        0 <= pl_hp_current player <= pl_hp_max player ->
        let heal :=
          Js.Math_round (inject_Z (pl_hp_max player) * heal_percent rs) in
        let r' := fst (processRest player currentRoom r) in
        snd (processRest player currentRoom r) = Some heal
        /\ 0 <= heal
        /\ hpChange r' = hpChange r + heal
        /\ updatedPlayerHp r'
           = Z.min (pl_hp_max player) (pl_hp_current player + heal)
        /\ pl_hp_current player <= updatedPlayerHp r' <= pl_hp_max player
        /\ (hpChange r = 0 ->
            fst (apply_hp_change player r') = updatedPlayerHp r')).
Proof.
  split.
  - intros [H|H]; unfold processRest, type_is.
    + rewrite bool_decide_eq_false_2 by exact H. reflexivity.
    + rewrite H. destruct (negb _); reflexivity.
  - intros rs Ht Hr Hp Hhp heal r'. subst r'. unfold processRest, type_is.
    rewrite bool_decide_eq_true_2 by exact Ht. cbn [negb]. rewrite Hr.
    fold heal. cbn [fst snd hpChange updatedPlayerHp with_hpChange
                    with_updatedPlayerHp].
    assert (Hheal : 0 <= heal).
    { apply CombatFacts.Math_round_nonneg. apply Qmult_le_0_compat; [|exact Hp].
      change 0%Q with (inject_Z 0). rewrite <- Zle_Qle. lia. }
    split; [reflexivity|]. split; [exact Hheal|]. split; [reflexivity|].
    split; [reflexivity|]. split; [lia|].
    intros H0. unfold apply_hp_change.
    cbn [hpChange with_hpChange with_updatedPlayerHp]. rewrite H0.
    destruct (Z.eqb_spec (0 + heal) 0) as [E|E]; cbn [fst]; lia.
Qed.

(** ** Flight *)

Lemma Math_round_zero (x : Q) : Js.Math_round (x * 0) = 0.
Proof.
  unfold Js.Math_round.
  assert (E : (x * 0 + (1 # 2) == 1 # 2)%Q) by ring.
  rewrite E. reflexivity.
Qed.

Lemma opportunity_total_zero (enemies : list Enemy) :
  opportunity_total 0 enemies = 0.
Proof.
  induction enemies as [|e l IH]; [reflexivity|].
  unfold opportunity_total in *. cbn [foldr]. rewrite IH, Math_round_zero.
  destruct (is_dead e); reflexivity.
Qed.

Lemma opportunity_loop (oppMultiplier : Q) (enemies : list Enemy)
  (r : ActionResult) :
  let r' := foldl (opportunity_step oppMultiplier) r enemies in
  hpChange r' = hpChange r - opportunity_total oppMultiplier enemies
  /\ updatedPlayerHp r'
     = updatedPlayerHp r - opportunity_total oppMultiplier enemies
  /\ diceResults r' = diceResults r /\ checks r' = checks r.
Proof.
  revert r. induction enemies as [|e l IH]; intros r.
  - cbn. repeat split; lia.
  - cbn [foldl]. destruct (IH (opportunity_step oppMultiplier r e))
      as (A & B & C & D).
    cbv zeta. rewrite A, B, C, D. unfold opportunity_total. cbn [foldr].
    unfold opportunity_step. destruct (is_dead e); cbn; repeat split; lia.
Qed.

(** [processFlee] rolls one stealth check against DC 12 and records it;
    the floor map and the enemies are left alone.  A failed check
    changes nothing else: the combat goes on.  A passed check (a partial
    success included) ends the combat, and every living enemy strikes
    once at a fraction of its damage, rounded: none on a critical
    success, a quarter on a success, half otherwise. *)
Theorem processFlee_outcomes (rnd : nat -> Q)
  (baseStats : option Dice.BaseStats) (skills : gmap string Z) (w : World)
  (c : nat) :
  let roll := Dice.skillCheck rnd (flee_check_params baseStats skills) c in
  let check := fst roll in
  let out := processFlee rnd baseStats skills w c in
  let w' := fst (fst out) in
  let blows :=
    opportunity_total (flee_multiplier (Dice.outcome check))
      (rs_enemies (room_state w)) in
  snd out = snd roll
  /\ diceResults (result w') = diceResults (result w) ++ [check]
  /\ checks (result w') = checks (result w) ++ [("stealth"%string, check)]
  /\ floorMap w' = floorMap w
  /\ rs_enemies (room_state w') = rs_enemies (room_state w)
  /\ (Dice.passed check = false ->
      snd (fst out) = None /\ room_state w' = room_state w
      /\ hpChange (result w') = hpChange (result w)
      /\ updatedPlayerHp (result w') = updatedPlayerHp (result w))
  /\ (Dice.passed check = true ->
      snd (fst out) = Some (Dice.outcome check)
      /\ is_combat_active (room_state w') = false
      /\ hpChange (result w') = hpChange (result w) - blows
      /\ updatedPlayerHp (result w') = updatedPlayerHp (result w) - blows)
  /\ (Dice.outcome check = Dice.critical_success -> blows = 0).
Proof.
  intros roll check out w' blows. subst out w'.
  unfold processFlee, bind, ret. fold (flee_check_params baseStats skills).
  fold roll. fold check. cbn [fst snd].
  destruct (Dice.passed check) eqn:Hp; cbn [fst snd].
  - set (m := match Dice.outcome check with
              | Dice.critical_success => 0%Q
              | Dice.success => (1 # 4)%Q
              | _ => (1 # 2)%Q
              end).
    assert (Hm : m = flee_multiplier (Dice.outcome check)) by reflexivity.
    assert (Hz : Js.Qltb 0 m = false -> blows = 0).
    { intros H. subst blows. rewrite <- Hm.
      destruct (Dice.outcome check); subst m; try discriminate H;
        apply opportunity_total_zero. }
    destruct (Js.Qltb 0 m) eqn:Hlt.
    + cbn [result with_result floorMap room_state with_room_state
           set_is_combat_active rs_enemies is_combat_active].
      match goal with
      | |- context [foldl (opportunity_step m) ?r ?es] =>
          destruct (opportunity_loop m es r) as (A & B & C & D)
      end.
      cbv zeta in A, B, C, D. rewrite A, B, C, D. rewrite Hm. fold blows.
      cbn [hpChange updatedPlayerHp diceResults checks with_diceResults
           with_checks].
      split; [reflexivity|]. split; [reflexivity|]. split; [reflexivity|].
      split; [reflexivity|]. split; [reflexivity|]. split; [discriminate|].
      split; [auto|].
      intros E. subst blows. rewrite E. apply opportunity_total_zero.
    + specialize (Hz eq_refl).
      cbn [result with_result floorMap room_state with_room_state
           set_is_combat_active rs_enemies is_combat_active
           hpChange updatedPlayerHp diceResults checks with_diceResults
           with_checks].
      split; [reflexivity|]. split; [reflexivity|]. split; [reflexivity|].
      split; [reflexivity|]. split; [reflexivity|]. split; [discriminate|].
      split; [|auto].
      intros _. split; [reflexivity|]. split; [reflexivity|]. split; lia.
  - cbn [result with_result floorMap room_state
         hpChange updatedPlayerHp diceResults checks with_diceResults
         with_checks].
    split; [reflexivity|]. split; [reflexivity|]. split; [reflexivity|].
    split; [reflexivity|]. split; [reflexivity|]. split; [auto|].
    split; [discriminate|].
    intros E. subst blows. rewrite E. apply opportunity_total_zero.
Qed.

(** ** The context window *)

Lemma shift_to_drop {A : Type} (window : nat) (l : list A) :
  shift_to window l = drop (length l - window) l.
Proof.
  induction l as [|x l IH]; [reflexivity|].
  cbn [shift_to]. destruct (Nat.ltb_spec window (length (x :: l))) as [H|H].
  - rewrite IH. cbn [length] in *.
    replace (S (length l) - window)%nat with (S (length l - window)) by lia.
    reflexivity.
  - replace (length (x :: l) - window)%nat with 0%nat by lia. reflexivity.
Qed.

(** The rolling window of the narrator's context: after a turn the
    context holds the entry of the turn last, and at most 12 entries: the
    oldest are dropped, and none is while there is room. *)
Theorem push_context_window {A : Type} (aiContext : list A) (entry : A) :
  let ctx := push_context aiContext entry in
  length ctx = Nat.min (S (length aiContext)) aiContextWindow
  /\ last ctx = Some entry
  /\ (exists dropped, aiContext ++ [entry] = dropped ++ ctx
        /\ length dropped = (S (length aiContext) - aiContextWindow)%nat)
  /\ ((length aiContext < aiContextWindow)%nat -> ctx = aiContext ++ [entry]).
Proof.
  intros ctx. subst ctx. unfold push_context. rewrite shift_to_drop.
  rewrite length_app. cbn [length]. unfold aiContextWindow.
  replace (length aiContext + 1)%nat with (S (length aiContext)) by lia.
  set (k := (S (length aiContext) - 12)%nat).
  assert (Hk : (k <= length aiContext)%nat) by (subst k; lia).
  split; [rewrite length_drop, length_app; cbn [length]; lia|].
  split.
  { rewrite drop_app_le by exact Hk. apply last_snoc. }
  split.
  { exists (take k (aiContext ++ [entry])).
    split; [symmetry; apply take_drop|].
    rewrite length_take, length_app. cbn [length]. lia. }
  intros Hlt. replace k with 0%nat by (subst k; lia). reflexivity.
Qed.

(** ** The inventory *)

Lemma rows_apart (l1 l2 : list InvRow) (row : InvRow) :
  distinct_rows (l1 ++ row :: l2) ->
  Forall (fun r => row_id r <> row_id row) l1
  /\ Forall (fun r => row_id r <> row_id row) l2
  /\ distinct_rows (l1 ++ l2).
Proof.
  unfold distinct_rows. rewrite !fmap_app, fmap_cons.
  intros Hnd. apply NoDup_app in Hnd as (N1 & Hdis & N2).
  apply NoDup_cons in N2 as [Hrow N2].
  split; [|split].
  - apply Forall_forall. intros r Hr E.
    apply (Hdis (row_id r)); [apply list_elem_of_fmap_2; exact Hr|].
    rewrite E. left.
  - apply Forall_forall. intros r Hr E. apply Hrow. rewrite <- E.
    apply list_elem_of_fmap_2. exact Hr.
  - apply NoDup_app. split; [exact N1|]. split; [|exact N2].
    intros x Hx Hx'. apply (Hdis x Hx). right. exact Hx'.
Qed.

Lemma map_other_rows (f : InvRow -> InvRow) (id : Z) (l : list InvRow) :
  Forall (fun r => row_id r <> id) l ->
  map (fun r => if bool_decide (row_id r = id) then f r else r) l = l.
Proof.
  induction 1 as [|r l Hr _ IH]; [reflexivity|].
  cbn [map]. rewrite bool_decide_eq_false_2 by exact Hr. rewrite IH. reflexivity.
Qed.

Lemma removeItem_at (l1 l2 : list InvRow) (row : InvRow) (quantity : Z) :
  distinct_rows (l1 ++ row :: l2) ->
  removeItem (l1 ++ row :: l2) (row_id row) quantity
  = if inv_quantity row <=? quantity then l1 ++ l2
    else l1 ++ set_quantity (inv_quantity row - quantity) row :: l2.
Proof.
  intros Hd. destruct (rows_apart l1 l2 row Hd) as (H1 & H2 & _).
  unfold removeItem.
  assert (Hfind : list_find (fun r => row_id r = row_id row) (l1 ++ row :: l2)
                  = Some (length l1, row)).
  { apply list_find_Some. split; [|split; [reflexivity|]].
    - rewrite lookup_app_r by lia. rewrite Nat.sub_diag. reflexivity.
    - intros j y Hy Hlt. rewrite lookup_app_l in Hy by exact Hlt.
      rewrite Forall_forall in H1. apply H1.
      eapply list_elem_of_lookup_2. exact Hy. }
  rewrite Hfind. destruct (inv_quantity row <=? quantity).
  - rewrite filter_app.
    rewrite (filter_cons_False (fun r => row_id r <> row_id row) row l2)
      by (intros E; apply E; reflexivity).
    rewrite !ActionProps.filter_all; [reflexivity | |];
      intros x Hx; [rewrite Forall_forall in H2; apply H2; exact Hx
                   |rewrite Forall_forall in H1; apply H1; exact Hx].
  - rewrite map_app. cbn [map]. rewrite bool_decide_eq_true_2 by reflexivity.
    rewrite !map_other_rows by assumption. reflexivity.
Qed.

(** [removeItem] on an inventory whose rows have distinct identifiers:
    with no row of the identifier nothing changes; otherwise the row is
    deleted when it holds no more than the quantity removed, and loses
    that quantity when it holds more.  The other rows, and the order of
    the rows, stay as they were; identifiers stay distinct; and if every
    row held a positive quantity, every row still does. *)
Theorem removeItem_rows (table : list InvRow) (inventoryRowId quantity : Z) :
  distinct_rows table ->
  ((forall r, r ∈ table -> row_id r <> inventoryRowId) ->
   removeItem table inventoryRowId quantity = table)
  /\ (forall l1 row l2,
        table = l1 ++ row :: l2 -> row_id row = inventoryRowId ->
        removeItem table inventoryRowId quantity
        = if inv_quantity row <=? quantity then l1 ++ l2
          else l1 ++ set_quantity (inv_quantity row - quantity) row :: l2)
  /\ distinct_rows (removeItem table inventoryRowId quantity)
  /\ (Forall (fun r => 0 < inv_quantity r) table ->
      Forall (fun r => 0 < inv_quantity r)
        (removeItem table inventoryRowId quantity)).
Proof.
  intros Hd.
  assert (Hnone : (forall r, r ∈ table -> row_id r <> inventoryRowId) ->
                  removeItem table inventoryRowId quantity = table).
  { intros Hall. unfold removeItem.
    destruct (list_find _ table) as [[i r]|] eqn:E; [|reflexivity].
    apply list_find_Some in E as (Hi & Hr & _). exfalso.
    apply (Hall r); [eapply list_elem_of_lookup_2; exact Hi | exact Hr]. }
  assert (Hat : forall l1 row l2,
            table = l1 ++ row :: l2 -> row_id row = inventoryRowId ->
            removeItem table inventoryRowId quantity
            = if inv_quantity row <=? quantity then l1 ++ l2
              else l1 ++ set_quantity (inv_quantity row - quantity) row :: l2).
  { intros l1 row l2 -> <-. apply removeItem_at. exact Hd. }
  split; [exact Hnone|]. split; [exact Hat|].
  destruct (list_find (fun r => row_id r = inventoryRowId) table)
    as [[i r]|] eqn:Efind.
  - apply list_find_Some in Efind as (Hi & Hr & _).
    apply list_elem_of_lookup_2 in Hi as Hin.
    apply list_elem_of_split in Hin as (l1 & l2 & ->).
    rewrite (Hat l1 r l2 eq_refl Hr).
    destruct (rows_apart l1 l2 r Hd) as (H1 & H2 & H3).
    destruct (Z.leb_spec (inv_quantity r) quantity) as [Hle|Hgt].
    + split; [exact H3|]. intros Hq.
      apply Forall_app in Hq as [Q1 Q2]. apply Forall_cons in Q2 as [_ Q2].
      apply Forall_app. auto.
    + split.
      * unfold distinct_rows in *. rewrite fmap_app, fmap_cons in *. exact Hd.
      * intros Hq. apply Forall_app in Hq as [Q1 Q2].
        apply Forall_cons in Q2 as [_ Q2].
        apply Forall_app. split; [exact Q1|]. constructor; [cbn; lia | exact Q2].
  - apply list_find_None in Efind. rewrite Hnone; [auto|].
    intros r Hin. rewrite Forall_forall in Efind. apply Efind. exact Hin.
Qed.

Lemma removeItem_rows_witness :
  distinct_rows (player_inventory sample_world)
  /\ ((forall r, r ∈ player_inventory sample_world -> row_id r <> 1) ->
      removeItem (player_inventory sample_world) 1 1
      = player_inventory sample_world)
  /\ (forall l1 row l2,
        player_inventory sample_world = l1 ++ row :: l2 -> row_id row = 1 ->
        removeItem (player_inventory sample_world) 1 1
        = if inv_quantity row <=? 1 then l1 ++ l2
          else l1 ++ set_quantity (inv_quantity row - 1) row :: l2)
  /\ distinct_rows (removeItem (player_inventory sample_world) 1 1)
  /\ (Forall (fun r => 0 < inv_quantity r) (player_inventory sample_world) ->
      Forall (fun r => 0 < inv_quantity r)
        (removeItem (player_inventory sample_world) 1 1)).
Proof.
  assert (H : distinct_rows (player_inventory sample_world)).
  { unfold distinct_rows. cbn. repeat constructor. intros E. inversion E. }
  split; [exact H|].
  exact (removeItem_rows (player_inventory sample_world) 1 1 H).
Defined.

(** ** Chests *)

Lemma update_room_chest (cur : nat) (ch : option Chest) (w : World)
  (room : Room) :
  rooms (floorMap w) !! cur = Some room ->
  rooms (floorMap (update_room cur (set_chest ch) w)) !! cur ≫= chest = ch.
Proof.
  intros H. unfold update_room. cbn [floorMap with_floorMap rooms].
  rewrite list_lookup_alter_eq, H. reflexivity.
Qed.

(** A chest is looted once.  Looting an unlocked, unlooted chest marks
    it opened and looted, adds between 15 and 40 gold, and appends drops
    that the chest rules of the dungeon explain at perception level 1;
    looting it again only sets [chestAlreadyLooted]: no gold, no drop, no
    random number, and the floor map stays as it is. *)
Theorem processChestLoot_once (rnd : nat -> Q) (table : list Loot.LootRule)
  (cur : nat) (dungeon : Dungeon) (w : World) (c : nat) (ch : Chest) :
  unit_interval rnd ->
  rooms (floorMap w) !! cur ≫= chest = Some ch ->
  is_locked ch = false -> is_looted ch = false ->
  let first := processChestLoot rnd table cur dungeon w c in
  let w1 := fst first in
  let second := processChestLoot rnd table cur dungeon w1 (snd first) in
  let w2 := fst second in
  chestLooted (result w1) = true
  /\ rooms (floorMap w1) !! cur ≫= chest
     = Some (mkChest true false (chest_lock_dc ch) true)
  /\ 15 <= goldGained (result w1) - goldGained (result w) <= 40
  /\ (exists loot,
        lootDrops (result w1) = lootDrops (result w) ++ loot
        /\ forall d, d ∈ loot ->
             LootMoreSpec.explained table Loot.src_chest (dungeon_id dungeon)
               (Loot.mkContext None None None (Some 1)) d)
  /\ chestAlreadyLooted (result w2) = true
  /\ goldGained (result w2) = goldGained (result w1)
  /\ lootDrops (result w2) = lootDrops (result w1)
  /\ floorMap w2 = floorMap w1
  /\ snd second = snd first.
Proof.
  intros Hu Hch Hlk Hlt first w1 second w2.
  assert (Hroom : exists room, rooms (floorMap w) !! cur = Some room).
  { destruct (rooms (floorMap w) !! cur) as [room|]; [eauto | discriminate]. }
  destruct Hroom as [room Hroom].
  assert (Hfirst : first
    = (let w1 :=
         update_room cur
           (set_chest (Some (mkChest true (is_locked ch) (chest_lock_dc ch) true)))
           w in
       let w2 := with_result (with_chestLooted true (result w1)) w1 in
       let loot :=
         Loot.resolveLoot rnd table Loot.src_chest (dungeon_id dungeon)
           (Loot.mkContext None None None (Some 1)) c in
       let gold := Loot.rollGoldDrop rnd 15 40 (snd loot) in
       let r3 := with_lootDrops (lootDrops (result w2) ++ fst loot) (result w2) in
       (with_result (with_goldGained (goldGained r3 + fst gold) r3) w2,
        snd gold))).
  { subst first. unfold processChestLoot. rewrite Hch, Hlk, Hlt. reflexivity. }
  cbv zeta in Hfirst.
  destruct (LootFacts.rollGoldDrop_bounds rnd 15 40
              (snd (Loot.resolveLoot rnd table Loot.src_chest (dungeon_id dungeon)
                      (Loot.mkContext None None None (Some 1)) c)) Hu)
    as [_ Hgold].
  destruct (Hgold ltac:(lia)) as [Hg _].
  destruct (LootFacts.resolveLoot_explained rnd table Loot.src_chest
              (dungeon_id dungeon) (Loot.mkContext None None None (Some 1)) c)
    as [Hloot _].
  assert (Hch1 : rooms (floorMap w1) !! cur ≫= chest
                 = Some (mkChest true false (chest_lock_dc ch) true)).
  { subst w1. rewrite Hfirst. cbn [fst floorMap with_result].
    rewrite (update_room_chest cur _ w room Hroom), Hlk. reflexivity. }
  assert (Hsecond : second
                    = (with_result (with_chestAlreadyLooted true (result w1)) w1,
                       snd first)).
  { subst second. unfold processChestLoot. rewrite Hch1. reflexivity. }
  subst w2. rewrite Hsecond. subst w1. rewrite Hfirst.
  cbn [fst snd result with_result floorMap chestLooted goldGained lootDrops
       chestAlreadyLooted with_chestAlreadyLooted with_goldGained
       with_lootDrops with_chestLooted update_room with_floorMap].
  split; [reflexivity|].
  split; [rewrite Hfirst in Hch1; exact Hch1|].
  split; [lia|].
  split; [eexists; split; [reflexivity | exact Hloot]|].
  repeat split.
Qed.

Lemma processChestLoot_once_witness :
  unit_interval (fun _ => 1 # 2)
  /\ rooms (floorMap open_chest_world) !! 0%nat ≫= chest = Some open_chest
  /\ is_locked open_chest = false /\ is_looted open_chest = false
  /\ (let first :=
        processChestLoot (fun _ => 1 # 2) [] 0%nat FloorSpec.sample_dungeon
          open_chest_world 0%nat in
      let w1 := fst first in
      let second :=
        processChestLoot (fun _ => 1 # 2) [] 0%nat FloorSpec.sample_dungeon w1
          (snd first) in
      let w2 := fst second in
      chestLooted (result w1) = true
      /\ rooms (floorMap w1) !! 0%nat ≫= chest
         = Some (mkChest true false (chest_lock_dc open_chest) true)
      /\ 15 <= goldGained (result w1) - goldGained (result open_chest_world) <= 40
      /\ (exists loot,
            lootDrops (result w1) = lootDrops (result open_chest_world) ++ loot
            /\ forall d, d ∈ loot ->
                 LootMoreSpec.explained [] Loot.src_chest
                   (dungeon_id FloorSpec.sample_dungeon)
                   (Loot.mkContext None None None (Some 1)) d)
      /\ chestAlreadyLooted (result w2) = true
      /\ goldGained (result w2) = goldGained (result w1)
      /\ lootDrops (result w2) = lootDrops (result w1)
      /\ floorMap w2 = floorMap w1
      /\ snd second = snd first).
Proof.
  assert (H1 : rooms (floorMap open_chest_world) !! 0%nat ≫= chest
               = Some open_chest) by reflexivity.
  assert (H2 : is_locked open_chest = false) by reflexivity.
  assert (H3 : is_looted open_chest = false) by reflexivity.
  split; [exact DiceFacts.half_oracle|]. split; [exact H1|].
  split; [exact H2|]. split; [exact H3|].
  exact (processChestLoot_once (fun _ => 1 # 2) [] 0%nat FloorSpec.sample_dungeon
           open_chest_world 0%nat open_chest DiceFacts.half_oracle H1 H2 H3).
Defined.

(** ** Picking the lock of an adjacent room *)

Lemma find_adjacent_lock_Some (fm : FloorMap) (conns : list Z) (d n : Z) :
  find_adjacent_lock fm conns = Some (d, n) ->
  n ∈ conns
  /\ exists r l, getCurrentRoom fm n = Some r /\ type r = Some ty_locked
       /\ is_accessible r = false /\ lock r = Some l /\ lock_dc l = d.
Proof.
  induction conns as [|x conns IH]; [discriminate|].
  cbn [find_adjacent_lock]. intros H.
  assert (Hrest : find_adjacent_lock fm conns = Some (d, n) ->
            n ∈ x :: conns
            /\ exists r l, getCurrentRoom fm n = Some r /\ type r = Some ty_locked
                 /\ is_accessible r = false /\ lock r = Some l /\ lock_dc l = d).
  { intros H'. destruct (IH H') as [Hin X]. split; [right; exact Hin | exact X]. }
  destruct (getCurrentRoom fm x) as [rx|] eqn:Hx; [|auto].
  destruct (type_is (type rx) ty_locked) eqn:Ht; cbn [andb] in H; [|auto].
  destruct (is_accessible rx) eqn:Ha; cbn [negb] in H; [auto|].
  destruct (lock rx) as [l|] eqn:Hl; [|auto].
  injection H as <- <-. split; [left|].
  exists rx, l. unfold type_is in Ht. apply bool_decide_eq_true_1 in Ht. auto.
Qed.

Lemma trap_handling_rooms (skillName : string) (check : Dice.DiceResult)
  (cur : nat) (w : World) :
  set_trap None <$> rooms (floorMap (trap_handling skillName check cur w))
  = set_trap None <$> rooms (floorMap w).
Proof.
  unfold trap_handling.
  destruct (rooms (floorMap w) !! cur ≫= trap) as [t|]; [|reflexivity].
  destruct (negb (is_disarmed t)); [|reflexivity].
  destruct (_ && _);
    [|destruct (negb (Dice.passed check)); [|reflexivity]];
    cbn [floorMap update_room with_floorMap with_result rooms];
    apply FloorFacts.fmap_alter_same; reflexivity.
Qed.

Lemma trap_handling_passed (check : Dice.DiceResult) (cur : nat) (w : World) :
  Dice.passed check = true ->
  trap_handling "lockpicking" check cur w = w.
Proof.
  intros Hp. unfold trap_handling. rewrite Hp.
  destruct (rooms (floorMap w) !! cur ≫= trap) as [t|]; [|reflexivity].
  destruct (negb (is_disarmed t)); reflexivity.
Qed.

Lemma award_xp_floorMap (playerId : Z) (skillName : string) (baseXp : Z)
  (outcome : Dice.Outcome) (w : World) :
  floorMap (award_xp playerId skillName baseXp outcome w) = floorMap w.
Proof. reflexivity. Qed.

Section Lockpicking.

Variable rnd : nat -> Q.
Variable loot_table : list Loot.LootRule.

Lemma determine_dc_adjacent (currentRoom : Room) (fm : FloorMap)
  (dungeon : Dungeon) (c : nat) (d n : Z) :
  ~ (type currentRoom = Some ty_locked /\ is_Some (lock currentRoom)) ->
  (forall ch, chest currentRoom = Some ch -> is_locked ch = false) ->
  find_adjacent_lock fm (connections currentRoom) = Some (d, n) ->
  determine_dc rnd "lockpicking" currentRoom fm dungeon c
  = if d =? 0
    then (fst (Dice.randomDC rnd (dc_range dungeon) c),
          Some (target_adjacent_room n), snd (Dice.randomDC rnd (dc_range dungeon) c))
    else (d, Some (target_adjacent_room n), c).
Proof.
  intros Hnot Hchest Hadj. unfold determine_dc.
  cbn [String.eqb Ascii.eqb Bool.eqb andb].
  assert (E1 : type_is (type currentRoom) ty_locked
               && bool_decide (is_Some (lock currentRoom)) = false).
  { unfold type_is. apply andb_false_iff.
    destruct (bool_decide_reflect (type currentRoom = Some ty_locked)) as [A|A];
      [|left; reflexivity].
    destruct (bool_decide_reflect (is_Some (lock currentRoom))) as [B|B];
      [|right; reflexivity].
    exfalso. apply Hnot. auto. }
  rewrite E1.
  assert (E2 : match chest currentRoom with
               | Some ch => is_locked ch
               | None => false
               end = false).
  { destruct (chest currentRoom) as [ch|] eqn:E; [|reflexivity].
    apply Hchest. reflexivity. }
  rewrite E2, Hadj. destruct (d =? 0); reflexivity.
Qed.

(** Picking the lock of an adjacent locked room, with a pick in the
    inventory and no lock or locked chest in the current room: the check
    is rolled against the DC of the lock (a random DC of the dungeon when
    that DC is 0).  When it passes, the floor map is the one that
    [unlockRoom] gives: the room is accessible and its lock picked.  When
    it fails, the rooms stay as they were, the trap of the current room
    apart: the locked room is still closed. *)
Theorem lockpick_adjacent_room (run_stats : RunStats) (player : Player)
  (baseStats : option Dice.BaseStats) (skills : gmap string Z) (cur : nat)
  (dungeon : Dungeon) (w : World) (c : nat) (currentRoom : Room) (d n : Z)
  (pick : InvRow) :
  rooms (floorMap w) !! cur = Some currentRoom ->
  ~ (type currentRoom = Some ty_locked /\ is_Some (lock currentRoom)) ->
  (forall ch, chest currentRoom = Some ch -> is_locked ch = false) ->
  find_adjacent_lock (floorMap w) (connections currentRoom) = Some (d, n) ->
  find_pick (getInventory (player_inventory w) (player_id player)) = Some pick ->
  FloorSpec.distinct_numbers (rooms (floorMap w)) ->
  exists w' check r l,
    fst (processSkillCheck rnd loot_table (Some "lockpicking") run_stats player
           baseStats skills cur dungeon w c) = Some w'
    /\ diceResults (result w') = diceResults (result w) ++ [check]
    /\ Dice.dc check
       = (if d =? 0 then fst (Dice.randomDC rnd (dc_range dungeon) c) else d)
    /\ getCurrentRoom (floorMap w) n = Some r
    /\ type r = Some ty_locked /\ is_accessible r = false /\ lock r = Some l
    /\ (Dice.passed check = true ->
        floorMap w' = unlockRoom (floorMap w) n
        /\ getCurrentRoom (floorMap w') n
           = Some (set_lock (Some (pick_lock l)) (set_is_accessible true r)))
    /\ (Dice.passed check = false ->
        set_trap None <$> rooms (floorMap w')
        = set_trap None <$> rooms (floorMap w)).
Proof.
  intros Hroom Hnot Hchest Hadj Hpick Hd.
  destruct (find_adjacent_lock_Some _ _ _ _ Hadj)
    as (Hin & r & l & Hr & Ht & Ha & Hl & Hdc).
  pose proof (determine_dc_adjacent currentRoom (floorMap w) dungeon c d n
                Hnot Hchest Hadj) as Hdt.
  set (dt := determine_dc rnd "lockpicking" currentRoom (floorMap w) dungeon c)
    in *.
  assert (Htarget : snd (fst dt) = Some (target_adjacent_room n)).
  { rewrite Hdt. destruct (d =? 0); reflexivity. }
  assert (Hdcv : fst (fst dt)
                 = if d =? 0 then fst (Dice.randomDC rnd (dc_range dungeon) c)
                   else d).
  { rewrite Hdt. destruct (d =? 0); reflexivity. }
  set (out := processSkillCheck rnd loot_table (Some "lockpicking") run_stats
                player baseStats skills cur dungeon w c).
  set (w1 := with_result
               (with_lockpickConsumed true
                  (result (with_player_inventory
                             (removeItem (player_inventory w) (row_id pick) 1) w)))
               (with_player_inventory
                  (removeItem (player_inventory w) (row_id pick) 1) w)).
  set (check := fst (Dice.skillCheck rnd
                       (lockpick_check_params (fst (fst dt)) baseStats skills)
                       (snd dt))).
  set (w2 := with_result
               (with_diceResults (diceResults (result w1) ++ [check])
                  (with_checks (checks (result w1)
                                ++ [("lockpicking"%string, check)]) (result w1)))
               w1).
  set (w3 := if Dice.passed check
             then with_floorMap (unlockRoom (floorMap w2) n) w2 else w2).
  set (w5 := award_xp (player_id player) "lockpicking" 10 (Dice.outcome check)
               (trap_handling "lockpicking" check cur w3)).
  assert (Hout : fst out = Some w5).
  { subst out. unfold processSkillCheck. rewrite Hroom.
    cbn [String.eqb Ascii.eqb Bool.eqb].
    unfold bind at 1. fold dt. rewrite Htarget.
    rewrite (bool_decide_eq_true_2 (is_Some (Some (target_adjacent_room n))))
      by eauto.
    cbn [andb]. rewrite Hpick. cbv zeta.
    unfold bind, ret. cbn [fst snd].
    fold (lockpick_check_params (fst (fst dt)) baseStats skills).
    fold w1. fold check. fold w2.
    unfold apply_passed. cbn [String.eqb Ascii.eqb Bool.eqb].
    unfold bind, ret.
    subst w5 w3. destruct (Dice.passed check); cbn [fst snd]; reflexivity. }
  exists w5, check, r, l.
  split; [exact Hout|].
  assert (G5 : same_gate w2 w5).
  { assert (G3 : same_gate w2 w3).
    { subst w3. destruct (Dice.passed check);
        [unfold same_gate; cbn; auto | apply ActionProps.same_gate_refl]. }
    eapply ActionProps.same_gate_trans; [exact G3|].
    eapply ActionProps.same_gate_trans;
      [apply ActionProps.trap_handling_gate | apply ActionProps.award_xp_gate]. }
  destruct G5 as (_ & D & _).
  split; [rewrite D; reflexivity|].
  split; [subst check; rewrite <- Hdcv; reflexivity|].
  split; [exact Hr|]. split; [exact Ht|]. split; [exact Ha|]. split; [exact Hl|].
  split.
  - intros Hp.
    assert (Hfm : floorMap w5 = unlockRoom (floorMap w) n).
    { subst w5. rewrite award_xp_floorMap, (trap_handling_passed _ _ _ Hp).
      subst w3. rewrite Hp. reflexivity. }
    split; [exact Hfm|]. rewrite Hfm.
    rewrite (FloorFacts.unlockRoom_get (floorMap w) n r Hd Hr), Hl. reflexivity.
  - intros Hp. subst w5. rewrite award_xp_floorMap, trap_handling_rooms.
    subst w3. rewrite Hp. reflexivity.
Qed.

End Lockpicking.

Lemma lockpick_adjacent_room_witness :
  let rnd := fun _ : nat => 1 # 2 in
  let currentRoom := FloorSpec.sample_room 1 ty_standard true [2; 3] in
  let pick := mkInvRow 1 7 30 2 "Thieves' Pick" in
  rooms (floorMap lock_world) !! 0%nat = Some currentRoom
  /\ ~ (type currentRoom = Some ty_locked /\ is_Some (lock currentRoom))
  /\ (forall ch, chest currentRoom = Some ch -> is_locked ch = false)
  /\ find_adjacent_lock (floorMap lock_world) (connections currentRoom)
     = Some (12, 3)
  /\ find_pick (getInventory (player_inventory lock_world)
                  (player_id (mkPlayer 7))) = Some pick
  /\ FloorSpec.distinct_numbers (rooms (floorMap lock_world))
  /\ exists w' check r l,
       fst (processSkillCheck rnd [] (Some "lockpicking") (mkRunStats false false)
              (mkPlayer 7) None ∅ 0%nat FloorSpec.sample_dungeon lock_world
              0%nat) = Some w'
       /\ diceResults (result w') = diceResults (result lock_world) ++ [check]
       /\ Dice.dc check
          = (if 12 =? 0
             then fst (Dice.randomDC rnd (dc_range FloorSpec.sample_dungeon) 0%nat)
             else 12)
       /\ getCurrentRoom (floorMap lock_world) 3 = Some r
       /\ type r = Some ty_locked /\ is_accessible r = false /\ lock r = Some l
       /\ (Dice.passed check = true ->
           floorMap w' = unlockRoom (floorMap lock_world) 3
           /\ getCurrentRoom (floorMap w') 3
              = Some (set_lock (Some (pick_lock l)) (set_is_accessible true r)))
       /\ (Dice.passed check = false ->
           set_trap None <$> rooms (floorMap w')
           = set_trap None <$> rooms (floorMap lock_world)).
Proof.
  cbv zeta.
  assert (H1 : rooms (floorMap lock_world) !! 0%nat
               = Some (FloorSpec.sample_room 1 ty_standard true [2; 3]))
    by reflexivity.
  assert (H2 : ~ (type (FloorSpec.sample_room 1 ty_standard true [2; 3])
                  = Some ty_locked
                  /\ is_Some (lock (FloorSpec.sample_room 1 ty_standard true [2; 3])))).
  { intros [E _]. discriminate E. }
  assert (H3 : forall ch,
            chest (FloorSpec.sample_room 1 ty_standard true [2; 3]) = Some ch ->
            is_locked ch = false).
  { intros ch E. discriminate E. }
  assert (H4 : find_adjacent_lock (floorMap lock_world)
                 (connections (FloorSpec.sample_room 1 ty_standard true [2; 3]))
               = Some (12, 3)) by reflexivity.
  assert (H5 : find_pick (getInventory (player_inventory lock_world)
                            (player_id (mkPlayer 7)))
               = Some (mkInvRow 1 7 30 2 "Thieves' Pick")) by reflexivity.
  assert (H6 : FloorSpec.distinct_numbers (rooms (floorMap lock_world)))
    by exact FloorProps.sample_map_distinct.
  split; [exact H1|]. split; [exact H2|]. split; [exact H3|].
  split; [exact H4|]. split; [exact H5|]. split; [exact H6|].
  exact (lockpick_adjacent_room (fun _ => 1 # 2) [] (mkRunStats false false)
           (mkPlayer 7) None ∅ 0%nat FloorSpec.sample_dungeon lock_world 0%nat
           (FloorSpec.sample_room 1 ty_standard true [2; 3]) 12 3
           (mkInvRow 1 7 30 2 "Thieves' Pick") H1 H2 H3 H4 H5 H6).
Defined.

(** In the sample world the check against DC 12 rolls 11 and, with no
    bonus, is a partial success: it passes, and room 3 opens. *)
Example lockpick_sample :
  (fst (processSkillCheck (fun _ => 1 # 2) [] (Some "lockpicking")
          (mkRunStats false false) (mkPlayer 7) None ∅ 0%nat
          FloorSpec.sample_dungeon lock_world 0%nat)
     ≫= fun w' => is_accessible <$> getCurrentRoom (floorMap w') 3)
  = Some true.
Proof. vm_compute. reflexivity. Qed.

End TurnFacts.
